(** * to_webdav.py: archive, encrypt, upload, clean up

    A shallow embedding of [src/python/to_webdav.py] and the properties its
    specification states about it.

    The script is almost entirely made of calls into the operating system
    and into three libraries ([zipfile], [subprocess], [webdav3]).  The
    embedding therefore has two layers:

    - an explicit model of what the script can observe of its environment
      (Python [str] operations, [os.path] on POSIX, a file-system tree,
      the [openssl] tool, WebDAV servers, standard output);
    - the four functions of the script, written in a state-and-exception
      monad over that environment, statement by statement. *)

From Stdlib Require Import String Ascii List ZArith Lia Bool.
Import ListNotations.
Local Open Scope list_scope.
Local Open Scope string_scope.

Set Implicit Arguments.
Set Warnings "-register-all".

(* ================================================================== *)
(** * Python [str] operations used by the script and by [os.path] *)
(* ================================================================== *)

Module Str.

(** [sep = '/'] on POSIX. *)
Definition sep : ascii := "/"%char.

Definition is_sep (c : ascii) : bool := Ascii.eqb c sep.

(** [not s] is true for the empty string only. *)
Definition is_empty (s : string) : bool :=
  match s with EmptyString => true | String _ _ => false end.

(** [s.startswith('/')]. *)
Definition startswith_sep (s : string) : bool :=
  match s with String c _ => is_sep c | EmptyString => false end.

(** [s.endswith('/')]. *)
Fixpoint endswith_sep (s : string) : bool :=
  match s with
  | EmptyString => false
  | String c EmptyString => is_sep c
  | String _ r => endswith_sep r
  end.

(** [s == '/' * len(s)]: every character is a separator. *)
Fixpoint all_sep (s : string) : bool :=
  match s with
  | EmptyString => true
  | String c r => is_sep c && all_sep r
  end.

(** ['/' in s]. *)
Fixpoint has_sep (s : string) : bool :=
  match s with
  | EmptyString => false
  | String c r => is_sep c || has_sep r
  end.

(** [s[:n]] and [s[n:]] for [0 <= n]. *)
Fixpoint take (n : nat) (s : string) : string :=
  match n, s with
  | S m, String c r => String c (take m r)
  | _, _ => EmptyString
  end.

Fixpoint drop (n : nat) (s : string) : string :=
  match n, s with
  | S m, String _ r => drop m r
  | _, _ => s
  end.

(** [s.rfind('/')]: index of the last separator, [-1] when there is none. *)
Fixpoint rfind_sep (s : string) : Z :=
  match s with
  | EmptyString => -1
  | String c r =>
      let i := rfind_sep r in
      if (0 <=? i)%Z then (i + 1)%Z
      else if is_sep c then 0%Z else (-1)%Z
  end.

(** [s.lstrip('/')] and [s.rstrip('/')]. *)
Fixpoint lstrip_sep (s : string) : string :=
  match s with
  | String c r => if is_sep c then lstrip_sep r else s
  | EmptyString => EmptyString
  end.

Fixpoint rstrip_sep (s : string) : string :=
  match s with
  | EmptyString => EmptyString
  | String c r =>
      match rstrip_sep r with
      | EmptyString => if is_sep c then EmptyString else String c EmptyString
      | r' => String c r'
      end
  end.

(** [s.strip('/')]. *)
Definition strip_sep (s : string) : string := rstrip_sep (lstrip_sep s).

(** [s.split('/')]: never the empty list. *)
Fixpoint split_sep (s : string) : list string :=
  match s with
  | EmptyString => [EmptyString]
  | String c r =>
      if is_sep c then EmptyString :: split_sep r
      else match split_sep r with
           | h :: t => String c h :: t
           | [] => [String c EmptyString]
           end
  end.

(** ['/'.join(l)]. *)
Fixpoint join_sep (l : list string) : string :=
  match l with
  | [] => EmptyString
  | [a] => a
  | a :: r => a ++ String sep (join_sep r)
  end.

(** ['/' * n]. *)
Fixpoint seps (n : nat) : string :=
  match n with
  | O => EmptyString
  | S m => String sep (seps m)
  end.

End Str.

(* ================================================================== *)
(** * [os.path] on POSIX ([posixpath]) *)
(* ================================================================== *)

Module posixpath.
Import Str.

(** [basename(p)]: [i = p.rfind(sep) + 1; return p[i:]]. *)
Definition basename (p : string) : string :=
  let i := (rfind_sep p + 1)%Z in
  drop (Z.to_nat i) p.

(** [dirname(p)]: [head = p[:i]], stripped of its trailing separators
    unless it consists of separators only. *)
Definition dirname (p : string) : string :=
  let i := (rfind_sep p + 1)%Z in
  let head := take (Z.to_nat i) p in
  if negb (is_empty head) && negb (all_sep head) then rstrip_sep head
  else head.

(** One round of the loop of [join(a, *p)]. *)
Definition join2 (path b : string) : string :=
  if startswith_sep b then b
  else if is_empty path || endswith_sep path then path ++ b
  else path ++ String sep b.

Definition join (a : string) (p : list string) : string :=
  fold_left join2 p a.

Definition isabs (s : string) : bool := startswith_sep s.

(** The body of the [for comp in comps] loop of [normpath]; [new_comps]
    is the list being built, [initial_slashes] the number of leading
    slashes kept (0, 1 or 2). *)
Definition norm_step (initial_slashes : nat) (new_comps : list string)
    (comp : string) : list string :=
  if String.eqb comp "" || String.eqb comp "." then new_comps
  else if negb (String.eqb comp "..")
          || (Nat.eqb initial_slashes 0 && Nat.eqb (length new_comps) 0)
          || (negb (Nat.eqb (length new_comps) 0)
              && String.eqb (last new_comps "") "..")
       then (new_comps ++ [comp])%list
       else if negb (Nat.eqb (length new_comps) 0) then removelast new_comps
       else new_comps.

Definition initial_slashes_of (path : string) : nat :=
  if startswith_sep path then
    match path with
    | String _ (String c2 r) =>
        if is_sep c2 && negb (startswith_sep r) then 2 else 1
    | _ => 1
    end
  else 0.

Definition norm_comps (path : string) : list string :=
  fold_left (norm_step (initial_slashes_of path)) (split_sep path) [].

Definition normpath (path : string) : string :=
  if is_empty path then "."
  else
    let initial_slashes := initial_slashes_of path in
    let comps := norm_comps path in
    let path' := seps initial_slashes ++ join_sep comps in
    if is_empty path' then "." else path'.

(** [abspath(path)], [cwd] being what [os.getcwd()] returns. *)
Definition abspath (cwd path : string) : string :=
  if negb (isabs path) then normpath (join cwd [path]) else normpath path.

(** [commonprefix([l1, l2])] on two lists of components: their longest
    common prefix. *)
Fixpoint commonprefix (l1 l2 : list string) : list string :=
  match l1, l2 with
  | a :: r1, b :: r2 =>
      if String.eqb a b then a :: commonprefix r1 r2 else []
  | _, _ => []
  end.

Definition nonempty_comps (s : string) : list string :=
  filter (fun x => negb (is_empty x)) (split_sep s).

(** [relpath(path, start)] with [start] given; [None] stands for the
    [ValueError] raised on an empty [path]. *)
Definition relpath (cwd path start : string) : option string :=
  if is_empty path then None
  else
    let start_list := nonempty_comps (abspath cwd start) in
    let path_list := nonempty_comps (abspath cwd path) in
    let i := length (commonprefix start_list path_list) in
    let rel_list :=
      (repeat ".." (length start_list - i) ++ skipn i path_list)%list in
    match rel_list with
    | [] => Some "."
    | a :: p => Some (join a p)
    end.

End posixpath.

(* ================================================================== *)
(** * The environment of the script *)
(* ================================================================== *)

(** ** Exceptions

    The Python exception classes the script can meet.  All of them derive
    from [Exception]; [is_OSError] tells the subclasses of [OSError].
    Python raises [PermissionError] for two error codes and prints them
    differently: here [PermissionError] is the one with [EACCES] and
    [OperationNotPermitted] the one with [EPERM]. *)

Inductive exn : Type :=
| FileNotFoundError (filename : string)
| PermissionError (filename : string)
| OperationNotPermitted (filename : string)
| IsADirectoryError (filename : string)
| OSError (strerror : string)
| ValueError (msg : string)
| IndexError (msg : string)
| CalledProcessError (returncode : Z) (stderr : string)
| WebDavException (msg : string).

Definition is_OSError (e : exn) : bool :=
  match e with
  | FileNotFoundError _ | PermissionError _ | OperationNotPermitted _
  | IsADirectoryError _ | OSError _ => true
  | _ => false
  end.

Definition is_FileNotFoundError (e : exn) : bool :=
  match e with FileNotFoundError _ => true | _ => false end.

Definition is_CalledProcessError (e : exn) : bool :=
  match e with CalledProcessError _ _ => true | _ => false end.

(** The attributes [e.returncode] and [e.stderr] of a
    [CalledProcessError]. *)
Definition returncode_of (e : exn) : Z :=
  match e with CalledProcessError rc _ => rc | _ => 0%Z end.

Definition stderr_of (e : exn) : string :=
  match e with CalledProcessError _ err => err | _ => "" end.

(** The error codes with which the system may refuse an operation that
    the file-system tree alone would allow (a directory that only
    accepts new entries, a read-only or failing device, ...). *)
Inductive errno : Type := EACCES | EPERM | EBUSY | EROFS | EIO.

Definition exn_of_errno (c : errno) (filename : string) : exn :=
  match c with
  | EACCES => PermissionError filename
  | EPERM => OperationNotPermitted filename
  | EBUSY => OSError ("[Errno 16] Device or resource busy: '" ++ filename ++ "'")
  | EROFS => OSError ("[Errno 30] Read-only file system: '" ++ filename ++ "'")
  | EIO => OSError ("[Errno 5] Input/output error: '" ++ filename ++ "'")
  end.

(** ** Decimal formatting *)

Definition digit (n : nat) : ascii := ascii_of_nat (48 + n mod 10).

(** [f"{n:02d}"] and [f"{n:04d}"] for the ranges a [datetime] holds. *)
Definition pad2 (n : nat) : string :=
  String (digit (n / 10)) (String (digit n) "").

Definition pad4 (n : nat) : string :=
  String (digit (n / 1000)) (String (digit (n / 100)) (pad2 n)).

(** [str(z)] for an integer: used for the return code of a process. *)
Fixpoint digits_of (fuel n : nat) (acc : string) : string :=
  match fuel with
  | O => acc
  | S f =>
      let acc' := String (digit n) acc in
      if Nat.eqb (n / 10) 0 then acc' else digits_of f (n / 10) acc'
  end.

Definition str_of_nat (n : nat) : string := digits_of (S n) n "".

Definition str_of_Z (z : Z) : string :=
  if (z <? 0)%Z then "-" ++ str_of_nat (Z.to_nat (- z))
  else str_of_nat (Z.to_nat z).

(** ** File contents

    Contents are symbolic: plain bytes, the ZIP container of a list of
    named entries, or the [openssl enc] encryption of a content under a
    password.  A container is never an empty file (it always ends with
    its directory record), nor is an encryption (it starts with its
    salt header). *)

Inductive blob : Type :=
| Bytes (s : string)
| ZipOf (entries : list (string * blob))
| Enc (password : string) (plain : blob).

Definition blob_is_empty (b : blob) : bool :=
  match b with
  | Bytes s => Str.is_empty s
  | _ => false
  end.

(** ** The file-system tree

    Regular files and directories (no symbolic links, no special files).
    A file that is not [readable] cannot be opened for reading. *)

Inductive node : Type :=
| File (readable : bool) (data : blob)
| Dir (entries : list (string * node)).

Definition is_file (o : option node) : bool :=
  match o with Some (File _ _) => true | _ => false end.

Definition is_dir (o : option node) : bool :=
  match o with Some (Dir _) => true | _ => false end.

(** A directory entry name: not empty, no separator, neither [.] nor
    [..]. *)
Definition is_name (s : string) : bool :=
  negb (Str.is_empty s) && negb (Str.has_sep s)
  && negb (String.eqb s ".") && negb (String.eqb s "..").

Fixpoint lookup (name : string) (es : list (string * node)) : option node :=
  match es with
  | [] => None
  | (n, x) :: r => if String.eqb n name then Some x else lookup name r
  end.

(** The node at a canonical location: a list of entry names from the
    root. *)
Fixpoint get (n : node) (loc : list string) : option node :=
  match loc with
  | [] => Some n
  | c :: r =>
      match n with
      | Dir es =>
          match lookup c es with
          | Some m => get m r
          | None => None
          end
      | File _ _ => None
      end
  end.

(** Path resolution: walks the components [comps] starting at the
    canonical location [acc].  Every component, also an empty one or a
    dot, is looked up in a directory, so [file/] and [file/.] fail. *)
Fixpoint canon (root : node) (comps acc : list string)
  : option (list string) :=
  match comps with
  | [] => Some acc
  | c :: rest =>
      if is_dir (get root acc) then
        if String.eqb c "" || String.eqb c "." then canon root rest acc
        else if String.eqb c ".." then canon root rest (removelast acc)
        else match get root (acc ++ [c])%list with
             | Some _ => canon root rest (acc ++ [c])%list
             | None => None
             end
      else None
  end.

(** Writing ([Some x]) or removing ([None]) the entry [name] of a
    directory. *)
Fixpoint set_entry (name : string) (v : option node)
    (es : list (string * node)) : list (string * node) :=
  match es with
  | [] => match v with Some x => [(name, x)] | None => [] end
  | (n, x) :: r =>
      if String.eqb n name then
        match v with
        | Some y => (n, y) :: r
        | None => set_entry name None r
        end
      else (n, x) :: set_entry name v r
  end.

Fixpoint map_entry (name : string) (f : node -> node)
    (es : list (string * node)) : list (string * node) :=
  match es with
  | [] => []
  | (n, x) :: r =>
      if String.eqb n name then (n, f x) :: r
      else (n, x) :: map_entry name f r
  end.

(** Writing or removing the node at a canonical location. *)
Fixpoint set_at (loc : list string) (v : option node) (n : node) : node :=
  match loc, n with
  | [name], Dir es => Dir (set_entry name v es)
  | c :: rest, Dir es => Dir (map_entry c (set_at rest v) es)
  | _, _ => n
  end.

(** ** External tools and services *)

(** The [openssl] command as the script finds it. *)
Inductive tool : Type :=
| ToolMissing                                (* no such program on PATH *)
| ToolNotExecutable                          (* found, but may not be run *)
| ToolFailing (rc : Z) (stderr : string)     (* runs and exits with [rc] *)
| ToolWorking.

(** The three requests the script makes of a WebDAV client. *)
Inductive dav_op : Type := OpExists | OpMkcol | OpPut.

Inductive dav_request : Type :=
| DavExists (remote_dir : string)
| DavMkcol (remote_dir : string)
| DavPut (remote_path local_file : string).

(** A WebDAV server as seen through [webdav3.client.Client].
    [dav_fault] gives the requests that fail whatever their argument
    (no connection, rejected credentials, no space left, ...);
    [dav_incoming] are collections that another client creates right
    after the next existence check; [dav_mkcol_existing] is how a
    creation request for a collection that exists is reported: [None]
    when it is accepted, [Some e] when it raises [e].  Collections and
    files are kept under the paths the client is called with: what the
    client does to a path before it sends it (runs of separators and
    components made of dots are dropped) is not part of the model, and
    what is stated about the content of a server is stated for remote
    directories of one plain component. *)
Record dav_server : Type := {
  dav_fault : dav_op -> option exn;
  dav_dirs : list string;
  dav_files : list (string * blob);
  dav_incoming : list string;
  dav_mkcol_existing : option exn
}.

Record datetime : Type := {
  year : nat; month : nat; day : nat;
  hour : nat; minute : nat; second : nat
}.

(** An open [zipfile.ZipFile] in mode ['w']: where its file is, and the
    entries written so far. *)
Record ZipFile : Type := {
  zf_loc : list string;
  zf_entries : list (string * blob)
}.

(** ** The world *)

Record World : Type := {
  fs : node;                               (* the root directory *)
  cwd : list string;                       (* canonical working directory *)
  stdout : list string;                    (* lines printed so far *)
  clock : datetime;                        (* what datetime.now() returns *)
  openssl : tool;
  remove_fault : string -> option errno;   (* deletions the system refuses *)
  dav : string -> dav_server;              (* servers by URL *)
  net_log : list (string * dav_request);   (* requests sent, oldest first *)
  zf : option ZipFile                      (* the archive being written *)
}.

Definition set_fs (w : World) (x : node) : World :=
  {| fs := x; cwd := cwd w; stdout := stdout w; clock := clock w;
     openssl := openssl w; remove_fault := remove_fault w; dav := dav w;
     net_log := net_log w; zf := zf w |}.

Definition set_stdout (w : World) (x : list string) : World :=
  {| fs := fs w; cwd := cwd w; stdout := x; clock := clock w;
     openssl := openssl w; remove_fault := remove_fault w; dav := dav w;
     net_log := net_log w; zf := zf w |}.

Definition set_zf (w : World) (x : option ZipFile) : World :=
  {| fs := fs w; cwd := cwd w; stdout := stdout w; clock := clock w;
     openssl := openssl w; remove_fault := remove_fault w; dav := dav w;
     net_log := net_log w; zf := x |}.

Definition set_net_log (w : World) (x : list (string * dav_request)) : World :=
  {| fs := fs w; cwd := cwd w; stdout := stdout w; clock := clock w;
     openssl := openssl w; remove_fault := remove_fault w; dav := dav w;
     net_log := x; zf := zf w |}.

Definition set_dav (w : World) (url : string) (s : dav_server) : World :=
  {| fs := fs w; cwd := cwd w; stdout := stdout w; clock := clock w;
     openssl := openssl w; remove_fault := remove_fault w;
     dav := fun u => if String.eqb u url then s else dav w u;
     net_log := net_log w; zf := zf w |}.

(** [os.getcwd()]. *)
Definition getcwd (w : World) : string :=
  String Str.sep (Str.join_sep (cwd w)).

(** Where the resolution of [path] starts. *)
Definition start_of (w : World) (path : string) : list string :=
  if posixpath.isabs path then [] else cwd w.

(** [os.stat(path)] without its errors: the node [path] names, if any. *)
Definition stat (w : World) (path : string) : option node :=
  if Str.is_empty path then None
  else match canon (fs w) (Str.split_sep path) (start_of w path) with
       | Some loc => get (fs w) loc
       | None => None
       end.

(** The canonical location of the node [path] names, if any. *)
Definition location_of (w : World) (path : string) : option (list string) :=
  if Str.is_empty path then None
  else canon (fs w) (Str.split_sep path) (start_of w path).

(** The canonical location [path] names for creating or unlinking an
    entry: an existing parent directory and a last component that is a
    name. *)
Definition locate (w : World) (path : string) : option (list string) :=
  let comps := Str.split_sep path in
  let name := last comps "" in
  if is_name name then
    match canon (fs w) (removelast comps) (start_of w path) with
    | Some parent =>
        if is_dir (get (fs w) parent) then Some (parent ++ [name])%list
        else None
    | None => None
    end
  else None.

(* ================================================================== *)
(** * The monad of the script: state and exceptions *)
(* ================================================================== *)

Inductive outcome (A : Type) : Type :=
| Ok (a : A)
| Raise (e : exn).

Arguments Ok {A} a.
Arguments Raise {A} e.

Definition M (A : Type) : Type := World -> outcome A * World.

Definition ret {A : Type} (a : A) : M A := fun w => (Ok a, w).

Definition raise {A : Type} (e : exn) : M A := fun w => (Raise e, w).

Definition bind {A B : Type} (m : M A) (k : A -> M B) : M B :=
  fun w =>
    match m w with
    | (Ok a, w1) => k a w1
    | (Raise e, w1) => (Raise e, w1)
    end.

Notation "x <- m ;; k" := (bind m (fun x => k))
  (at level 61, m at next level, right associativity).
Notation "m ;; k" := (bind m (fun _ => k))
  (at level 61, right associativity).

(** [try: m except C1 as e: h1 e except C2 as e: h2 e ...]: each clause
    pairs the test of its exception class with its handler; the first
    clause whose class matches handles the exception. *)
Definition clause (A : Type) : Type := ((exn -> bool) * (exn -> M A))%type.

Fixpoint select_clause {A : Type} (e : exn) (clauses : list (clause A))
  : option (exn -> M A) :=
  match clauses with
  | [] => None
  | (catches, handler) :: r =>
      if catches e then Some handler else select_clause e r
  end.

Definition try_except {A : Type} (m : M A) (clauses : list (clause A))
  : M A :=
  fun w =>
    match m w with
    | (Ok a, w1) => (Ok a, w1)
    | (Raise e, w1) =>
        match select_clause e clauses with
        | Some handler => handler e w1
        | None => (Raise e, w1)
        end
    end.

(** [except Exception]: every exception of the model. *)
Definition any_Exception (e : exn) : bool := true.

(** [try: m finally: f]; as in Python an exception of [f] replaces the
    one of [m]. *)
Definition try_finally {A : Type} (m : M A) (f : M unit) : M A :=
  fun w =>
    match m w with
    | (r, w1) =>
        match f w1 with
        | (Ok _, w2) => (r, w2)
        | (Raise e, w2) => (Raise e, w2)
        end
    end.

(** [for x in l: body x]. *)
Fixpoint for_each {A : Type} (l : list A) (body : A -> M unit) : M unit :=
  match l with
  | [] => ret tt
  | x :: r => body x ;; for_each r body
  end.

Definition get_world : M World := fun w => (Ok w, w).

(** [print(line)]. *)
Definition print (line : string) : M unit :=
  fun w => (Ok tt, set_stdout w (stdout w ++ [line])%list).

(** [str(e)], as the [f"{e}"] of the script prints it. *)
Definition str_of_exn (e : exn) : string :=
  match e with
  | FileNotFoundError f => "[Errno 2] No such file or directory: '" ++ f ++ "'"
  | PermissionError f => "[Errno 13] Permission denied: '" ++ f ++ "'"
  | OperationNotPermitted f => "[Errno 1] Operation not permitted: '" ++ f ++ "'"
  | IsADirectoryError f => "[Errno 21] Is a directory: '" ++ f ++ "'"
  | OSError m => m
  | ValueError m => m
  | IndexError m => m
  | CalledProcessError rc _ =>
      "Command returned non-zero exit status " ++ str_of_Z rc ++ "."
  | WebDavException m => m
  end.

(* ================================================================== *)
(** * Operating-system and library calls *)
(* ================================================================== *)

(** ** [os] and [os.path] *)

Definition os_path_exists (path : string) : M bool :=
  fun w => (Ok (match stat w path with Some _ => true | None => false end), w).

Definition os_path_isfile (path : string) : M bool :=
  fun w => (Ok (is_file (stat w path)), w).

Definition os_path_isdir (path : string) : M bool :=
  fun w => (Ok (is_dir (stat w path)), w).

Definition os_path_relpath (path start : string) : M string :=
  fun w =>
    match posixpath.relpath (getcwd w) path start with
    | Some r => (Ok r, w)
    | None => (Raise (ValueError "no path specified"), w)
    end.

(** [os.remove(path)]. *)
Definition os_remove (path : string) : M unit :=
  fun w =>
    match remove_fault w path with
    | Some c => (Raise (exn_of_errno c path), w)
    | None =>
        match locate w path with
        | Some loc =>
            match get (fs w) loc with
            | Some (File _ _) => (Ok tt, set_fs w (set_at loc None (fs w)))
            | Some (Dir _) => (Raise (IsADirectoryError path), w)
            | None => (Raise (FileNotFoundError path), w)
            end
        | None => (Raise (FileNotFoundError path), w)
        end
    end.

(** The file and directory names of a directory listing. *)
Definition dirnames (es : list (string * node)) : list string :=
  map fst (filter (fun e => is_dir (Some (snd e))) es).

Definition filenames_of (es : list (string * node)) : list string :=
  map fst (filter (fun e => negb (is_dir (Some (snd e)))) es).

(** [os.walk(top)], top-down: what the generator yields, in order.
    Each triple is [(dirpath, dirnames, filenames)]; a sub-directory is
    visited under the path [join(top, name)]. *)
Fixpoint walk_node (top : string) (n : node)
  : list (string * list string * list string) :=
  match n with
  | File _ _ => []
  | Dir es =>
      (top, dirnames es, filenames_of es)
      :: (fix subdirs (l : list (string * node)) :=
            match l with
            | [] => []
            | (name, child) :: r =>
                (walk_node (posixpath.join top [name]) child
                 ++ subdirs r)%list
            end) es
  end.

Definition os_walk (top : string)
  : M (list (string * list string * list string)) :=
  fun w =>
    match stat w top with
    | Some (Dir es) => (Ok (walk_node top (Dir es)), w)
    | _ => (Ok [], w)
    end.

(** ** [zipfile] *)

(** The name [ZipInfo.from_file] stores for [arcname]: normalised, and
    without leading separators; indexing the empty string that may
    remain raises [IndexError]. *)
Definition zip_arcname (arcname : string) : option string :=
  let a := Str.lstrip_sep (posixpath.normpath arcname) in
  if Str.is_empty a then None else Some a.

(** [zipfile.ZipFile(archive_name, 'w', zipfile.ZIP_DEFLATED)]: creates
    or truncates the file, which is empty until the archive is closed.
    How the file grows while entries are written is not modelled: what
    is stated about the content of an archive is stated for items that
    neither are the archive nor contain it. *)
Definition ZipFile_open (archive_name : string) : M unit :=
  fun w =>
    match locate w archive_name with
    | Some loc =>
        if is_dir (get (fs w) loc)
        then (Raise (IsADirectoryError archive_name), w)
        else
          let w1 := set_fs w (set_at loc (Some (File true (Bytes ""))) (fs w)) in
          (Ok tt, set_zf w1 (Some {| zf_loc := loc; zf_entries := [] |}))
    | None => (Raise (FileNotFoundError archive_name), w)
    end.

(** [zf.close()], which the [with] statement calls on every exit: the
    entries written so far and the directory record reach the file. *)
Definition ZipFile_close : M unit :=
  fun w =>
    match zf w with
    | Some z =>
        let data := ZipOf (zf_entries z) in
        let w1 := set_fs w (set_at (zf_loc z) (Some (File true data)) (fs w)) in
        (Ok tt, set_zf w1 None)
    | None => (Ok tt, w)
    end.

Definition zf_add (name : string) (data : blob) : M unit :=
  fun w =>
    match zf w with
    | Some z =>
        (Ok tt,
         set_zf w (Some {| zf_loc := zf_loc z;
                           zf_entries := (zf_entries z ++ [(name, data)])%list |}))
    | None =>
        (Raise (ValueError "Attempt to write to ZIP archive that was already closed"), w)
    end.

(** [zf.write(filename, arcname)]. *)
Definition zf_write (filename arcname : string) : M unit :=
  fun w =>
    match stat w filename with
    | None => (Raise (FileNotFoundError filename), w)
    | Some n =>
        match zip_arcname arcname with
        | None => (Raise (IndexError "string index out of range"), w)
        | Some a =>
            match n with
            | Dir _ => zf_add (a ++ "/") (Bytes "") w
            | File false _ => (Raise (PermissionError filename), w)
            | File true data => zf_add a data w
            end
        end
    end.

(** [with zipfile.ZipFile(...) as zf: body]. *)
Definition with_ZipFile (archive_name : string) (body : M unit) : M unit :=
  ZipFile_open archive_name ;; try_finally body ZipFile_close.

(** ** [subprocess] and the [openssl] tool *)

Fixpoint strings_eqb (l1 l2 : list string) : bool :=
  match l1, l2 with
  | [], [] => true
  | a :: r1, b :: r2 => String.eqb a b && strings_eqb r1 r2
  | _, _ => false
  end.

(** [openssl enc -aes-256-cbc -salt -pbkdf2 -in i -out o -k pw], once
    the program could be started: its return code and standard error.
    The tool opens the input, then the output, which this empties, and
    only then reads: when both are the same file, what it encrypts is
    the empty content. *)
Definition openssl_enc (input_file output_file password : string)
  : M (Z * string) :=
  fun w =>
    match openssl w with
    | ToolMissing => (Raise (FileNotFoundError "openssl"), w)
    | ToolNotExecutable => (Raise (PermissionError "openssl"), w)
    | ToolFailing rc err => (Ok (rc, err), w)
    | ToolWorking =>
        match stat w input_file with
        | Some (File true data) =>
            match locate w output_file with
            | Some loc =>
                if is_dir (get (fs w) loc)
                then (Ok (1%Z, "Can't open " ++ output_file ++ " for writing"), w)
                else
                  let plain :=
                    match location_of w input_file with
                    | Some l => if strings_eqb l loc then Bytes "" else data
                    | None => data
                    end in
                  let out := File true (Enc password plain) in
                  (Ok (0%Z, ""), set_fs w (set_at loc (Some out) (fs w)))
            | None =>
                (Ok (1%Z, "Can't open " ++ output_file ++ " for writing"), w)
            end
        | _ => (Ok (1%Z, "Can't open " ++ input_file ++ " for reading"), w)
        end
    end.

(** [subprocess.run(command, check=True, capture_output=True,
    text=True)]: [FileNotFoundError] when the program does not exist,
    [CalledProcessError] when it exits with a non-zero code. *)
Definition subprocess_run_check (command : list string) : M unit :=
  match command with
  | [prog; a1; a2; a3; a4; a5; i; a6; o; a7; pw] =>
      if strings_eqb [prog; a1; a2; a3; a4; a5; a6; a7]
           ["openssl"; "enc"; "-aes-256-cbc"; "-salt"; "-pbkdf2";
            "-in"; "-out"; "-k"]
      then
        r <- openssl_enc i o pw ;;
        if (fst r =? 0)%Z then ret tt
        else raise (CalledProcessError (fst r) (snd r))
      else raise (FileNotFoundError prog)
  | _ => raise (FileNotFoundError (hd "" command))
  end.

(** ** [webdav3.client.Client] *)

Record Client : Type := {
  webdav_hostname : string;
  webdav_login : string;
  webdav_password : string
}.

Definition dav_call (c : Client) (r : dav_request) : M unit :=
  fun w => (Ok tt, set_net_log w (net_log w ++ [(webdav_hostname c, r)])%list).

Definition mem (s : string) (l : list string) : bool :=
  existsb (String.eqb s) l.

(** [client.check(remote_dir)]. *)
Definition client_check (c : Client) (remote_dir : string) : M bool :=
  dav_call c (DavExists remote_dir) ;;
  fun w =>
    let s := dav w (webdav_hostname c) in
    match dav_fault s OpExists with
    | Some e => (Raise e, w)
    | None =>
        (Ok (mem remote_dir (dav_dirs s)),
         set_dav w (webdav_hostname c)
           {| dav_fault := dav_fault s;
              dav_dirs := (dav_dirs s ++ dav_incoming s)%list;
              dav_files := dav_files s;
              dav_incoming := [];
              dav_mkcol_existing := dav_mkcol_existing s |})
    end.

(** The collection a remote path lies in: the path up to and including
    its last separator. *)
Definition dav_parent (remote_path : string) : string :=
  Str.take (Z.to_nat (Str.rfind_sep remote_path + 1)) remote_path.

(** The parent of a collection: [/a/b/] lies in [/a/], and [/a/] in
    the root. *)
Definition dir_parent (remote_dir : string) : string :=
  dav_parent (Str.rstrip_sep remote_dir).

(** Whether the server has the collection [p]: the root is always
    there, and with a collection all those on the way to it. *)
Definition dav_has (s : dav_server) (p : string) : bool :=
  String.eqb p "/" || existsb (String.prefix p) (dav_dirs s).

(** [client.mkdir(remote_dir)]: the client first checks that the parent
    collection exists, and raises [RemoteParentNotFound] when it does
    not; only then is the collection created. *)
Definition client_mkdir (c : Client) (remote_dir : string) : M unit :=
  dav_call c (DavMkcol remote_dir) ;;
  fun w =>
    let s := dav w (webdav_hostname c) in
    match dav_fault s OpExists with
    | Some e => (Raise e, w)
    | None =>
        if negb (dav_has s (dir_parent remote_dir)) then
          (Raise (WebDavException
                    ("Remote parent for: " ++ remote_dir ++ " not found")), w)
        else
          match dav_fault s OpMkcol with
          | Some e => (Raise e, w)
          | None =>
              if mem remote_dir (dav_dirs s) then
                match dav_mkcol_existing s with
                | Some e => (Raise e, w)
                | None => (Ok tt, w)
                end
              else
                (Ok tt,
                 set_dav w (webdav_hostname c)
                   {| dav_fault := dav_fault s;
                      dav_dirs := (dav_dirs s ++ [remote_dir])%list;
                      dav_files := dav_files s;
                      dav_incoming := dav_incoming s;
                      dav_mkcol_existing := dav_mkcol_existing s |})
          end
    end.

(** [client.upload(remote_path, local_file)]. *)
Definition client_upload (c : Client) (remote_path local_file : string)
  : M unit :=
  dav_call c (DavPut remote_path local_file) ;;
  fun w =>
    let s := dav w (webdav_hostname c) in
    match dav_fault s OpPut with
    | Some e => (Raise e, w)
    | None =>
        match stat w local_file with
        | Some (File true data) =>
            if dav_has s (dav_parent remote_path) then
              (Ok tt,
               set_dav w (webdav_hostname c)
                 {| dav_fault := dav_fault s;
                    dav_dirs := dav_dirs s;
                    dav_files := (dav_files s ++ [(remote_path, data)])%list;
                    dav_incoming := dav_incoming s;
                    dav_mkcol_existing := dav_mkcol_existing s |})
            else
              (Raise (WebDavException
                        ("Remote parent for: " ++ remote_path ++ " not found")), w)
        | Some (File false _) => (Raise (PermissionError local_file), w)
        | _ =>
            (Raise (WebDavException
                      ("Local file: " ++ local_file ++ " not found")), w)
        end
    end.

(** ** [datetime] *)

Definition datetime_now : M datetime := fun w => (Ok (clock w), w).

(** [strftime('%Y%m%d_%H%M%S')]. *)
Definition strftime_stamp (d : datetime) : string :=
  pad4 (year d) ++ pad2 (month d) ++ pad2 (day d) ++ "_"
  ++ pad2 (hour d) ++ pad2 (minute d) ++ pad2 (second d).

(** [strftime('%Y-%m')]. *)
Definition strftime_month (d : datetime) : string :=
  pad4 (year d) ++ "-" ++ pad2 (month d).

(* ================================================================== *)
(** * The script *)
(* ================================================================== *)

(** The three configuration constants of the module. *)
Record ServerConfig : Type := {
  url : string;
  username : string;
  password : string
}.

Record Config : Type := {
  SOURCE_ITEMS : list string;
  WEBDAV_SERVERS : list ServerConfig;
  ENCRYPTION_PASSWORD : string
}.

(** A newline, as in the literals that start with a line break. *)
Definition nl : string := String (ascii_of_nat 10) "".

(** The body of [for item in source_items] (lines 31-40). *)
Definition add_item (item : string) : M unit :=
  isfile <- os_path_isfile item ;;
  if isfile then
    zf_write item (posixpath.basename item) ;;
    print ("  - 已添加文件: " ++ item)
  else
    isdir <- os_path_isdir item ;;
    if isdir then
      triples <- os_walk item ;;
      for_each triples (fun '(foldername, subfolders, filenames) =>
        for_each filenames (fun filename =>
          let file_path := posixpath.join foldername [filename] in
          arcname <- os_path_relpath file_path (posixpath.dirname item) ;;
          zf_write file_path arcname)) ;;
      print ("  - 已添加文件夹: " ++ item)
    else ret tt.

Definition create_unencrypted_zip (source_items : list string)
    (archive_name : string) : M bool :=
  print ("步骤 1: 正在创建标准ZIP压缩包: " ++ archive_name) ;;
  try_except
    (with_ZipFile archive_name (for_each source_items add_item) ;;
     print "标准ZIP压缩包创建成功。" ;;
     ret true)
    [(any_Exception,
      fun e =>
        print ("创建ZIP压缩包时出错: " ++ str_of_exn e) ;;
        ret false)].

Definition encrypt_with_openssl (input_file output_file password : string)
  : M bool :=
  print (nl ++ "步骤 2: 正在使用OpenSSL加密文件 -> " ++ output_file) ;;
  let command :=
    ["openssl"; "enc"; "-aes-256-cbc"; "-salt"; "-pbkdf2";
     "-in"; input_file;
     "-out"; output_file;
     "-k"; password] in
  try_except
    (subprocess_run_check command ;;
     print "文件已成功通过OpenSSL加密。" ;;
     ret true)
    [(is_FileNotFoundError,
      fun _ =>
        print "错误: 'openssl' 命令未找到。请确保OpenSSL已安装并位于系统的PATH中。" ;;
        ret false);
     (is_CalledProcessError,
      fun e =>
        print "OpenSSL加密过程中出错:" ;;
        print ("返回码: " ++ str_of_Z (returncode_of e)) ;;
        print ("错误输出: " ++ stderr_of e) ;;
        ret false)].

(** Lines 84-86: the remote directory is checked and, when the check
    finds nothing, created. *)
Definition ensure_remote_dir (client : Client) (full_remote_dir : string)
  : M unit :=
  found <- client_check client full_remote_dir ;;
  if negb found then
    client_mkdir client full_remote_dir ;;
    print ("  - 在服务器上创建了目录: " ++ full_remote_dir)
  else ret tt.

Definition upload_to_webdav (server_config : ServerConfig)
    (local_file remote_dir : string) : M unit :=
  let client :=
    {| webdav_hostname := url server_config;
       webdav_login := username server_config;
       webdav_password := password server_config |} in
  let full_remote_dir := "/" ++ Str.strip_sep remote_dir ++ "/" in
  let remote_path :=
    posixpath.join full_remote_dir [posixpath.basename local_file] in
  print (nl ++ "步骤 3: 正在上传 " ++ local_file ++ " 到 "
         ++ url server_config ++ "...") ;;
  try_except
    (ensure_remote_dir client full_remote_dir ;;
     client_upload client remote_path local_file ;;
     print ("  - 文件成功上传至: " ++ remote_path))
    [(any_Exception,
      fun e => print ("  - 上传失败: " ++ str_of_exn e))].

(** Lines 117-126: the last step of [main]. *)
Definition cleanup (zip_filename encrypted_filename : string) : M unit :=
  try_except
    (zip_exists <- os_path_exists zip_filename ;;
     (if zip_exists then
        os_remove zip_filename ;;
        print ("  - 已删除临时ZIP文件: " ++ zip_filename)
      else ret tt) ;;
     enc_exists <- os_path_exists encrypted_filename ;;
     (if enc_exists then
        os_remove encrypted_filename ;;
        print ("  - 已删除临时加密文件: " ++ encrypted_filename)
      else ret tt) ;;
     print "清理完成。")
    [(is_OSError,
      fun e => print ("删除本地临时文件时出错: " ++ str_of_exn e))].

Definition zip_filename_of (d : datetime) : string :=
  "backup_" ++ strftime_stamp d ++ ".zip".

Definition main (cfg : Config) : M unit :=
  now1 <- datetime_now ;;
  let timestamp := strftime_stamp now1 in
  now2 <- datetime_now ;;
  let remote_dir_name := strftime_month now2 in
  let zip_filename := "backup_" ++ timestamp ++ ".zip" in
  let encrypted_filename := zip_filename ++ ".enc" in
  created <- create_unencrypted_zip (SOURCE_ITEMS cfg) zip_filename ;;
  if negb created then ret tt
  else
    encrypted <- encrypt_with_openssl zip_filename encrypted_filename
                   (ENCRYPTION_PASSWORD cfg) ;;
    if negb encrypted then
      zip_exists <- os_path_exists zip_filename ;;
      if zip_exists then os_remove zip_filename else ret tt
    else
      for_each (WEBDAV_SERVERS cfg) (fun server =>
        upload_to_webdav server encrypted_filename remote_dir_name) ;;
      print (nl ++ "步骤 4: 正在清理本地临时文件...") ;;
      cleanup zip_filename encrypted_filename.

(** [if __name__ == "__main__": main()]: the exit status of the
    process is 0 when [main] returns and 1 when an exception leaves
    it. *)
Definition script (cfg : Config) (w : World) : Z * World :=
  match main cfg w with
  | (Ok _, w1) => (0%Z, w1)
  | (Raise _, w1) => (1%Z, w1)
  end.

(* ================================================================== *)
(** * Vocabulary of the statements *)
(* ================================================================== *)

(** [keeps proj m]: running [m] leaves the component [proj] of the
    world as it was, whatever the outcome. *)
Definition keeps {A X : Type} (proj : World -> X) (m : M A) : Prop :=
  forall w, proj (snd (m w)) = proj w.

(** What the tool returns when it could be started. *)
Definition cipher_exit (input_file output_file password : string)
    (w : World) : option (Z * string) :=
  match fst (openssl_enc input_file output_file password w) with
  | Ok r => Some r
  | Raise _ => None
  end.

(** The lines by which [encrypt_with_openssl] reports its two errors,
    after the line that announces the step. *)
Definition step2_line (output_file : string) : string :=
  nl ++ "步骤 2: 正在使用OpenSSL加密文件 -> " ++ output_file.

Definition tool_unavailable_report (output_file : string) : list string :=
  [step2_line output_file;
   "错误: 'openssl' 命令未找到。请确保OpenSSL已安装并位于系统的PATH中。"].

Definition cipher_failed_report (output_file : string) (exitCode : Z)
    (message : string) : list string :=
  [step2_line output_file;
   "OpenSSL加密过程中出错:";
   "返回码: " ++ str_of_Z exitCode;
   "错误输出: " ++ message].

(** The destinations an upload was attempted to, in order: every call
    of [upload_to_webdav] starts with one existence check. *)
Definition is_check (r : string * dav_request) : bool :=
  match snd r with DavExists _ => true | _ => false end.

Definition attempts (w : World) : list string :=
  map fst (filter is_check (net_log w)).

(** The state of a server on which the directory [d] needs no further
    care: it answers existence checks, [d] exists, and nobody is about
    to create anything. *)
Definition settled (c : Client) (d : string) (w : World) : Prop :=
  let s := dav w (webdav_hostname c) in
  dav_fault s OpExists = None
  /\ mem d (dav_dirs s) = true
  /\ dav_incoming s = [].

(** The world in which the entry [n] of the working directory is
    written ([Some x]) or removed ([None]). *)
Definition put (w : World) (n : string) (v : option node) : World :=
  set_fs w (set_at (cwd w ++ [n])%list v (fs w)).

(** The names [main] gives its two temporary files. *)
Definition encrypted_filename_of (d : datetime) : string :=
  zip_filename_of d ++ ".enc".

(** One half of the last step of [main]: the file is removed when it
    exists, and the removal is reported with [msg]. *)
Definition remove_if_exists (path msg : string) : M unit :=
  found <- os_path_exists path ;;
  if found then os_remove path ;; print (msg ++ path) else ret tt.

(** The line that announces the last step. *)
Definition step4_line : string := nl ++ "步骤 4: 正在清理本地临时文件...".

(** The line by which the last step reports an error. *)
Definition cleanup_error_line (e : exn) : string :=
  "删除本地临时文件时出错: " ++ str_of_exn e.

(** The stages of [main] before the uploads, as [main] runs them. *)
Definition archive_stage (cfg : Config) (w : World) : outcome bool * World :=
  create_unencrypted_zip (SOURCE_ITEMS cfg) (zip_filename_of (clock w)) w.

Definition encrypt_stage (cfg : Config) (w : World) : outcome bool * World :=
  encrypt_with_openssl (zip_filename_of (clock w))
    (encrypted_filename_of (clock w)) (ENCRYPTION_PASSWORD cfg)
    (snd (archive_stage cfg w)).

(** The archiving stage reported failure, or it succeeded and the
    encryption stage reported failure. *)
Definition archive_failed (cfg : Config) (w : World) : Prop :=
  fst (archive_stage cfg w) = Ok false.

Definition encrypt_failed (cfg : Config) (w : World) : Prop :=
  fst (archive_stage cfg w) = Ok true /\ fst (encrypt_stage cfg w) = Ok false.

(** The world when the upload loop of [main] has run. *)
Definition upload_stage (cfg : Config) (w : World) : outcome unit * World :=
  for_each (WEBDAV_SERVERS cfg)
    (fun server =>
       upload_to_webdav server (encrypted_filename_of (clock w))
         (strftime_month (clock w)))
    (snd (encrypt_stage cfg w)).

(** C1 as the specification states it: a failed first or second stage
    shows in the exit status. *)
Definition failure_is_signalled (cfg : Config) (w : World) : Prop :=
  archive_failed cfg w \/ encrypt_failed cfg w -> fst (script cfg w) <> 0%Z.


(** C5 as the specification states it: the last step returns normally,
    and each of the two files that is present is removed unless its own
    removal fails. *)
Definition cleanup_deletes_both (z e : string) (w : World) : Prop :=
  let r := cleanup z e w in
  fst r = Ok tt
  /\ (is_file (stat w z) = true ->
      stat (snd r) z = None \/ remove_fault w z <> None)
  /\ (is_file (stat w e) = true ->
      stat (snd r) e = None \/ remove_fault w e <> None).

Definition quiet_server : dav_server :=
  {| dav_fault := fun _ => None; dav_dirs := []; dav_files := [];
     dav_incoming := []; dav_mkcol_existing := None |}.

Definition example_clock : datetime :=
  {| year := 2024; month := 5; day := 7; hour := 9; minute := 3; second := 59 |}.

(** [/home/u] holds a directory [data] with two files, one of them in
    a sub-directory, a log file and a file that cannot be read. *)
Definition example_root : node :=
  Dir [("home",
        Dir [("u",
              Dir [("data",
                    Dir [("a.txt", File true (Bytes "hello"));
                         ("sub", Dir [("b.txt", File true (Bytes "bye"))])]);
                   ("notes.log", File true (Bytes "log"));
                   ("secret.key", File false (Bytes "key"))])])].

Definition example_world : World :=
  {| fs := example_root; cwd := ["home"; "u"]; stdout := [];
     clock := example_clock; openssl := ToolWorking;
     remove_fault := fun _ => None; dav := fun _ => quiet_server;
     net_log := []; zf := None |}.

Definition example_server : ServerConfig :=
  {| url := "https://dav.example.org/dav/"; username := "u"; password := "p" |}.

Definition example_config (items : list string) : Config :=
  {| SOURCE_ITEMS := items; WEBDAV_SERVERS := [example_server];
     ENCRYPTION_PASSWORD := "secret" |}.

(** The world of [example_world] with another [openssl] and with the
    removals of [locked] refused. *)
Definition faulty_world (t : tool) (locked : list string) : World :=
  {| fs := example_root; cwd := ["home"; "u"]; stdout := [];
     clock := example_clock; openssl := t;
     remove_fault := fun p => if mem p locked then Some EPERM else None;
     dav := fun _ => quiet_server; net_log := []; zf := None |}.

(** [example_world] just before the last step of a run that archived
    [notes.log]: both temporary files exist. *)
Definition before_cleanup (locked : list string) : World :=
  let w := faulty_world ToolWorking locked in
  snd (upload_stage (example_config ["notes.log"]) w).

(** The world in which the items are added: the archive file has just
    been created (or the world as it is, when it cannot be). *)
Definition archiving_world (archive_name : string) (w : World) : World :=
  snd (ZipFile_open archive_name w).

(** The first line [create_unencrypted_zip] prints. *)
Definition step1_line (archive_name : string) : string :=
  "步骤 1: 正在创建标准ZIP压缩包: " ++ archive_name.

(** The line by which the archiver reports an error. *)
Definition archive_error_line (e : exn) : string :=
  "创建ZIP压缩包时出错: " ++ str_of_exn e.

(** What the archiver prints for an item it has added. *)
Definition report_line (w : World) (item : string) : list string :=
  if is_file (stat w item) then ["  - 已添加文件: " ++ item]
  else if is_dir (stat w item) then ["  - 已添加文件夹: " ++ item]
  else [].

(** The run that took [w] to [w1] printed that it added [item]. *)
Definition reported_added (w w1 : World) (item : string) : Prop :=
  let printed := skipn (length (stdout w)) (stdout w1) in
  In ("  - 已添加文件: " ++ item) printed
  \/ In ("  - 已添加文件夹: " ++ item) printed.

(** C7 as the specification states it, for the archiver: the archive
    file exists and is not empty only if every source item was added;
    and for [main]: after a failed first stage no archive file is left. *)
Definition archive_only_if_complete (cfg : Config) (w : World) : Prop :=
  let z := zip_filename_of (clock w) in
  let w1 := snd (archive_stage cfg w) in
  ((exists rd data,
      stat w1 z = Some (File rd data) /\ blob_is_empty data = false) ->
   forall item, In item (SOURCE_ITEMS cfg) -> reported_added w w1 item)
  /\ (archive_failed cfg w -> stat (snd (main cfg w)) z = None).

(** The two halves of a path that [basename] and [dirname] start from:
    [p[:i]] and [p[i:]] for [i = p.rfind('/') + 1]. *)
Definition head_of (p : string) : string :=
  Str.take (Z.to_nat (Str.rfind_sep p + 1)) p.

Definition tail_of (p : string) : string :=
  Str.drop (Z.to_nat (Str.rfind_sep p + 1)) p.

(** A component without a separator. *)
Definition no_sep (c : string) : Prop := Str.has_sep c = false.

(** The path handed to [normpath] by [abspath]. *)
Definition abs_string (C p : string) : string :=
  if posixpath.isabs p then p else posixpath.join2 C p.

(** The components [normpath] keeps for a path that begins with a
    separator. *)
Definition kept_comps (p : string) : list string :=
  fold_left (posixpath.norm_step 1) (Str.split_sep p) [].

(** Entry names only. *)
Definition names (r : list string) : Prop :=
  Forall (fun c => is_name c = true) r.

(** A component [normpath] keeps: not empty, no separator. *)
Definition clean (c : string) : Prop :=
  Str.is_empty c = false /\ Str.has_sep c = false.

(** The files of a tree in the order in which [os.walk] meets them,
    each by its location relative to the top: the files of a directory
    first, then those of its entries in turn. *)
Fixpoint tree_files (n : node) : list (list string) :=
  match n with
  | File _ _ => []
  | Dir es =>
      (map (fun f => [f]) (filenames_of es)
       ++ (fix below (l : list (string * node)) : list (list string) :=
             match l with
             | [] => []
             | (name, child) :: r =>
                 map (cons name) (tree_files child) ++ below r
             end) es)%list
  end.

(** The content of the file at [loc] under [n]. *)
Definition data_at (n : node) (loc : list string) : blob :=
  match get n loc with
  | Some (File _ d) => d
  | _ => Bytes ""
  end.

(** A tree as a file system holds it: every entry is named by a name,
    and no directory has two entries of one name. *)
Fixpoint wf_node (n : node) : bool :=
  match n with
  | File _ _ => true
  | Dir es =>
      (fix all (l : list (string * node)) : bool :=
         match l with
         | [] => true
         | (name, child) :: r =>
             is_name name && negb (mem name (map fst r))
             && wf_node child && all r
         end) es
  end.

(** The entries written so far to the archive that is open. *)
Definition entries_of (w : World) : list (string * blob) :=
  match zf w with
  | Some z => zf_entries z
  | None => []
  end.

(** Two worlds with the same files and the same working directory. *)
Definition same_files (w0 w : World) : Prop :=
  fs w = fs w0 /\ cwd w = cwd w0.

(** [path] is resolved to the canonical location [loc]. *)
Definition resolves (w : World) (path : string) (loc : list string) : Prop :=
  Str.is_empty path = false
  /\ canon (fs w) (Str.split_sep path) (start_of w path) = Some loc.

(** The entries of a directory tree, each file stored under its
    location below [prefix]. *)
Definition dir_entries (prefix : list string) (n : node)
  : list (string * blob) :=
  map (fun r => (Str.join_sep (prefix ++ r), data_at n r)) (tree_files n).

(** The name a directory has in its parent: the last component of the
    location its path is resolved to (nothing for the root). *)
Definition own_name (w : World) (path : string) : string :=
  match canon (fs w) (Str.split_sep path) (start_of w path) with
  | Some loc => last loc ""
  | None => ""
  end.

(** What the specification has an item contribute to the archive: a
    regular file one entry under its base name; a directory one entry
    for every file of its tree, under the name of the directory
    followed by the location of the file in it; anything else
    nothing. *)
Definition claimed_entries (w : World) (item : string)
  : list (string * blob) :=
  match stat w item with
  | Some (File _ d) => [(posixpath.basename item, d)]
  | Some (Dir es) => dir_entries [own_name w item] (Dir es)
  | None => []
  end.

(** C3 as the specification states it: the archive of a successful
    run holds what the items contribute, item by item, and nothing
    else. *)
Definition stores_under_directory_name (items : list string)
    (archive_name : string) (w : World) : Prop :=
  forall w1,
    create_unencrypted_zip items archive_name w = (Ok true, w1) ->
    stat w1 archive_name
    = Some (File true
              (ZipOf (flat_map (claimed_entries (archiving_world archive_name w))
                        items))).

(** Whether the location [p] is [l] or lies above it. *)
Fixpoint starts (p l : list string) : bool :=
  match p, l with
  | [], _ => true
  | a :: p', b :: l' => String.eqb a b && starts p' l'
  | _ :: _, [] => false
  end.

(** Whether [item] names the archive [name] of the working directory,
    or a directory the archive lies in. *)
Definition holds_archive (w : World) (name item : string) : bool :=
  match location_of w item with
  | Some loc => starts loc (cwd w ++ [name])
  | None => false
  end.

(** The name under which lines 36-39 store the file at [r] below the
    directory [item]: its path relative to [dirname item], as the
    archive writes it. *)
Definition arcname_of (w : World) (item : string) (r : list string) : string :=
  match posixpath.relpath (getcwd w) (posixpath.join item r)
          (posixpath.dirname item) with
  | Some p =>
      match zip_arcname p with
      | Some a => a
      | None => ""
      end
  | None => ""
  end.

(** The entries an item adds to the archive: a regular file one entry
    with its content under its base name; a directory one entry for
    every file of its tree, with the content of the file; anything
    else nothing. *)
Definition added_entries (w : World) (item : string)
  : list (string * blob) :=
  match stat w item with
  | Some (File _ d) => [(posixpath.basename item, d)]
  | Some (Dir es) =>
      map (fun r => (arcname_of w item r, data_at (Dir es) r))
        (tree_files (Dir es))
  | None => []
  end.

(** The directory and the path [upload_to_webdav] asks the server for. *)
Definition full_remote_dir_of (remote_dir : string) : string :=
  "/" ++ Str.strip_sep remote_dir ++ "/".

Definition remote_path_of (local_file remote_dir : string) : string :=
  posixpath.join (full_remote_dir_of remote_dir)
    [posixpath.basename local_file].

(** A string of dots, which the client's paths drop as a component. *)
Fixpoint all_dots (s : string) : bool :=
  match s with
  | EmptyString => true
  | String c r => Ascii.eqb c "." && all_dots r
  end.

(** A remote directory of one component, which lies in the root of the
    server: a name without separator that is not made of dots. *)
Definition plain_component (remote_dir : string) : bool :=
  negb (Str.has_sep remote_dir) && negb (all_dots remote_dir).

(** The line that announces an upload. *)
Definition step3_line (sc : ServerConfig) (local_file : string) : string :=
  nl ++ "步骤 3: 正在上传 " ++ local_file ++ " 到 " ++ url sc ++ "...".

(** The requests sent to the server of [sc], oldest first. *)
Definition requests_to (sc : ServerConfig) (w : World) : list dav_request :=
  map snd (filter (fun r => String.eqb (fst r) (url sc)) (net_log w)).

(** The lines by which [upload_to_webdav] reports what it did. *)
Definition created_line (d : string) : string :=
  "  - 在服务器上创建了目录: " ++ d.

Definition uploaded_line (p : string) : string :=
  "  - 文件成功上传至: " ++ p.

Definition upload_failed_line (e : exn) : string :=
  "  - 上传失败: " ++ str_of_exn e.

(** A server that cannot be reached, and the example world with
    nothing but this server. *)
Definition down_server : dav_server :=
  {| dav_fault := fun _ => Some (WebDavException "No connection");
     dav_dirs := []; dav_files := []; dav_incoming := [];
     dav_mkcol_existing := None |}.

Definition offline_world : World :=
  {| fs := example_root; cwd := ["home"; "u"]; stdout := [];
     clock := example_clock; openssl := ToolWorking;
     remove_fault := fun _ => None; dav := fun _ => down_server;
     net_log := []; zf := None |}.

(** Every file of the tree can be read. *)
Fixpoint readable_tree (n : node) : bool :=
  match n with
  | File rd _ => rd
  | Dir es =>
      (fix all (l : list (string * node)) : bool :=
         match l with
         | [] => true
         | (_, child) :: r => readable_tree child && all r
         end) es
  end.

(** An item the archiver can add without an error: a regular file
    that can be read; a directory in which every file can be read and
    which is given with a trailing separator or by a path whose last
    component is a name; or a path that names nothing. *)
Definition archivable (w : World) (item : string) : Prop :=
  match stat w item with
  | Some (File rd _) => rd = true
  | Some (Dir es) =>
      readable_tree (Dir es) = true
      /\ (Str.endswith_sep item = true
          \/ is_name (posixpath.basename item) = true)
  | None => True
  end.

(** The entries an item is stored as: a file under its base name, the
    files of a directory under their location in it, after the base
    name of the directory unless it is given with a trailing
    separator. *)
Definition stored_entries (w : World) (item : string)
  : list (string * blob) :=
  match stat w item with
  | Some (File _ d) => [(posixpath.basename item, d)]
  | Some (Dir es) =>
      dir_entries
        (if Str.endswith_sep item then [] else [posixpath.basename item])
        (Dir es)
  | None => []
  end.

(** A server after some calls: it fails and reports as before, and its
    files are those it had, followed by new ones. *)
Definition server_grows (s s' : dav_server) : Prop :=
  dav_fault s' = dav_fault s
  /\ dav_mkcol_existing s' = dav_mkcol_existing s
  /\ exists l, dav_files s' = (dav_files s ++ l)%list.

(** An action of the script under which every server grows. *)
Definition grows {A : Type} (m : M A) : Prop :=
  forall w u, server_grows (dav w u) (dav (snd (m w)) u).

(* ================================================================== *)
(** * The path functions on examples *)
(* ================================================================== *)

Module PathTests.
Import Str posixpath.

Example basename_file : basename "/var/log/app.log" = "app.log".
Proof. reflexivity. Qed.

Example dirname_plain : dirname "/srv/data" = "/srv".
Proof. reflexivity. Qed.

Example dirname_slash : dirname "/srv/data/" = "/srv/data".
Proof. reflexivity. Qed.

Example dirname_bare : dirname "data" = "".
Proof. reflexivity. Qed.

Example normpath_dots : normpath "/a/./b/../c//d/" = "/a/c/d".
Proof. reflexivity. Qed.

Example normpath_two_slashes : normpath "//a/../../b" = "//b".
Proof. reflexivity. Qed.

Example normpath_rel_up : normpath "a/../../b" = "../b".
Proof. reflexivity. Qed.

Example relpath_parent :
  relpath "/home/u" "/srv/data/sub/f.txt" "/srv" = Some "data/sub/f.txt".
Proof. reflexivity. Qed.

Example relpath_cwd_start :
  relpath "/home/u" "data/sub/f.txt" "" = Some "data/sub/f.txt".
Proof. reflexivity. Qed.

Example relpath_up :
  relpath "/home/u" "/srv/f" "/srv/data/x" = Some "../../f".
Proof. reflexivity. Qed.

End PathTests.

(* ================================================================== *)
(** * Reasoning about the monad *)
(* ================================================================== *)

Lemma keeps_ret {A X : Type} (proj : World -> X) (a : A) :
  keeps proj (ret a).
Proof. intro w. reflexivity. Qed.

Lemma keeps_raise {A X : Type} (proj : World -> X) (e : exn) :
  keeps proj (@raise A e).
Proof. intro w. reflexivity. Qed.

Lemma keeps_bind {A B X : Type} (proj : World -> X) (m : M A) (k : A -> M B) :
  keeps proj m -> (forall a, keeps proj (k a)) -> keeps proj (bind m k).
Proof.
  intros Hm Hk w. unfold bind. specialize (Hm w).
  destruct (m w) as [[a|e] w1]; simpl in *.
  - rewrite Hk. exact Hm.
  - exact Hm.
Qed.

Lemma keeps_try_except {A X : Type} (proj : World -> X) (m : M A)
    (clauses : list (clause A)) :
  keeps proj m ->
  (forall c e, In c clauses -> keeps proj (snd c e)) ->
  keeps proj (try_except m clauses).
Proof.
  intros Hm Hc w. unfold try_except. specialize (Hm w).
  destruct (m w) as [[a|e] w1]; simpl in *; [exact Hm|].
  assert (Hsel : forall h, select_clause e clauses = Some h ->
                           keeps proj (h e)).
  { clear Hm. induction clauses as [|[c h] r IH]; simpl; [discriminate|].
    intros h'. destruct (c e).
    - intros [= <-]. apply (Hc (c, h) e). now left.
    - apply IH. intros c' e' Hin. apply Hc. now right. }
  destruct (select_clause e clauses) as [h|] eqn:E; simpl.
  - rewrite (Hsel h eq_refl). exact Hm.
  - exact Hm.
Qed.

Lemma keeps_try_finally {A X : Type} (proj : World -> X) (m : M A)
    (f : M unit) :
  keeps proj m -> keeps proj f -> keeps proj (try_finally m f).
Proof.
  intros Hm Hf w. unfold try_finally. specialize (Hm w).
  destruct (m w) as [r w1]. specialize (Hf w1).
  destruct (f w1) as [[u|e] w2]; simpl in *; congruence.
Qed.

Lemma keeps_for_each {A X : Type} (proj : World -> X) (l : list A)
    (body : A -> M unit) :
  (forall a, keeps proj (body a)) -> keeps proj (for_each l body).
Proof.
  intro Hb. induction l as [|x r IH]; simpl.
  - apply keeps_ret.
  - apply keeps_bind; auto.
Qed.

(** Decomposes a frame goal along the structure of the program. *)
Ltac keeps_step :=
  match goal with
  | |- keeps _ (bind _ _) => apply keeps_bind
  | |- keeps _ (ret _) => apply keeps_ret
  | |- keeps _ (raise _) => apply keeps_raise
  | |- keeps _ (try_except _ _) => apply keeps_try_except
  | |- keeps _ (try_finally _ _) => apply keeps_try_finally
  | |- keeps _ (for_each _ _) => apply keeps_for_each
  | |- keeps _ (if ?b then _ else _) => destruct b
  | |- keeps _ (match ?x with (_, _) => _ end) => destruct x
  | |- forall _, _ => intro
  | H : In _ (_ :: _) |- _ => destruct H as [<-|H]; simpl
  | H : In _ [] |- _ => destruct H
  end.

(** A primitive keeps a component when it does so by computation. *)
Ltac keeps_prim :=
  let w := fresh "w" in
  intro w; cbv beta delta [bind ret raise print os_path_exists os_path_isfile os_path_isdir
    os_path_relpath os_remove os_walk ZipFile_open ZipFile_close zf_add
    zf_write openssl_enc dav_call client_check client_mkdir client_upload
    datetime_now]; simpl;
  repeat match goal with
  | |- context [match ?x with _ => _ end] => destruct x; simpl
  end; reflexivity.

Local Arguments String.append : simpl never.

(* ================================================================== *)
(** * The encryption stage *)
(* ================================================================== *)

Lemma openssl_enc_stdout (i o pw : string) (w : World) (l : list string) :
  openssl_enc i o pw (set_stdout w l)
  = (fst (openssl_enc i o pw w), set_stdout (snd (openssl_enc i o pw w)) l).
Proof.
  unfold openssl_enc. simpl.
  destruct (openssl w); try reflexivity.
  change (stat (set_stdout w l) i) with (stat w i).
  destruct (stat w i) as [[[|] d|es]|]; try reflexivity.
  change (locate (set_stdout w l) o) with (locate w o).
  destruct (locate w o) as [loc|]; try reflexivity.
  destruct (is_dir (get (fs w) loc)); reflexivity.
Qed.

Lemma openssl_enc_stdout_same (i o pw : string) (w : World) :
  stdout (snd (openssl_enc i o pw w)) = stdout w.
Proof.
  unfold openssl_enc.
  destruct (openssl w); try reflexivity.
  destruct (stat w i) as [[[|] d|es]|]; try reflexivity.
  destruct (locate w o) as [loc|]; try reflexivity.
  destruct (is_dir (get (fs w) loc)); reflexivity.
Qed.

(** The exceptions the tool model can raise. *)
Lemma openssl_enc_raises (i o pw : string) (w : World) (e : exn) :
  fst (openssl_enc i o pw w) = Raise e ->
  (openssl w = ToolMissing /\ e = FileNotFoundError "openssl")
  \/ (openssl w = ToolNotExecutable /\ e = PermissionError "openssl").
Proof.
  unfold openssl_enc.
  destruct (openssl w); simpl.
  - intros [= <-]. now left.
  - intros [= <-]. now right.
  - discriminate.
  - destruct (stat w i) as [[[|] d|es]|]; try discriminate.
    destruct (locate w o) as [loc|]; try discriminate.
    destruct (is_dir (get (fs w) loc)); discriminate.
Qed.

(** The three ways [encrypt_with_openssl] ends, by what happened to the
    tool. *)
Lemma encrypt_with_openssl_cases (i o pw : string) (w : World) :
  let r := encrypt_with_openssl i o pw w in
  match openssl_enc i o pw w with
  | (Ok (rc, err), w1) =>
      if (rc =? 0)%Z
      then r = (Ok true,
                set_stdout w1 (stdout w ++ [step2_line o; "文件已成功通过OpenSSL加密。"]))
      else r = (Ok false,
                set_stdout w1 (stdout w ++ cipher_failed_report o rc err))
  | (Raise (FileNotFoundError _), w1) =>
      r = (Ok false, set_stdout w1 (stdout w ++ tool_unavailable_report o))
  | (Raise e, w1) =>
      r = (Raise e, set_stdout w1 (stdout w ++ [step2_line o]))
  end.
Proof.
  intro r. subst r.
  unfold encrypt_with_openssl, subprocess_run_check, try_except, bind, print.
  cbn [strings_eqb]. rewrite !String.eqb_refl. cbn [andb].
  cbv beta iota. rewrite openssl_enc_stdout.
  pose proof (openssl_enc_stdout_same i o pw w) as Hs.
  pose proof (openssl_enc_raises i o pw w) as Hr.
  destruct (openssl_enc i o pw w) as [[[rc err]|e] w1];
    cbn [fst snd] in *.
  - destruct (rc =? 0)%Z; unfold ret, raise;
      cbn [select_clause is_FileNotFoundError is_CalledProcessError
           returncode_of stderr_of stdout set_stdout];
      unfold cipher_failed_report, step2_line;
      rewrite <- ?app_assoc; reflexivity.
  - destruct (Hr e eq_refl) as [[_ ->]|[_ ->]]; unfold ret;
      cbn [select_clause is_FileNotFoundError is_CalledProcessError
           stdout set_stdout];
      unfold tool_unavailable_report, step2_line;
      rewrite <- ?app_assoc; reflexivity.
Qed.

(** C6.  [encrypt_with_openssl] reports the tool as unavailable exactly
    when the [openssl] program is missing, and reports a failed cipher,
    with the return code and the standard error of the process, exactly
    when the program ran and exited with a non-zero code; in both cases
    it returns [False] and raises nothing. *)
Theorem encrypt_with_openssl_errors (input_file output_file password : string)
    (w : World) :
  let r := encrypt_with_openssl input_file output_file password w in
  (openssl w = ToolMissing
   <-> fst r = Ok false
       /\ stdout (snd r) = (stdout w ++ tool_unavailable_report output_file)%list)
  /\ ((exists rc err,
         cipher_exit input_file output_file password w = Some (rc, err)
         /\ rc <> 0%Z)
      <-> fst r = Ok false
          /\ exists rc err,
               stdout (snd r)
               = (stdout w ++ cipher_failed_report output_file rc err)%list)
  /\ (forall rc err,
        cipher_exit input_file output_file password w = Some (rc, err) ->
        rc <> 0%Z ->
        fst r = Ok false
        /\ stdout (snd r)
           = (stdout w ++ cipher_failed_report output_file rc err)%list).
Proof.
  intro r.
  pose proof (encrypt_with_openssl_cases input_file output_file password w) as H.
  fold r in H. unfold cipher_exit.
  pose proof (openssl_enc_raises input_file output_file password w) as Hr.
  assert (Hm : openssl w = ToolMissing ->
               fst (openssl_enc input_file output_file password w)
               = Raise (FileNotFoundError "openssl")).
  { intro E. unfold openssl_enc. rewrite E. reflexivity. }
  assert (Hlen : forall l1 l2 : list string,
             (stdout w ++ l1 = stdout w ++ l2)%list -> length l1 = length l2).
  { intros l1 l2 E. apply app_inv_head in E. now subst. }
  destruct (openssl_enc input_file output_file password w)
    as [[[rc err]|e] w1]; cbn [fst snd] in *.
  - destruct (rc =? 0)%Z eqn:Erc; rewrite H; cbn [fst snd stdout set_stdout].
    + apply Z.eqb_eq in Erc.
      split; [|split].
      * split; [intro E; specialize (Hm E); discriminate|intros [? _]; discriminate].
      * split; [intros (rc' & err' & [= <- <-] & Hne); contradiction
               |intros [? _]; discriminate].
      * intros rc' err' [= <- <-] Hne. contradiction.
    + apply Z.eqb_neq in Erc.
      split; [|split].
      * split; [intro E; specialize (Hm E); discriminate
               |intros [_ E]; apply Hlen in E; discriminate].
      * split; [intros _; split; [reflexivity|exists rc, err; reflexivity]
               |intros _; exists rc, err; split; [reflexivity|exact Erc]].
      * intros rc' err' [= <- <-] _. split; reflexivity.
  - destruct (Hr e eq_refl) as [[Et ->]|[Et ->]]; rewrite H;
      cbn [fst snd stdout set_stdout].
    + split; [|split].
      * split; [intros _; split; reflexivity|intros _; exact Et].
      * split; [intros (rc & err & E & _); discriminate
               |intros (_ & rc & err & E); apply Hlen in E; discriminate].
      * intros rc err E. discriminate.
    + split; [|split].
      * split; [rewrite Et; discriminate|intros [? _]; discriminate].
      * split; [intros (rc & err & E & _); discriminate
               |intros [? _]; discriminate].
      * intros rc err E. discriminate.
Qed.

(* ================================================================== *)
(** * The upload stage *)
(* ================================================================== *)

Lemma dav_set_dav (w : World) (u : string) (s : dav_server) :
  dav (set_dav w u s) u = s.
Proof. simpl. now rewrite String.eqb_refl. Qed.

(** [m] extends the component [proj] by [f] and what follows leaves it
    alone. *)
Lemma bind_extends {A B X : Type} (proj : World -> X) (f : X -> X)
    (m : M A) (k : A -> M B) :
  (forall w, proj (snd (m w)) = f (proj w)) ->
  (forall a, keeps proj (k a)) ->
  forall w, proj (snd (bind m k w)) = f (proj w).
Proof.
  intros Hm Hk w. unfold bind. specialize (Hm w).
  destruct (m w) as [[a|e] w1]; simpl in *; [rewrite Hk|]; exact Hm.
Qed.

Lemma client_check_attempts (c : Client) (d : string) (w : World) :
  attempts (snd (client_check c d w))
  = (attempts w ++ [webdav_hostname c])%list.
Proof.
  unfold client_check, dav_call, bind, attempts. simpl.
  destruct (dav_fault (dav w (webdav_hostname c)) OpExists); simpl;
    rewrite filter_app, map_app; reflexivity.
Qed.

Lemma client_mkdir_attempts (c : Client) (d : string) :
  keeps attempts (client_mkdir c d).
Proof.
  intro w. unfold client_mkdir, dav_call, bind, attempts. simpl.
  destruct (dav_fault (dav w (webdav_hostname c)) OpExists); simpl;
    [|destruct (negb (dav_has _ _)); simpl;
      [|destruct (dav_fault (dav w (webdav_hostname c)) OpMkcol); simpl;
        [|destruct (mem d _); [destruct (dav_mkcol_existing _)|]]]];
    simpl; rewrite filter_app, map_app; simpl; apply app_nil_r.
Qed.

Lemma client_upload_attempts (c : Client) (p f : string) :
  keeps attempts (client_upload c p f).
Proof.
  intro w. unfold client_upload, dav_call, bind, attempts. simpl.
  destruct (dav_fault (dav w (webdav_hostname c)) OpPut); simpl.
  - rewrite filter_app, map_app; simpl; apply app_nil_r.
  - change (stat (set_net_log w _) f) with (stat w f).
    destruct (stat w f) as [[[|] data|es]|]; simpl;
      [destruct (dav_has _ _)| | |]; simpl;
      rewrite filter_app, map_app; simpl; apply app_nil_r.
Qed.

Lemma print_attempts (s : string) : keeps attempts (print s).
Proof. intro w. reflexivity. Qed.

Lemma ensure_remote_dir_attempts (c : Client) (d : string) (w : World) :
  attempts (snd (ensure_remote_dir c d w))
  = (attempts w ++ [webdav_hostname c])%list.
Proof.
  unfold ensure_remote_dir.
  apply (bind_extends (proj := attempts) (fun l => l ++ [webdav_hostname c])%list).
  - apply client_check_attempts.
  - intros [|]; simpl.
    + apply keeps_ret.
    + apply keeps_bind; [apply client_mkdir_attempts|].
      intros _. apply print_attempts.
Qed.

(** [upload_to_webdav] always returns: whatever the client raises is
    caught and reported.  It makes exactly one attempt. *)
Lemma upload_to_webdav_returns (sc : ServerConfig) (f d : string) (w : World) :
  fst (upload_to_webdav sc f d w) = Ok tt
  /\ attempts (snd (upload_to_webdav sc f d w)) = (attempts w ++ [url sc])%list.
Proof.
  unfold upload_to_webdav.
  set (c := {| webdav_hostname := url sc; webdav_login := username sc;
               webdav_password := password sc |}).
  set (dir := "/" ++ Str.strip_sep d ++ "/").
  set (body := ensure_remote_dir c dir ;; _).
  assert (Hb : forall w0, attempts (snd (body w0)) = (attempts w0 ++ [url sc])%list).
  { unfold body.
    apply (bind_extends (proj := attempts) (fun l => l ++ [url sc])%list).
    - apply (ensure_remote_dir_attempts c).
    - intros _. apply keeps_bind; [apply client_upload_attempts|].
      intros _. apply print_attempts. }
  unfold bind, print, try_except.
  match goal with |- context [body ?w0] => specialize (Hb w0) end.
  destruct (body _) as [[[]|e] w1]; cbn [select_clause any_Exception fst snd] in *.
  - split; [reflexivity|exact Hb].
  - split; [reflexivity|exact Hb].
Qed.

Lemma upload_to_webdav_keeps {X : Type} (proj : World -> X)
    (sc : ServerConfig) (f d : string) :
  (forall w l, proj (set_stdout w l) = proj w) ->
  (forall w l, proj (set_net_log w l) = proj w) ->
  (forall w u s, proj (set_dav w u s) = proj w) ->
  keeps proj (upload_to_webdav sc f d).
Proof.
  intros Hout Hlog Hdav.
  assert (Hprint : forall s, keeps proj (print s)).
  { intros s w. apply Hout. }
  unfold upload_to_webdav, ensure_remote_dir.
  repeat keeps_step; try apply Hprint;
    intro w; unfold client_check, client_mkdir, client_upload, dav_call, bind;
    cbn [fst snd].
  - destruct (dav_fault _ _); cbn [snd]; rewrite ?Hdav, ?Hlog; reflexivity.
  - destruct (dav_fault _ OpExists); cbn [snd];
      [|destruct (negb (dav_has _ _)); cbn [snd];
        [|destruct (dav_fault _ OpMkcol); cbn [snd];
          [|destruct (mem _ _); [destruct (dav_mkcol_existing _)|]]]];
      cbn [snd]; rewrite ?Hdav, ?Hlog; reflexivity.
  - destruct (dav_fault _ _); cbn [snd]; [rewrite ?Hlog; reflexivity|].
    destruct (stat _ _) as [[[|] data|es]|]; [destruct (dav_has _ _)| | |];
      cbn [snd]; rewrite ?Hdav, ?Hlog; reflexivity.
Qed.

(** The loop over the destinations returns and attempts each of them,
    in the order of the list. *)
Lemma uploads_attempt_all (servers : list ServerConfig) (f d : string)
    (w : World) :
  fst (for_each servers (fun server => upload_to_webdav server f d) w) = Ok tt
  /\ attempts (snd (for_each servers (fun server => upload_to_webdav server f d) w))
     = (attempts w ++ map url servers)%list.
Proof.
  revert w. induction servers as [|sc r IH]; intro w; simpl.
  - split; [reflexivity|]. now rewrite app_nil_r.
  - unfold bind.
    destruct (upload_to_webdav_returns sc f d w) as [Hr Ha].
    destruct (upload_to_webdav sc f d w) as [[[]|e] w1]; simpl in *;
      [|discriminate].
    destruct (IH w1) as [Hr' Ha']. split; [exact Hr'|].
    rewrite Ha', Ha, <- app_assoc. reflexivity.
Qed.

Local Arguments mem : simpl never.

Lemma mem_app (d : string) (l1 l2 : list string) :
  mem d (l1 ++ l2)%list = mem d l1 || mem d l2.
Proof. unfold mem. apply existsb_app. Qed.

Lemma mem_last (d : string) (l : list string) : mem d (l ++ [d])%list = true.
Proof.
  rewrite mem_app. unfold mem at 2. simpl. rewrite String.eqb_refl.
  now rewrite orb_true_r.
Qed.

Lemma prefix_refl (s : string) : String.prefix s s = true.
Proof.
  induction s as [|c s IH]; [reflexivity|]. cbn [String.prefix].
  destruct (Ascii.ascii_dec c c); [exact IH|congruence].
Qed.

Lemma prefix_trans (a b c : string) :
  String.prefix a b = true -> String.prefix b c = true ->
  String.prefix a c = true.
Proof.
  revert b c. induction a as [|x a IH]; intros [|y b] [|z c];
    cbn [String.prefix]; try (intros; congruence).
  destruct (Ascii.ascii_dec x y); [subst y|discriminate].
  destruct (Ascii.ascii_dec x z); [|intros _; destruct (Ascii.ascii_dec x z); congruence].
  apply IH.
Qed.

Lemma prefix_take (n : nat) (s : string) :
  String.prefix (Str.take n s) s = true.
Proof.
  revert s. induction n as [|n IH]; intros [|c s]; try reflexivity.
  cbn [Str.take String.prefix].
  destruct (Ascii.ascii_dec c c); [apply IH|congruence].
Qed.

Lemma prefix_rstrip (s : string) : String.prefix (Str.rstrip_sep s) s = true.
Proof.
  induction s as [|c s IH]; [reflexivity|]. cbn [Str.rstrip_sep].
  destruct (Str.rstrip_sep s) as [|c' r] eqn:E.
  - destruct (Str.is_sep c); [reflexivity|]. cbn [String.prefix].
    now destruct (Ascii.ascii_dec c c).
  - cbn [String.prefix] in *.
    destruct (Ascii.ascii_dec c c); [exact IH|congruence].
Qed.

(** A collection that is listed has its parent. *)
Lemma dav_has_parent (s : dav_server) (d : string) :
  mem d (dav_dirs s) = true -> dav_has s (dir_parent d) = true.
Proof.
  intro H. unfold dav_has. apply orb_true_iff. right.
  unfold mem in H. apply existsb_exists in H. destruct H as (x & Hx & E).
  apply String.eqb_eq in E. subst x.
  apply existsb_exists. exists d. split; [exact Hx|].
  unfold dir_parent, dav_parent.
  exact (prefix_trans _ _ _ (prefix_take _ _) (prefix_rstrip d)).
Qed.

(** A collection that is listed is there. *)
Lemma dav_has_listed (s : dav_server) (d : string) :
  mem d (dav_dirs s) = true -> dav_has s d = true.
Proof.
  intro H. unfold dav_has. apply orb_true_iff. right.
  unfold mem in H. apply existsb_exists in H. destruct H as (x & Hx & E).
  apply String.eqb_eq in E. subst x.
  apply existsb_exists. exists d. split; [exact Hx|apply prefix_refl].
Qed.

Lemma client_check_ok (c : Client) (d : string) (w w1 : World) (b : bool) :
  client_check c d w = (Ok b, w1) ->
  let s := dav w (webdav_hostname c) in
  let s1 := dav w1 (webdav_hostname c) in
  b = mem d (dav_dirs s)
  /\ dav_fault s OpExists = None
  /\ dav_fault s1 = dav_fault s
  /\ dav_dirs s1 = (dav_dirs s ++ dav_incoming s)%list
  /\ dav_incoming s1 = []
  /\ dav_mkcol_existing s1 = dav_mkcol_existing s
  /\ net_log w1 = (net_log w ++ [(webdav_hostname c, DavExists d)])%list.
Proof.
  unfold client_check, dav_call, bind. cbn [dav set_net_log].
  destruct (dav_fault (dav w (webdav_hostname c)) OpExists) eqn:Ef;
    [discriminate|].
  intros [= <- <-]. cbn. rewrite String.eqb_refl. cbn. auto 10.
Qed.

Lemma client_mkdir_ok (c : Client) (d : string) (w w1 : World) :
  client_mkdir c d w = (Ok tt, w1) ->
  let s := dav w (webdav_hostname c) in
  let s1 := dav w1 (webdav_hostname c) in
  mem d (dav_dirs s1) = true
  /\ dav_fault s1 = dav_fault s
  /\ dav_incoming s1 = dav_incoming s.
Proof.
  unfold client_mkdir, dav_call, bind. cbn [dav set_net_log].
  destruct (dav_fault (dav w (webdav_hostname c)) OpExists); [discriminate|].
  destruct (negb (dav_has _ _)); [discriminate|].
  destruct (dav_fault (dav w (webdav_hostname c)) OpMkcol); [discriminate|].
  destruct (mem d (dav_dirs (dav w (webdav_hostname c)))) eqn:Em.
  - destruct (dav_mkcol_existing _); [discriminate|].
    intros [= <-]. cbn. auto.
  - intros [= <-]. cbn. rewrite String.eqb_refl. cbn.
    rewrite mem_last. auto.
Qed.

Lemma ensure_remote_dir_settles (c : Client) (d : string) (w w1 : World) :
  ensure_remote_dir c d w = (Ok tt, w1) -> settled c d w1.
Proof.
  unfold ensure_remote_dir, bind at 1.
  destruct (client_check c d w) as [[b|e] w0] eqn:Ec; [|discriminate].
  apply client_check_ok in Ec.
  destruct Ec as (Eb & Ef & Ef1 & Ed1 & Ei1 & _ & _).
  destruct b; cbn [negb].
  - intros [= <-]. unfold settled. cbn zeta.
    rewrite Ef1, Ed1, mem_app, <- Eb. auto.
  - unfold bind, print.
    destruct (client_mkdir c d w0) as [[[]|e] w0'] eqn:Ek; [|discriminate].
    apply client_mkdir_ok in Ek. destruct Ek as (Em & Ef2 & Ei2).
    intros [= <-]. unfold settled. cbn [dav set_stdout].
    rewrite Ef2, Ef1, Ei2. auto.
Qed.

Lemma ensure_remote_dir_settled (c : Client) (d : string) (w1 : World) :
  settled c d w1 ->
  exists w2,
    ensure_remote_dir c d w1 = (Ok tt, w2)
    /\ net_log w2 = (net_log w1 ++ [(webdav_hostname c, DavExists d)])%list
    /\ dav_dirs (dav w2 (webdav_hostname c))
       = dav_dirs (dav w1 (webdav_hostname c)).
Proof.
  intros (Ef & Em & Ei).
  unfold ensure_remote_dir, client_check, dav_call, bind.
  cbn [dav set_net_log]. rewrite Ef, Em. cbn [negb ret].
  eexists. split; [reflexivity|]. cbn. rewrite String.eqb_refl. cbn.
  rewrite Ei, app_nil_r. auto.
Qed.

(** C9.  Ensuring the remote directory (lines 84-86) is idempotent: a
    second call after a successful one does not fail, sends only the
    existence check and creates nothing.  When the directory appears
    between the check and the creation request, the outcome of the
    step is the client's report for a collection that exists (success
    for a client that accepts it); and a failure of the step never
    leaves [upload_to_webdav], which returns normally. *)
Theorem ensure_remote_dir_idempotent (c : Client) (d : string) (w : World) :
  (forall w1,
     ensure_remote_dir c d w = (Ok tt, w1) ->
     exists w2,
       ensure_remote_dir c d w1 = (Ok tt, w2)
       /\ net_log w2 = (net_log w1 ++ [(webdav_hostname c, DavExists d)])%list
       /\ dav_dirs (dav w2 (webdav_hostname c))
          = dav_dirs (dav w1 (webdav_hostname c)))
  /\ (dav_fault (dav w (webdav_hostname c)) OpExists = None ->
      dav_fault (dav w (webdav_hostname c)) OpMkcol = None ->
      mem d (dav_dirs (dav w (webdav_hostname c))) = false ->
      mem d (dav_incoming (dav w (webdav_hostname c))) = true ->
      fst (ensure_remote_dir c d w)
      = match dav_mkcol_existing (dav w (webdav_hostname c)) with
        | None => Ok tt
        | Some e => Raise e
        end)
  /\ (forall sc local_file remote_dir,
        fst (upload_to_webdav sc local_file remote_dir w) = Ok tt).
Proof.
  split; [|split].
  - intros w1 H. apply ensure_remote_dir_settled.
    eapply ensure_remote_dir_settles; eassumption.
  - intros Ef Ek Em Ei.
    unfold ensure_remote_dir, client_check, client_mkdir, dav_call, bind, print.
    cbn [dav set_net_log]. rewrite Ef, Em. cbn [negb].
    cbn [dav set_dav set_net_log]. rewrite String.eqb_refl.
    cbn [dav_fault dav_dirs dav_mkcol_existing].
    assert (Hp : dav_has
                   {| dav_fault := dav_fault (dav w (webdav_hostname c));
                      dav_dirs := (dav_dirs (dav w (webdav_hostname c))
                                   ++ dav_incoming (dav w (webdav_hostname c)))%list;
                      dav_files := dav_files (dav w (webdav_hostname c));
                      dav_incoming := [];
                      dav_mkcol_existing :=
                        dav_mkcol_existing (dav w (webdav_hostname c)) |}
                   (dir_parent d) = true).
    { apply dav_has_parent. cbn [dav_dirs]. now rewrite mem_app, Ei, orb_true_r. }
    rewrite Ef, Hp. cbn [negb].
    rewrite Ek, mem_app, Em, Ei. cbn [orb].
    destruct (dav_mkcol_existing (dav w (webdav_hostname c))); reflexivity.
  - intros sc f rd. apply upload_to_webdav_returns.
Qed.

(* ================================================================== *)
(** * The file-system tree *)
(* ================================================================== *)

Lemma has_sep_split (s : string) :
  Str.has_sep s = false -> Str.split_sep s = [s].
Proof.
  induction s as [|c r IH]; simpl; [reflexivity|].
  destruct (Str.is_sep c); simpl; [discriminate|].
  intro H. now rewrite (IH H).
Qed.

Lemma has_sep_startswith (s : string) :
  Str.has_sep s = false -> Str.startswith_sep s = false.
Proof.
  destruct s as [|c r]; simpl; [reflexivity|].
  destruct (Str.is_sep c); [discriminate|reflexivity].
Qed.

Lemma is_name_inv (n : string) :
  is_name n = true ->
  Str.is_empty n = false /\ Str.has_sep n = false
  /\ String.eqb n "." = false /\ String.eqb n ".." = false.
Proof.
  unfold is_name. rewrite !andb_true_iff, !negb_true_iff. tauto.
Qed.

Lemma is_name_not_empty_eqb (n : string) :
  is_name n = true -> String.eqb n "" = false.
Proof.
  intro H. apply is_name_inv in H. destruct H as (H & _).
  destruct n; [discriminate|reflexivity].
Qed.

Lemma lookup_set_entry_same (n : string) (v : option node)
    (es : list (string * node)) :
  lookup n (set_entry n v es) = v.
Proof.
  induction es as [|[m x] r IH]; simpl.
  - destruct v; simpl; [now rewrite String.eqb_refl|reflexivity].
  - destruct (String.eqb m n) eqn:E.
    + destruct v; simpl; [now rewrite E|exact IH].
    + simpl. now rewrite E.
Qed.

Lemma lookup_set_entry_other (n m : string) (v : option node)
    (es : list (string * node)) :
  n <> m -> lookup m (set_entry n v es) = lookup m es.
Proof.
  intro Hne. induction es as [|[k x] r IH]; simpl.
  - destruct v; simpl; [|reflexivity].
    destruct (String.eqb n m) eqn:E; [|reflexivity].
    apply String.eqb_eq in E. contradiction.
  - destruct (String.eqb k n) eqn:E.
    + apply String.eqb_eq in E. subst k.
      assert (En : String.eqb n m = false) by now apply String.eqb_neq.
      destruct v; simpl; rewrite En; [reflexivity|exact IH].
    + simpl. destruct (String.eqb k m); [reflexivity|exact IH].
Qed.

Lemma lookup_map_entry (c m : string) (f : node -> node)
    (es : list (string * node)) :
  lookup m (map_entry c f es)
  = if String.eqb c m then option_map f (lookup m es) else lookup m es.
Proof.
  induction es as [|[k x] r IH]; simpl.
  - now destruct (String.eqb c m).
  - destruct (String.eqb k c) eqn:E; simpl.
    + apply String.eqb_eq in E. subst k.
      destruct (String.eqb c m); reflexivity.
    + destruct (String.eqb k m) eqn:E'; [|exact IH].
      apply String.eqb_eq in E'. subst k. now rewrite String.eqb_sym, E.
Qed.

Lemma set_at_cons (c : string) (rest : list string) (v : option node)
    (es : list (string * node)) :
  rest <> [] ->
  set_at (c :: rest) v (Dir es) = Dir (map_entry c (set_at rest v) es).
Proof. destruct rest; [congruence|reflexivity]. Qed.

Lemma app_one_not_nil {A : Type} (p : list A) (n : A) : (p ++ [n])%list <> [].
Proof. destruct p; discriminate. Qed.

(** Reading back what was written at a location whose parent is a
    directory. *)
Lemma get_set_at_same (p : list string) (n : string) (v : option node)
    (root : node) :
  is_dir (get root p) = true ->
  get (set_at (p ++ [n]) v root) (p ++ [n])%list = v.
Proof.
  revert root. induction p as [|c p IH]; intros root Hd.
  - destruct root as [r d|es]; [discriminate|]. simpl.
    rewrite lookup_set_entry_same. now destruct v.
  - destruct root as [r d|es]; [discriminate|].
    change ((c :: p) ++ [n])%list with (c :: (p ++ [n]))%list.
    rewrite set_at_cons by apply app_one_not_nil.
    simpl in Hd |- *. rewrite lookup_map_entry, String.eqb_refl.
    destruct (lookup c es) as [m|]; [|discriminate]. simpl.
    now apply IH.
Qed.

(** Removing an entry: it is gone, whatever the tree. *)
Lemma get_set_at_none (p : list string) (n : string) (root : node) :
  get (set_at (p ++ [n]) None root) (p ++ [n])%list = None.
Proof.
  revert root. induction p as [|c p IH]; intros root.
  - destruct root as [r d|es]; [reflexivity|]. simpl.
    now rewrite lookup_set_entry_same.
  - destruct root as [r d|es]; [now destruct p|].
    change ((c :: p) ++ [n])%list with (c :: (p ++ [n]))%list.
    rewrite set_at_cons by apply app_one_not_nil.
    simpl. rewrite lookup_map_entry, String.eqb_refl.
    destruct (lookup c es) as [m|]; [|reflexivity]. simpl. apply IH.
Qed.

(** The other entries of the directory are untouched. *)
Lemma get_set_at_sibling (p : list string) (n m : string) (v : option node)
    (root : node) :
  n <> m ->
  get (set_at (p ++ [n]) v root) (p ++ [m])%list = get root (p ++ [m])%list.
Proof.
  intro Hne. revert root. induction p as [|c p IH]; intros root.
  - destruct root as [r d|es]; [reflexivity|]. simpl.
    now rewrite lookup_set_entry_other.
  - destruct root as [r d|es]; [now destruct p|].
    change ((c :: p) ++ [n])%list with (c :: (p ++ [n]))%list.
    rewrite set_at_cons by apply app_one_not_nil.
    simpl. rewrite lookup_map_entry, String.eqb_refl.
    destruct (lookup c es) as [k|]; [|reflexivity]. simpl. apply IH.
Qed.

(** The directory itself stays a directory. *)
Lemma is_dir_get_set_at (p : list string) (n : string) (v : option node)
    (root : node) :
  is_dir (get (set_at (p ++ [n]) v root) p) = is_dir (get root p).
Proof.
  revert root. induction p as [|c p IH]; intros root.
  - destruct root as [r d|es]; reflexivity.
  - destruct root as [r d|es]; [now destruct p|].
    change ((c :: p) ++ [n])%list with (c :: (p ++ [n]))%list.
    rewrite set_at_cons by apply app_one_not_nil.
    simpl. rewrite lookup_map_entry, String.eqb_refl.
    destruct (lookup c es) as [k|]; [|reflexivity]. simpl. apply IH.
Qed.

(** ** Plain names in the working directory *)

Lemma stat_name (w : World) (n : string) :
  is_name n = true ->
  stat w n
  = if is_dir (get (fs w) (cwd w)) then get (fs w) (cwd w ++ [n])%list
    else None.
Proof.
  intro Hn. pose proof (is_name_not_empty_eqb n Hn) as He.
  apply is_name_inv in Hn. destruct Hn as (H1 & H2 & H3 & H4).
  unfold stat, start_of, posixpath.isabs.
  rewrite H1, (has_sep_split _ H2), (has_sep_startswith _ H2).
  simpl. destruct (is_dir (get (fs w) (cwd w))); [|reflexivity].
  rewrite He, H3, H4. simpl.
  destruct (get (fs w) (cwd w ++ [n])%list) eqn:E; [exact E|reflexivity].
Qed.

Lemma locate_name (w : World) (n : string) :
  is_name n = true ->
  locate w n
  = if is_dir (get (fs w) (cwd w)) then Some (cwd w ++ [n])%list else None.
Proof.
  intro Hn. unfold locate, start_of, posixpath.isabs.
  pose proof (is_name_inv n Hn) as (H1 & H2 & H3 & H4).
  rewrite (has_sep_split _ H2), (has_sep_startswith _ H2).
  simpl. now rewrite Hn.
Qed.

Lemma stat_put_same (w : World) (n : string) (v : option node) :
  is_name n = true ->
  is_dir (get (fs w) (cwd w)) = true ->
  stat (put w n v) n = v.
Proof.
  intros Hn Hd. rewrite stat_name by assumption. unfold put. simpl.
  rewrite is_dir_get_set_at, Hd. now apply get_set_at_same.
Qed.

Lemma stat_put_none (w : World) (n : string) :
  is_name n = true -> stat (put w n None) n = None.
Proof.
  intros Hn. rewrite stat_name by assumption. unfold put. simpl.
  rewrite get_set_at_none. now destruct (is_dir _).
Qed.

Lemma stat_put_other (w : World) (n m : string) (v : option node) :
  is_name m = true -> n <> m ->
  stat (put w n v) m = stat w m.
Proof.
  intros Hm Hne. rewrite !stat_name by assumption. unfold put. simpl.
  rewrite is_dir_get_set_at. now rewrite get_set_at_sibling.
Qed.

(** [os.remove] of a plain name. *)
Lemma os_remove_name (w : World) (n : string) :
  is_name n = true ->
  os_remove n w
  = match remove_fault w n with
    | Some c => (Raise (exn_of_errno c n), w)
    | None =>
        match stat w n with
        | Some (File _ _) => (Ok tt, put w n None)
        | Some (Dir _) => (Raise (IsADirectoryError n), w)
        | None => (Raise (FileNotFoundError n), w)
        end
    end.
Proof.
  intro Hn. unfold os_remove. rewrite locate_name, stat_name by assumption.
  destruct (remove_fault w n); [reflexivity|].
  destruct (is_dir (get (fs w) (cwd w))); reflexivity.
Qed.

(** What [os.remove] raises is an [OSError]. *)
Lemma os_remove_raises (w : World) (path : string) (e : exn) :
  fst (os_remove path w) = Raise e -> is_OSError e = true.
Proof.
  unfold os_remove.
  destruct (remove_fault w path) as [c|]; simpl.
  - intros [= <-]. now destruct c.
  - destruct (locate w path) as [loc|]; simpl; [|now intros [= <-]].
    destruct (get (fs w) loc) as [[r d|es]|]; simpl;
      [discriminate|now intros [= <-]|now intros [= <-]].
Qed.

(** ** The names of the two temporary files *)

Lemma digit_not_sep (n : nat) : Str.is_sep (digit n) = false.
Proof.
  unfold digit. assert (H : n mod 10 < 10) by (apply Nat.mod_upper_bound; lia).
  destruct (n mod 10) as [|[|[|[|[|[|[|[|[|[|k]]]]]]]]]]; try reflexivity; lia.
Qed.

Lemma has_sep_app (a b : string) :
  Str.has_sep (a ++ b) = Str.has_sep a || Str.has_sep b.
Proof.
  induction a as [|c r IH]; simpl; [reflexivity|].
  rewrite IH. now rewrite orb_assoc.
Qed.

Lemma pad2_no_sep (n : nat) : Str.has_sep (pad2 n) = false.
Proof. unfold pad2. cbn [Str.has_sep]. now rewrite !digit_not_sep. Qed.

Lemma pad4_no_sep (n : nat) : Str.has_sep (pad4 n) = false.
Proof.
  unfold pad4. cbn [Str.has_sep]. now rewrite !digit_not_sep, pad2_no_sep.
Qed.

Lemma strftime_stamp_no_sep (d : datetime) :
  Str.has_sep (strftime_stamp d) = false.
Proof.
  unfold strftime_stamp.
  rewrite !has_sep_app, pad4_no_sep, !pad2_no_sep. reflexivity.
Qed.

Lemma zip_filename_is_name (d : datetime) :
  is_name (zip_filename_of d) = true.
Proof.
  unfold zip_filename_of, is_name.
  change ("backup_" ++ strftime_stamp d ++ ".zip")
    with (String "b" ("ackup_" ++ strftime_stamp d ++ ".zip")).
  cbn [Str.is_empty Str.has_sep String.eqb Ascii.eqb Bool.eqb negb andb orb].
  rewrite !has_sep_app, strftime_stamp_no_sep. reflexivity.
Qed.

Lemma encrypted_filename_is_name (d : datetime) :
  is_name (encrypted_filename_of d) = true.
Proof.
  unfold encrypted_filename_of, zip_filename_of, is_name.
  change (("backup_" ++ strftime_stamp d ++ ".zip") ++ ".enc")
    with (String "b" (("ackup_" ++ strftime_stamp d ++ ".zip") ++ ".enc")).
  cbn [Str.is_empty Str.has_sep String.eqb Ascii.eqb Bool.eqb negb andb orb].
  rewrite !has_sep_app, strftime_stamp_no_sep. reflexivity.
Qed.

Lemma append_length (a b : string) :
  String.length (a ++ b) = String.length a + String.length b.
Proof. induction a as [|c r IH]; simpl; [reflexivity|now rewrite IH]. Qed.

Lemma encrypted_filename_differs (z : string) : z <> z ++ ".enc".
Proof.
  intro H. apply (f_equal String.length) in H.
  rewrite append_length in H. simpl in H. lia.
Qed.

(* ================================================================== *)
(** * What each stage leaves alone *)
(* ================================================================== *)

Lemma print_keeps {X : Type} (proj : World -> X) (s : string) :
  (forall w l, proj (set_stdout w l) = proj w) -> keeps proj (print s).
Proof. intros H w. apply H. Qed.

Lemma zf_add_keeps {X : Type} (proj : World -> X) (n : string) (d : blob) :
  (forall w z es,
     zf w = Some z ->
     proj (set_zf w (Some {| zf_loc := zf_loc z; zf_entries := es |}))
     = proj w) ->
  keeps proj (zf_add n d).
Proof.
  intros H w. unfold zf_add.
  destruct (zf w) as [z|] eqn:E; [|reflexivity]. simpl. now apply H.
Qed.

Lemma zf_write_keeps {X : Type} (proj : World -> X) (f a : string) :
  (forall w z es,
     zf w = Some z ->
     proj (set_zf w (Some {| zf_loc := zf_loc z; zf_entries := es |}))
     = proj w) ->
  keeps proj (zf_write f a).
Proof.
  intros H w. unfold zf_write.
  destruct (stat w f) as [n|]; [|reflexivity].
  destruct (zip_arcname a) as [a'|]; [|reflexivity].
  destruct n as [[|] d|es]; try reflexivity; now apply zf_add_keeps.
Qed.

(** Adding an item changes nothing but the entries of the open archive
    and the output. *)
Lemma add_item_keeps {X : Type} (proj : World -> X) (item : string) :
  (forall w l, proj (set_stdout w l) = proj w) ->
  (forall w z es,
     zf w = Some z ->
     proj (set_zf w (Some {| zf_loc := zf_loc z; zf_entries := es |}))
     = proj w) ->
  keeps proj (add_item item).
Proof.
  intros Hout Hzf. unfold add_item.
  repeat keeps_step;
    try (apply print_keeps; assumption);
    try (apply zf_write_keeps; assumption);
    intro w; unfold os_path_isfile, os_path_isdir, os_walk, os_path_relpath;
    try reflexivity.
  - destruct (stat w item) as [[r d|es]|]; reflexivity.
  - destruct (posixpath.relpath _ _ _); reflexivity.
Qed.

Lemma create_unencrypted_zip_keeps {X : Type} (proj : World -> X)
    (items : list string) (name : string) :
  (forall w l, proj (set_stdout w l) = proj w) ->
  (forall w x, proj (set_fs w x) = proj w) ->
  (forall w z, proj (set_zf w z) = proj w) ->
  keeps proj (create_unencrypted_zip items name).
Proof.
  intros Hout Hfs Hzf. unfold create_unencrypted_zip, with_ZipFile.
  repeat keeps_step;
    try (apply print_keeps; assumption);
    try (apply add_item_keeps; [assumption|intros; apply Hzf]).
  - intro w. unfold ZipFile_open.
    destruct (locate w name) as [loc|]; [|reflexivity].
    destruct (is_dir _); [reflexivity|]. simpl. now rewrite Hzf, Hfs.
  - intro w. unfold ZipFile_close.
    destruct (zf w); [|reflexivity]. simpl. now rewrite Hzf, Hfs.
Qed.

Lemma openssl_enc_keeps {X : Type} (proj : World -> X) (i o pw : string) :
  (forall w x, proj (set_fs w x) = proj w) ->
  keeps proj (openssl_enc i o pw).
Proof.
  intros Hfs w. unfold openssl_enc.
  destruct (openssl w); try reflexivity.
  destruct (stat w i) as [[[|] d|es]|]; try reflexivity.
  destruct (locate w o) as [loc|]; [|reflexivity].
  destruct (is_dir _); [reflexivity|]. simpl. apply Hfs.
Qed.

Lemma encrypt_with_openssl_keeps {X : Type} (proj : World -> X)
    (i o pw : string) :
  (forall w l, proj (set_stdout w l) = proj w) ->
  (forall w x, proj (set_fs w x) = proj w) ->
  keeps proj (encrypt_with_openssl i o pw).
Proof.
  intros Hout Hfs w.
  pose proof (encrypt_with_openssl_cases i o pw w) as H. cbv zeta in H.
  pose proof (openssl_enc_keeps proj i o pw Hfs w) as Hk.
  destruct (openssl_enc i o pw w) as [[[rc err]|e] w1]; simpl in Hk.
  - destruct (rc =? 0)%Z; rewrite H; simpl; now rewrite Hout.
  - destruct e; rewrite H; simpl; now rewrite Hout.
Qed.

(** A failed encryption has written nothing. *)
Lemma encrypt_with_openssl_false_fs (i o pw : string) (w w1 : World) :
  encrypt_with_openssl i o pw w = (Ok false, w1) -> fs w1 = fs w.
Proof.
  pose proof (encrypt_with_openssl_cases i o pw w) as H. cbv zeta in H.
  assert (Hfs : forall rc err w0,
            openssl_enc i o pw w = (Ok (rc, err), w0) ->
            (rc =? 0)%Z = false -> fs w0 = fs w).
  { unfold openssl_enc. intros rc err w0.
    destruct (openssl w); try discriminate.
    - now intros [= <- <- <-].
    - destruct (stat w i) as [[[|] d|es]|]; try (now intros [= <- <- <-]).
      destruct (locate w o) as [loc|]; [|now intros [= <- <- <-]].
      destruct (is_dir _); [now intros [= <- <- <-]|].
      intros [= <- <- <-]. discriminate. }
  pose proof (openssl_enc_raises i o pw w) as Hr.
  assert (Hm : forall e w0, openssl_enc i o pw w = (Raise e, w0) -> w0 = w).
  { unfold openssl_enc. intros e w0.
    destruct (openssl w); try (now intros [= <- <-]).
    destruct (stat w i) as [[[|] d|es]|]; try discriminate.
    destruct (locate w o) as [loc|]; [|discriminate].
    destruct (is_dir _); discriminate. }
  destruct (openssl_enc i o pw w) as [[[rc err]|e] w0] eqn:E.
  - destruct (rc =? 0)%Z eqn:Erc; rewrite H; [discriminate|].
    intros [= <-]. simpl. eapply Hfs; [reflexivity|exact Erc].
  - rewrite (Hm e w0 eq_refl) in *.
    destruct e; rewrite H; try discriminate. now intros [= <-].
Qed.

(* ================================================================== *)
(** * The archive after a successful first stage *)
(* ================================================================== *)

(** Where the open archive lives. *)
Lemma for_each_add_item_keeps {X : Type} (proj : World -> X)
    (items : list string) :
  (forall w l, proj (set_stdout w l) = proj w) ->
  (forall w z es,
     zf w = Some z ->
     proj (set_zf w (Some {| zf_loc := zf_loc z; zf_entries := es |}))
     = proj w) ->
  keeps proj (for_each items add_item).
Proof.
  intros. apply keeps_for_each. intro. now apply add_item_keeps.
Qed.

Lemma create_unencrypted_zip_true (items : list string) (name : string)
    (w w1 : World) :
  is_name name = true ->
  create_unencrypted_zip items name w = (Ok true, w1) ->
  exists es,
    stat w1 name = Some (File true (ZipOf es))
    /\ is_dir (get (fs w) (cwd w)) = true
    /\ zf w1 = None.
Proof.
  intros Hn. unfold create_unencrypted_zip, with_ZipFile.
  unfold bind at 1. unfold print at 1. unfold try_except.
  set (w0 := set_stdout w _).
  unfold bind at 1. unfold bind at 1.
  unfold ZipFile_open. rewrite locate_name by assumption.
  change (fs w0) with (fs w). change (cwd w0) with (cwd w).
  destruct (is_dir (get (fs w) (cwd w))) eqn:Hd;
    [|cbn [select_clause any_Exception]; unfold bind, print, ret;
      discriminate].
  destruct (is_dir (get (fs w) (cwd w ++ [name])%list));
    [cbn [select_clause any_Exception]; unfold bind, print, ret;
      discriminate|].
  set (wo := set_zf _ _).
  unfold try_finally.
  pose proof (for_each_add_item_keeps fs items
                (fun _ _ => eq_refl) (fun _ _ _ _ => eq_refl) wo) as Kfs.
  pose proof (for_each_add_item_keeps cwd items
                (fun _ _ => eq_refl) (fun _ _ _ _ => eq_refl) wo) as Kcwd.
  assert (Kloc : exists z, zf (snd (for_each items add_item wo)) = Some z
                           /\ zf_loc z = (cwd w ++ [name])%list).
  { pose proof (for_each_add_item_keeps
                  (fun w => option_map zf_loc (zf w)) items
                  (fun _ _ => eq_refl)) as K.
    specialize (K (fun w z es E => eq_trans eq_refl
                     (eq_sym (f_equal (option_map zf_loc) E))) wo).
    simpl in K. destruct (zf (snd (for_each items add_item wo))) as [z|];
      [|discriminate].
    exists z. split; [reflexivity|]. now injection K. }
  destruct (for_each items add_item wo) as [r w2]. simpl in Kfs, Kcwd, Kloc.
  destruct Kloc as (z & Ez & Eloc).
  unfold ZipFile_close. rewrite Ez, Eloc.
  destruct r as [[]|e];
    [|cbn [select_clause any_Exception]; unfold bind, print, ret;
      discriminate].
  unfold bind, print, ret. intros [= <-].
  exists (zf_entries z). split; [|split; reflexivity].
  rewrite stat_name by assumption. simpl. rewrite Kfs, Kcwd. simpl.
  rewrite is_dir_get_set_at.
  change (set_at (cwd w ++ [name]) (Some (File true (ZipOf (zf_entries z))))
            (set_at (cwd w ++ [name]) (Some (File true (Bytes ""))) (fs w)))
    with (fs (put (put w name (Some (File true (Bytes ""))))
                name (Some (File true (ZipOf (zf_entries z)))))).
  rewrite is_dir_get_set_at, Hd.
  simpl. apply get_set_at_same. now rewrite is_dir_get_set_at.
Qed.

(** ** Example worlds *)

(* ================================================================== *)
(** * The orchestrator *)
(* ================================================================== *)

(** [main] by the outcome of its stages. *)
Lemma main_stages (cfg : Config) (w : World) :
  main cfg w
  = match archive_stage cfg w with
    | (Ok true, _) =>
        match encrypt_stage cfg w with
        | (Ok true, _) =>
            match upload_stage cfg w with
            | (Ok _, w3) =>
                cleanup (zip_filename_of (clock w))
                  (encrypted_filename_of (clock w))
                  (set_stdout w3
                     (stdout w3 ++ [step4_line])%list)
            | (Raise e, w3) => (Raise e, w3)
            end
        | (Ok false, w2) =>
            match stat w2 (zip_filename_of (clock w)) with
            | Some _ => os_remove (zip_filename_of (clock w)) w2
            | None => (Ok tt, w2)
            end
        | (Raise e, w2) => (Raise e, w2)
        end
    | (Ok false, w1) => (Ok tt, w1)
    | (Raise e, w1) => (Raise e, w1)
    end.
Proof.
  unfold main, upload_stage, encrypt_stage, archive_stage,
    encrypted_filename_of, zip_filename_of.
  unfold bind at 1. unfold datetime_now at 1. cbv iota beta.
  unfold bind at 1. unfold datetime_now at 1. cbv iota beta.
  unfold bind at 1.
  destruct (create_unencrypted_zip _ _ w) as [[[|]|e] w1];
    cbn [negb snd]; try reflexivity.
  unfold bind at 1.
  destruct (encrypt_with_openssl _ _ _ w1) as [[[|]|e] w2];
    cbn [negb snd]; try reflexivity.
  unfold bind, os_path_exists.
  destruct (stat w2 _); reflexivity.
Qed.

Lemma remove_if_exists_name (p msg : string) (w : World) :
  is_name p = true ->
  remove_if_exists p msg w
  = match stat w p with
    | None => (Ok tt, w)
    | Some n =>
        match remove_fault w p with
        | Some c => (Raise (exn_of_errno c p), w)
        | None =>
            match n with
            | File _ _ =>
                (Ok tt,
                 set_stdout (put w p None) (stdout w ++ [(msg ++ p)%string])%list)
            | Dir _ => (Raise (IsADirectoryError p), w)
            end
        end
    end.
Proof.
  intro Hp. unfold remove_if_exists, bind, os_path_exists.
  destruct (stat w p) as [n|] eqn:E; [|reflexivity].
  rewrite os_remove_name, E by assumption.
  destruct (remove_fault w p); [reflexivity|].
  destruct n; reflexivity.
Qed.

Lemma cleanup_halves (z e : string) (w : World) :
  cleanup z e w
  = match remove_if_exists z "  - 已删除临时ZIP文件: " w with
    | (Ok _, w1) =>
        match remove_if_exists e "  - 已删除临时加密文件: " w1 with
        | (Ok _, w2) => (Ok tt, set_stdout w2 (stdout w2 ++ ["清理完成。"])%list)
        | (Raise x, w2) =>
            if is_OSError x
            then (Ok tt, set_stdout w2 (stdout w2 ++ [cleanup_error_line x])%list)
            else (Raise x, w2)
        end
    | (Raise x, w1) =>
        if is_OSError x
        then (Ok tt, set_stdout w1 (stdout w1 ++ [cleanup_error_line x])%list)
        else (Raise x, w1)
    end.
Proof.
  change (cleanup z e)
    with (try_except
            (remove_if_exists z "  - 已删除临时ZIP文件: " ;;
             remove_if_exists e "  - 已删除临时加密文件: " ;;
             print "清理完成。")
            [(is_OSError, fun x => print (cleanup_error_line x))]).
  unfold try_except. unfold bind at 1.
  destruct (remove_if_exists z _ w) as [[[]|x] w1].
  - unfold bind at 1.
    destruct (remove_if_exists e _ w1) as [[[]|x] w2].
    + reflexivity.
    + cbn [select_clause]. destruct (is_OSError x); reflexivity.
  - cbn [select_clause]. destruct (is_OSError x); reflexivity.
Qed.

Lemma is_OSError_errno (c : errno) (p : string) :
  is_OSError (exn_of_errno c p) = true.
Proof. now destruct c. Qed.

Lemma stat_set_stdout (w : World) (l : list string) (p : string) :
  stat (set_stdout w l) p = stat w p.
Proof. reflexivity. Qed.

(** The last step on two distinct plain names. *)
Lemma cleanup_names (z e : string) (w : World) :
  is_name z = true -> is_name e = true -> z <> e ->
  let r := cleanup z e w in
  fst r = Ok tt
  /\ (is_file (stat w z) = true -> remove_fault w z = None ->
      stat (snd r) z = None
      /\ (is_file (stat w e) = true -> remove_fault w e = None ->
          stat (snd r) e = None))
  /\ (stat w z = None ->
      stat (snd r) z = None
      /\ (is_file (stat w e) = true -> remove_fault w e = None ->
          stat (snd r) e = None))
  /\ (forall c,
        stat w z <> None -> remove_fault w z = Some c ->
        snd r = set_stdout w
                  (stdout w ++ [cleanup_error_line (exn_of_errno c z)])%list).
Proof.
  intros Hz He Hne r. subst r. rewrite cleanup_halves.
  assert (Hsecond : forall w1,
            stat w1 z = None ->
            let r := match remove_if_exists e "  - 已删除临时加密文件: " w1 with
                     | (Ok _, w2) =>
                         (Ok tt, set_stdout w2 (stdout w2 ++ ["清理完成。"])%list)
                     | (Raise x, w2) =>
                         if is_OSError x
                         then (Ok tt,
                               set_stdout w2
                                 (stdout w2 ++ [cleanup_error_line x])%list)
                         else (Raise x, w2)
                     end in
            fst r = Ok tt /\ stat (snd r) z = None
            /\ (is_file (stat w1 e) = true -> remove_fault w1 e = None ->
                stat (snd r) e = None)).
  { intros w1 Hz1. rewrite remove_if_exists_name by assumption.
    destruct (stat w1 e) as [n|] eqn:Ee.
    - destruct (remove_fault w1 e) as [c|] eqn:Ef.
      + rewrite is_OSError_errno. cbn [fst snd]. rewrite stat_set_stdout.
        repeat split; [assumption|discriminate].
      + destruct n as [rd dt|es].
        * cbn [fst snd]. rewrite !stat_set_stdout.
          rewrite stat_put_none by assumption.
          rewrite stat_put_other by (assumption || congruence).
          repeat split; assumption.
        * cbn [is_OSError fst snd].
          rewrite stat_set_stdout. repeat split; [assumption|discriminate].
    - cbn [fst snd]. rewrite !stat_set_stdout.
      repeat split; [assumption|discriminate]. }
  rewrite remove_if_exists_name by assumption.
  destruct (stat w z) as [n|] eqn:Ez.
  - destruct (remove_fault w z) as [c|] eqn:Ef.
    + rewrite is_OSError_errno. cbn [fst snd].
      split; [reflexivity|]. split; [discriminate|]. split; [discriminate|].
      intros c' _ [= <-]. reflexivity.
    + destruct n as [rd dt|es].
      * set (w1 := set_stdout (put w z None) _).
        assert (Hz1 : stat w1 z = None).
        { unfold w1. rewrite stat_set_stdout. now apply stat_put_none. }
        destruct (Hsecond w1 Hz1) as (H1 & H2 & H3).
        split; [exact H1|]. split; [|split].
        -- intros _ _. split; [exact H2|].
           intros Hfe Hre. apply H3.
           ++ unfold w1. rewrite stat_set_stdout.
              now rewrite stat_put_other by assumption.
           ++ exact Hre.
        -- discriminate.
        -- intros c _. discriminate.
      * cbn [is_OSError fst snd].
        split; [reflexivity|]. split; [discriminate|]. split; [discriminate|].
        intros c _. discriminate.
  - destruct (Hsecond w Ez) as (H1 & H2 & H3).
    split; [exact H1|]. split; [discriminate|]. split.
    + intros _. split; assumption.
    + intros c Hc. congruence.
Qed.

Lemma stat_keeps_encrypt (i o pw name : string) (w : World) :
  is_name o = true -> is_name name = true -> o <> name ->
  stat (snd (encrypt_with_openssl i o pw w)) name = stat w name.
Proof.
  intros Ho Hn Hne.
  pose proof (encrypt_with_openssl_cases i o pw w) as H. cbv zeta in H.
  assert (Hfs : stat (snd (openssl_enc i o pw w)) name = stat w name).
  { unfold openssl_enc. destruct (openssl w); try reflexivity.
    destruct (stat w i) as [[[|] d|es]|]; try reflexivity.
    rewrite locate_name by assumption.
    destruct (is_dir (get (fs w) (cwd w))); [|reflexivity].
    destruct (is_dir _); [reflexivity|].
    cbn [snd]. now apply (stat_put_other w (n:=o)). }
  destruct (openssl_enc i o pw w) as [[[rc err]|e] w1]; cbn [snd] in Hfs.
  - destruct (rc =? 0)%Z; rewrite H; cbn [snd]; now rewrite stat_set_stdout.
  - destruct e; rewrite H; cbn [snd]; now rewrite stat_set_stdout.
Qed.

Lemma stat_set_net_log (w : World) (l : list (string * dav_request))
    (p : string) :
  stat (set_net_log w l) p = stat w p.
Proof. reflexivity. Qed.

Lemma stat_set_dav (w : World) (u : string) (s : dav_server) (p : string) :
  stat (set_dav w u s) p = stat w p.
Proof. reflexivity. Qed.

Lemma uploads_keep_stat (servers : list ServerConfig) (f d p : string) :
  keeps (fun w => stat w p)
    (for_each servers (fun server => upload_to_webdav server f d)).
Proof.
  apply keeps_for_each. intro sc. apply upload_to_webdav_keeps.
  - intros. apply stat_set_stdout.
  - intros. apply stat_set_net_log.
  - intros. apply stat_set_dav.
Qed.

Lemma zip_enc_differ (d : datetime) :
  encrypted_filename_of d <> zip_filename_of d.
Proof.
  unfold encrypted_filename_of. intro H.
  symmetry in H. revert H. apply encrypted_filename_differs.
Qed.

(** When the first two stages succeeded the archive is a regular file,
    and stays one until the last step. *)
Lemma archive_present_before_cleanup (cfg : Config) (w : World) :
  fst (archive_stage cfg w) = Ok true ->
  is_file (stat (snd (upload_stage cfg w)) (zip_filename_of (clock w))) = true.
Proof.
  intro Ha. unfold upload_stage.
  rewrite (uploads_keep_stat (WEBDAV_SERVERS cfg) _ _ (zip_filename_of (clock w))).
  unfold encrypt_stage.
  rewrite stat_keeps_encrypt;
    [|apply encrypted_filename_is_name|apply zip_filename_is_name
     |apply zip_enc_differ].
  unfold archive_stage in *.
  destruct (create_unencrypted_zip _ _ w) as [r w1] eqn:E.
  cbn [fst snd] in *. subst r.
  apply create_unencrypted_zip_true in E; [|apply zip_filename_is_name].
  destruct E as (es & -> & _). reflexivity.
Qed.

Lemma stages_keep {X : Type} (proj : World -> X) (cfg : Config) (w : World) :
  (forall w l, proj (set_stdout w l) = proj w) ->
  (forall w x, proj (set_fs w x) = proj w) ->
  (forall w z, proj (set_zf w z) = proj w) ->
  proj (snd (archive_stage cfg w)) = proj w
  /\ proj (snd (encrypt_stage cfg w)) = proj w.
Proof.
  intros Hout Hfs Hzf.
  assert (Ha : proj (snd (archive_stage cfg w)) = proj w).
  { now apply create_unencrypted_zip_keeps. }
  split; [exact Ha|]. unfold encrypt_stage.
  rewrite encrypt_with_openssl_keeps by assumption. exact Ha.
Qed.

(** C4.  When the first two stages succeeded, the upload loop returns
    whatever happens at each destination: every configured destination
    gets its attempt, in order, the last step of [main] then runs on
    the world the loop leaves, [main] returns normally, and the archive
    is gone unless the system refuses its removal. *)
Theorem upload_failures_do_not_abort (cfg : Config) (w : World) :
  fst (archive_stage cfg w) = Ok true ->
  fst (encrypt_stage cfg w) = Ok true ->
  let w3 := snd (upload_stage cfg w) in
  fst (upload_stage cfg w) = Ok tt
  /\ attempts w3 = (attempts w ++ map url (WEBDAV_SERVERS cfg))%list
  /\ main cfg w
     = cleanup (zip_filename_of (clock w)) (encrypted_filename_of (clock w))
         (set_stdout w3
            (stdout w3 ++ [step4_line])%list)
  /\ fst (main cfg w) = Ok tt
  /\ (remove_fault w (zip_filename_of (clock w)) = None ->
      stat (snd (main cfg w)) (zip_filename_of (clock w)) = None).
Proof.
  intros Ha He w3.
  pose proof (archive_present_before_cleanup cfg w Ha) as Hz.
  destruct (uploads_attempt_all (WEBDAV_SERVERS cfg)
              (encrypted_filename_of (clock w)) (strftime_month (clock w))
              (snd (encrypt_stage cfg w))) as [Hu Hat].
  fold (upload_stage cfg w) in Hu, Hat. fold w3 in Hat, Hz.
  assert (Hmain : main cfg w
                  = cleanup (zip_filename_of (clock w))
                      (encrypted_filename_of (clock w))
                      (set_stdout w3
                         (stdout w3 ++ [step4_line])%list)).
  { rewrite main_stages. subst w3.
    destruct (archive_stage cfg w) as [ra w1]. cbn [fst] in Ha. subst ra.
    destruct (encrypt_stage cfg w) as [re w2]. cbn [fst] in He. subst re.
    destruct (upload_stage cfg w) as [ru w3']. cbn [fst] in Hu. subst ru.
    reflexivity. }
  destruct (cleanup_names
              (set_stdout w3 (stdout w3 ++ [step4_line])%list)
              (zip_filename_is_name (clock w))
              (encrypted_filename_is_name (clock w))
              (fun H => zip_enc_differ (eq_sym H)))
    as (Hok & Hdel & _).
  split; [exact Hu|]. split.
  - rewrite Hat. f_equal.
    destruct (stages_keep attempts cfg w) as [_ H]; try reflexivity. exact H.
  - split; [exact Hmain|]. rewrite Hmain. split; [exact Hok|].
    intro Hf.
    assert (K : remove_fault w3 = remove_fault w).
    { subst w3. unfold upload_stage.
      rewrite (@keeps_for_each _ _ remove_fault (WEBDAV_SERVERS cfg));
        [|intro sc; apply upload_to_webdav_keeps; reflexivity].
      destruct (stages_keep remove_fault cfg w) as [_ H]; try reflexivity.
      exact H. }
    destruct Hdel as [Hgone _]; [| |exact Hgone].
    + rewrite stat_set_stdout. exact Hz.
    + cbn [remove_fault set_stdout]. rewrite K. exact Hf.
Qed.

(** A run in which the first destination cannot be reached: both
    destinations are attempted and the temporary files are removed. *)
Lemma upload_failures_do_not_abort_example :
  let cfg := {| SOURCE_ITEMS := ["notes.log"];
                WEBDAV_SERVERS :=
                  [{| url := "https://down.example.org/"; username := "u";
                      password := "p" |}; example_server];
                ENCRYPTION_PASSWORD := "secret" |} in
  let w := {| fs := example_root; cwd := ["home"; "u"]; stdout := [];
              clock := example_clock; openssl := ToolWorking;
              remove_fault := fun _ => None;
              dav := fun u =>
                if String.eqb u "https://down.example.org/"
                then {| dav_fault := fun _ => Some (WebDavException "No connection");
                        dav_dirs := []; dav_files := []; dav_incoming := [];
                        dav_mkcol_existing := None |}
                else quiet_server;
              net_log := []; zf := None |} in
  attempts (snd (upload_stage cfg w))
  = ["https://down.example.org/"; "https://dav.example.org/dav/"]
  /\ fst (main cfg w) = Ok tt
  /\ stat (snd (main cfg w)) (zip_filename_of (clock w)) = None.
Proof.
  intros cfg w.
  destruct (@upload_failures_do_not_abort cfg w) as (_ & Ha & _ & Hok & Hz);
    [vm_compute; reflexivity|vm_compute; reflexivity|].
  split; [exact Ha|]. split; [exact Hok|]. apply Hz. reflexivity.
Defined.

(** C5 (amended).  The last step of [main] returns normally in every
    world.  It removes the archive when it is present, and then, if
    that removal did not fail, the encrypted file when it is present;
    an [OSError] of a removal is printed and goes no further, but it
    ends the step: after a failed removal of the archive the world is
    unchanged but for the printed line, so the encrypted file is not
    touched. *)
Theorem cleanup_is_best_effort (d : datetime) (w : World) :
  let z := zip_filename_of d in
  let e := encrypted_filename_of d in
  let r := cleanup z e w in
  fst r = Ok tt
  /\ (is_file (stat w z) = true -> remove_fault w z = None ->
      stat (snd r) z = None
      /\ (is_file (stat w e) = true -> remove_fault w e = None ->
          stat (snd r) e = None))
  /\ (stat w z = None ->
      stat (snd r) z = None
      /\ (is_file (stat w e) = true -> remove_fault w e = None ->
          stat (snd r) e = None))
  /\ (forall c,
        stat w z <> None -> remove_fault w z = Some c ->
        snd r = set_stdout w
                  (stdout w ++ [cleanup_error_line (exn_of_errno c z)])%list).
Proof.
  apply cleanup_names.
  - apply zip_filename_is_name.
  - apply encrypted_filename_is_name.
  - intro H. exact (zip_enc_differ (eq_sym H)).
Qed.

(** C5 as stated fails: when the system refuses to remove the archive,
    the encrypted file, which is present and could be removed, is still
    there after the last step. *)
Lemma cleanup_stops_at_first_error :
  ~ cleanup_deletes_both (zip_filename_of example_clock)
      (encrypted_filename_of example_clock)
      (before_cleanup [zip_filename_of example_clock]).
Proof.
  intros (_ & _ & H).
  destruct H as [H|H].
  - vm_compute. reflexivity.
  - vm_compute in H. discriminate.
  - apply H. vm_compute. reflexivity.
Qed.

(** Once the encryption stage has reported failure the archive is
    there, and what is left of [main] is its removal. *)
Lemma main_when_encrypt_failed (cfg : Config) (w : World) :
  encrypt_failed cfg w ->
  is_file (stat (snd (encrypt_stage cfg w)) (zip_filename_of (clock w))) = true
  /\ main cfg w
     = os_remove (zip_filename_of (clock w)) (snd (encrypt_stage cfg w)).
Proof.
  intros [Ha He]. set (z := zip_filename_of (clock w)).
  assert (Hz : is_file (stat (snd (encrypt_stage cfg w)) z) = true).
  { unfold encrypt_stage.
    rewrite stat_keeps_encrypt;
      [|apply encrypted_filename_is_name|apply zip_filename_is_name
       |apply zip_enc_differ].
    unfold archive_stage in *.
    destruct (create_unencrypted_zip _ _ w) as [ra w1] eqn:E.
    cbn [fst snd] in *. subst ra.
    apply create_unencrypted_zip_true in E; [|apply zip_filename_is_name].
    destruct E as (es & E & _). subst z. now rewrite E. }
  split; [exact Hz|]. rewrite main_stages.
  destruct (archive_stage cfg w) as [ra w1]. cbn [fst] in Ha. subst ra.
  destruct (encrypt_stage cfg w) as [re w2]. cbn [fst snd] in *. subst re.
  fold z. now destruct (stat w2 z).
Qed.




(** C1 (amended).  A failure of the first two stages does not show in
    the exit status: when the archiving stage reports failure [main]
    returns at once and the status is 0; when the encryption stage
    reports failure and the archive is removed without error the status
    is 0 as well.  The status is non-zero exactly when an exception
    leaves [main]. *)
Theorem failure_exit_status (cfg : Config) (w : World) :
  (archive_failed cfg w -> script cfg w = (0%Z, snd (archive_stage cfg w)))
  /\ (encrypt_failed cfg w ->
      remove_fault w (zip_filename_of (clock w)) = None ->
      fst (script cfg w) = 0%Z)
  /\ (fst (script cfg w) <> 0%Z <-> exists e, fst (main cfg w) = Raise e).
Proof.
  split; [|split].
  - unfold archive_failed, script. rewrite main_stages.
    destruct (archive_stage cfg w) as [ra w1]. cbn [fst snd].
    now intros ->.
  - intros He Hf. unfold script.
    destruct (@main_when_encrypt_failed cfg w He) as [Hz ->].
    destruct (stages_keep remove_fault cfg w) as [_ Hrf]; try reflexivity.
    pose proof (zip_filename_is_name (clock w)) as Hn.
    revert Hz Hrf Hn Hf.
    generalize (snd (encrypt_stage cfg w)) as w2.
    generalize (zip_filename_of (clock w)) as z.
    intros z w2 Hz Hrf Hn Hf.
    rewrite os_remove_name by exact Hn.
    rewrite Hrf, Hf.
    destruct (stat w2 z) as [[rd dt|es]|];
      [reflexivity|discriminate Hz|discriminate Hz].
  - unfold script. destruct (main cfg w) as [[[]|e] w']; cbn [fst]; split.
    + intro H. now contradiction H.
    + intros [e H]. discriminate.
    + intros _. now exists e.
    + intros _. discriminate.
Qed.

(** C1 as stated fails: the archiving stage fails on a file that cannot
    be read, and the process ends with status 0. *)
Lemma archive_failure_exits_zero :
  ~ failure_is_signalled (example_config ["secret.key"]) example_world.
Proof.
  intro H. apply H.
  - left. vm_compute. reflexivity.
  - vm_compute. reflexivity.
Qed.

(* ================================================================== *)
(** * The archiving stage *)
(* ================================================================== *)

Lemma stat_set_zf (w : World) (z : option ZipFile) (p : string) :
  stat (set_zf w z) p = stat w p.
Proof. reflexivity. Qed.

Lemma stat_archiving_world_stdout (name : string) (w : World)
    (l : list string) (p : string) :
  stat (archiving_world name (set_stdout w l)) p
  = stat (archiving_world name w) p.
Proof.
  unfold archiving_world, ZipFile_open.
  change (locate (set_stdout w l) name) with (locate w name).
  destruct (locate w name) as [loc|]; [|reflexivity].
  change (fs (set_stdout w l)) with (fs w).
  destruct (is_dir (get (fs w) loc)); reflexivity.
Qed.

(** Adding items does not change what the paths name. *)
Lemma add_item_keeps_stat (item p : string) :
  keeps (fun w => stat w p) (add_item item).
Proof.
  apply add_item_keeps.
  - intros. apply stat_set_stdout.
  - intros. apply stat_set_zf.
Qed.

(** An item that is neither a file nor a directory is passed over:
    nothing is written, nothing is printed, nothing is raised. *)
Lemma add_item_missing (item : string) (w : World) :
  is_file (stat w item) = false -> is_dir (stat w item) = false ->
  add_item item w = (Ok tt, w).
Proof.
  intros Hf Hd. unfold add_item, bind, os_path_isfile, os_path_isdir.
  now rewrite Hf, Hd.
Qed.

Lemma for_each_skip_missing (items1 items2 : list string) (x : string)
    (w : World) :
  is_file (stat w x) = false -> is_dir (stat w x) = false ->
  for_each (items1 ++ x :: items2)%list add_item w
  = for_each (items1 ++ items2)%list add_item w.
Proof.
  revert w. induction items1 as [|a r IH]; intros w Hf Hd; simpl.
  - unfold bind. now rewrite add_item_missing.
  - unfold bind. pose proof (add_item_keeps_stat a x w) as K.
    destruct (add_item a w) as [[[]|e] w1]; [|reflexivity].
    simpl in K. apply IH; now rewrite K.
Qed.

(** [create_unencrypted_zip] in terms of the loop over the items. *)
Lemma create_unencrypted_zip_loop (items : list string) (name : string)
    (w : World) :
  let w0 := set_stdout w (stdout w ++ [step1_line name])%list in
  create_unencrypted_zip items name w
  = match ZipFile_open name w0 with
    | (Ok _, wo) =>
        match for_each items add_item wo with
        | (r, w2) =>
            match ZipFile_close w2 with
            | (Ok _, w3) =>
                match r with
                | Ok _ =>
                    (Ok true,
                     set_stdout w3 (stdout w3 ++ ["标准ZIP压缩包创建成功。"])%list)
                | Raise e =>
                    (Ok false,
                     set_stdout w3
                       (stdout w3 ++ [archive_error_line e])%list)
                end
            | (Raise e, w3) =>
                (Ok false,
                 set_stdout w3
                   (stdout w3 ++ [archive_error_line e])%list)
            end
        end
    | (Raise e, wo) =>
        (Ok false,
         set_stdout wo (stdout wo ++ [archive_error_line e])%list)
    end.
Proof.
  intro w0. unfold create_unencrypted_zip, with_ZipFile.
  unfold bind at 1. unfold print at 1. fold (step1_line name). fold w0.
  unfold try_except. unfold bind at 1. unfold bind at 1.
  destruct (ZipFile_open name w0) as [[[]|e] wo];
    [|reflexivity].
  unfold try_finally.
  destruct (for_each items add_item wo) as [r w2].
  destruct (ZipFile_close w2) as [[[]|e] w3]; [|reflexivity].
  destruct r as [[]|e]; reflexivity.
Qed.

(** C8.  A source item that, while the archive is being written, is
    neither a regular file nor a directory is skipped without a trace:
    adding it returns normally and leaves the world as it is, and the
    whole stage ends exactly as it does without the item, with the
    same result, the same archive and the same output. *)
Theorem missing_item_is_skipped (archive_name x : string)
    (items1 items2 : list string) (w : World) :
  let wa := archiving_world archive_name w in
  is_file (stat wa x) = false ->
  is_dir (stat wa x) = false ->
  (forall w1, fs w1 = fs wa -> cwd w1 = cwd wa -> add_item x w1 = (Ok tt, w1))
  /\ create_unencrypted_zip (items1 ++ x :: items2)%list archive_name w
     = create_unencrypted_zip (items1 ++ items2)%list archive_name w.
Proof.
  intros wa Hf Hd. split.
  - intros w1 Hfs Hcwd. apply add_item_missing.
    + unfold stat, start_of in *. now rewrite Hfs, Hcwd.
    + unfold stat, start_of in *. now rewrite Hfs, Hcwd.
  - rewrite !create_unencrypted_zip_loop. cbv zeta.
    set (w0 := set_stdout w _).
    assert (Hs : stat (archiving_world archive_name w0) x = stat wa x)
      by apply stat_archiving_world_stdout.
    unfold archiving_world in Hs.
    destruct (ZipFile_open archive_name w0) as [[[]|e] wo]; [|reflexivity].
    cbn [snd] in Hs.
    rewrite for_each_skip_missing; [reflexivity| |]; now rewrite Hs.
Qed.

(** An archive is requested for an item that does not exist and one
    that does: the stage succeeds and only the second is stored. *)
Lemma missing_item_is_skipped_example :
  fst (create_unencrypted_zip ["gone.txt"; "notes.log"] "b.zip" example_world)
  = Ok true
  /\ stat (snd (create_unencrypted_zip ["gone.txt"; "notes.log"] "b.zip"
                  example_world)) "b.zip"
     = Some (File true (ZipOf [("notes.log", Bytes "log")])).
Proof.
  destruct (@missing_item_is_skipped "b.zip" "gone.txt" [] ["notes.log"]
              example_world) as [_ H];
    [reflexivity|reflexivity|].
  cbn [app] in H. rewrite H. split; vm_compute; reflexivity.
Defined.

Lemma stdout_keeps_zf_write (f a : string) : keeps stdout (zf_write f a).
Proof. apply zf_write_keeps. reflexivity. Qed.

Lemma report_line_stat (w w1 : World) (item : string) :
  stat w1 item = stat w item -> report_line w1 item = report_line w item.
Proof. unfold report_line. now intros ->. Qed.

(** What adding one item prints when it succeeds. *)
Lemma add_item_report (item : string) (w w1 : World) :
  add_item item w = (Ok tt, w1) ->
  stdout w1 = (stdout w ++ report_line w item)%list.
Proof.
  unfold add_item, report_line, os_path_isfile, os_path_isdir.
  unfold bind at 1. cbv iota beta.
  destruct (is_file (stat w item)).
  - unfold bind, print.
    pose proof (stdout_keeps_zf_write item (posixpath.basename item) w) as K.
    destruct (zf_write _ _ w) as [[[]|e] w2]; [|discriminate].
    simpl in K. intros [= <-]. simpl. now rewrite K.
  - unfold bind at 1. cbv iota beta.
    destruct (is_dir (stat w item)).
    + unfold bind at 1. unfold os_walk at 1.
      set (triples := match stat w item with
                      | Some (Dir es) => walk_node item (Dir es)
                      | _ => []
                      end).
      assert (Hw : (match stat w item with
                    | Some (Dir es) => (Ok (walk_node item (Dir es)), w)
                    | _ => (Ok [], w)
                    end) = (Ok triples, w)).
      { unfold triples. now destruct (stat w item) as [[? ?|?]|]. }
      rewrite Hw. unfold bind, print.
      match goal with
      | |- context [for_each triples ?body w] =>
          assert (K : keeps stdout (for_each triples body));
          [|specialize (K w);
            destruct (for_each triples body w) as [[[]|e] w2];
            [|discriminate]]
      end.
      { apply keeps_for_each. intros [[foldername subfolders] filenames].
        apply keeps_for_each. intro filename.
        apply keeps_bind.
        - intro w'. unfold os_path_relpath.
          now destruct (posixpath.relpath _ _ _).
        - intro arcname. apply stdout_keeps_zf_write. }
      simpl in K. intros [= <-]. simpl. now rewrite K.
    + intros [= <-]. now rewrite app_nil_r.
Qed.

(** What the loop over the items prints when it succeeds: one line for
    every item that is a file or a directory, in order. *)
Lemma for_each_add_item_report (items : list string) (w w1 : World) :
  for_each items add_item w = (Ok tt, w1) ->
  stdout w1 = (stdout w ++ flat_map (report_line w) items)%list.
Proof.
  revert w. induction items as [|a r IH]; intros w; simpl.
  - intros [= <-]. now rewrite app_nil_r.
  - unfold bind. destruct (add_item a w) as [[[]|e] w2] eqn:Ea; [|discriminate].
    intro Hr. rewrite (IH _ Hr), (@add_item_report a w w2 Ea), <- app_assoc.
    do 2 f_equal. apply flat_map_ext. intro x.
    apply report_line_stat.
    pose proof (add_item_keeps_stat a x w) as K. now rewrite Ea in K.
Qed.

Lemma archive_stage_true_report (cfg : Config) (w : World) :
  fst (archive_stage cfg w) = Ok true ->
  stdout (snd (archive_stage cfg w))
  = (stdout w
     ++ step1_line (zip_filename_of (clock w))
        :: flat_map (report_line (archiving_world (zip_filename_of (clock w)) w))
             (SOURCE_ITEMS cfg)
     ++ ["标准ZIP压缩包创建成功。"])%list.
Proof.
  unfold archive_stage. set (z := zip_filename_of (clock w)).
  rewrite create_unencrypted_zip_loop. cbv zeta.
  set (w0 := set_stdout w _).
  assert (Hs : forall x, stat (archiving_world z w0) x
                         = stat (archiving_world z w) x)
    by (intro x; apply stat_archiving_world_stdout).
  assert (Ho : stdout (archiving_world z w0) = stdout w0).
  { unfold archiving_world, ZipFile_open.
    destruct (locate w0 z); [|reflexivity]. now destruct (is_dir _). }
  unfold archiving_world in Hs at 1. unfold archiving_world in Ho.
  destruct (ZipFile_open z w0) as [[[]|e] wo]; [|discriminate].
  cbn [snd] in Hs, Ho.
  destruct (for_each (SOURCE_ITEMS cfg) add_item wo) as [r w2] eqn:El.
  assert (Hc : stdout (snd (ZipFile_close w2)) = stdout w2).
  { unfold ZipFile_close. now destruct (zf w2). }
  destruct (ZipFile_close w2) as [[[]|e] w3]; [|discriminate].
  cbn [snd] in Hc.
  destruct r as [[]|e]; [|discriminate].
  intros _. cbn [snd stdout set_stdout].
  rewrite Hc, (@for_each_add_item_report _ _ _ El), Ho. unfold w0.
  cbn [stdout set_stdout]. rewrite <- !app_assoc. cbn [app].
  do 3 f_equal. apply flat_map_ext. intro x. now apply report_line_stat.
Qed.

(* ================================================================== *)
(** * Strings and paths *)
(* ================================================================== *)

Local Arguments String.append : simpl nomatch.

Lemma append_nil_r (s : string) : s ++ "" = s.
Proof. induction s as [|c r IH]; simpl; [reflexivity|now rewrite IH]. Qed.

Lemma append_assoc (a b c : string) : (a ++ b) ++ c = a ++ (b ++ c).
Proof. induction a as [|x r IH]; simpl; [reflexivity|now rewrite IH]. Qed.

Lemma is_sep_eq (c : ascii) : Str.is_sep c = true -> c = Str.sep.
Proof. unfold Str.is_sep. apply Ascii.eqb_eq. Qed.

Lemma is_sep_sep : Str.is_sep Str.sep = true.
Proof. reflexivity. Qed.

Lemma split_sep_not_nil (s : string) : Str.split_sep s <> [].
Proof.
  destruct s as [|c r]; simpl; [discriminate|].
  destruct (Str.is_sep c); [discriminate|].
  destruct (Str.split_sep r); discriminate.
Qed.

Lemma split_sep_app_sep (a b : string) :
  Str.split_sep (a ++ String Str.sep b)
  = (Str.split_sep a ++ Str.split_sep b)%list.
Proof.
  induction a as [|c r IH]; simpl.
  - reflexivity.
  - destruct (Str.is_sep c); rewrite IH; [reflexivity|].
    pose proof (split_sep_not_nil r) as Hn.
    destruct (Str.split_sep r) as [|h t]; [congruence|reflexivity].
Qed.

Lemma split_sep_no_sep (s : string) : Forall no_sep (Str.split_sep s).
Proof.
  induction s as [|c r IH]; simpl.
  - constructor; [reflexivity|constructor].
  - destruct (Str.is_sep c) eqn:Ec.
    + constructor; [reflexivity|exact IH].
    + destruct (Str.split_sep r) as [|h t].
      * constructor; [|constructor]. unfold no_sep. simpl. now rewrite Ec.
      * inversion IH as [|? ? Hh Ht]; subst.
        constructor; [|exact Ht]. unfold no_sep in *. simpl.
        now rewrite Ec, Hh.
Qed.

Lemma join_sep_cons (a : string) (l : list string) :
  l <> [] -> Str.join_sep (a :: l) = a ++ String Str.sep (Str.join_sep l).
Proof. destruct l; [congruence|reflexivity]. Qed.

Lemma split_join (l : list string) :
  l <> [] -> Forall no_sep l -> Str.split_sep (Str.join_sep l) = l.
Proof.
  induction l as [|a r IH]; [congruence|]. intros _ Hf.
  inversion Hf as [|? ? Ha Hr]; subst.
  destruct r as [|b r'].
  - simpl. now apply has_sep_split.
  - rewrite join_sep_cons by discriminate.
    rewrite split_sep_app_sep, (has_sep_split _ Ha), IH; [reflexivity| |exact Hr].
    discriminate.
Qed.

Lemma split_seps (k : nat) : Str.split_sep (Str.seps k) = repeat "" (S k).
Proof. induction k as [|k IH]; simpl; [reflexivity|now rewrite IH]. Qed.

Lemma split_app_seps (x : string) (k : nat) :
  Str.split_sep (x ++ Str.seps k) = (Str.split_sep x ++ repeat "" k)%list.
Proof.
  destruct k as [|k].
  - simpl. now rewrite append_nil_r, app_nil_r.
  - simpl Str.seps. now rewrite split_sep_app_sep, split_seps.
Qed.

Lemma rstrip_decomp (s : string) :
  exists k, s = Str.rstrip_sep s ++ Str.seps k.
Proof.
  induction s as [|c r [k IH]]; [now exists 0|]. simpl.
  destruct (Str.rstrip_sep r) as [|c' r'] eqn:E.
  - simpl in IH. destruct (Str.is_sep c) eqn:Ec.
    + exists (S k). simpl. rewrite (is_sep_eq _ Ec). now rewrite <- IH.
    + exists k. simpl. now rewrite <- IH.
  - exists k. simpl. simpl in IH. now rewrite <- IH.
Qed.

Lemma all_sep_seps (k : nat) : Str.all_sep (Str.seps k) = true.
Proof. induction k; simpl; [reflexivity|assumption]. Qed.

Lemma rstrip_not_empty (s : string) :
  Str.all_sep s = false -> Str.is_empty (Str.rstrip_sep s) = false.
Proof.
  intro H. destruct (rstrip_decomp s) as [k Hk].
  destruct (Str.rstrip_sep s); [|reflexivity].
  simpl in Hk. rewrite Hk, all_sep_seps in H. discriminate.
Qed.

Lemma startswith_app (a b : string) :
  Str.is_empty a = false -> Str.startswith_sep (a ++ b) = Str.startswith_sep a.
Proof. destruct a; [discriminate|reflexivity]. Qed.

Lemma endswith_app (a b : string) :
  Str.is_empty b = false -> Str.endswith_sep (a ++ b) = Str.endswith_sep b.
Proof.
  intro Hb. induction a as [|c r IH]; [reflexivity|].
  simpl. destruct (r ++ b) eqn:E; [|exact IH].
  destruct r; [|discriminate]. simpl in E. subst b. discriminate.
Qed.

Lemma endswith_no_sep (s : string) :
  Str.has_sep s = false -> Str.endswith_sep s = false.
Proof.
  induction s as [|c r IH]; [reflexivity|]. simpl.
  destruct (Str.is_sep c); [discriminate|]. simpl. intro H.
  destruct r; [reflexivity|now apply IH].
Qed.

Lemma endswith_decomp (s : string) :
  Str.endswith_sep s = true -> exists s', s = s' ++ String Str.sep "".
Proof.
  induction s as [|c r IH]; [discriminate|]. simpl.
  destruct r as [|c' r'].
  - intro H. exists "". simpl. now rewrite (is_sep_eq _ H).
  - intro H. destruct (IH H) as [s' Hs]. exists (String c s').
    simpl. now rewrite <- Hs.
Qed.

Lemma is_empty_app (a b : string) :
  Str.is_empty (a ++ b) = Str.is_empty a && Str.is_empty b.
Proof. now destruct a. Qed.

(** ** [rfind], [basename] and [dirname] *)

Lemma rfind_sep_no_sep (s : string) :
  Str.has_sep s = false -> Str.rfind_sep s = (-1)%Z.
Proof.
  induction s as [|c r IH]; [reflexivity|]. simpl.
  destruct (Str.is_sep c); [discriminate|]. simpl. intro H.
  now rewrite (IH H).
Qed.

Lemma rfind_sep_has_sep (s : string) :
  Str.has_sep s = true -> (0 <= Str.rfind_sep s)%Z.
Proof.
  induction s as [|c r IH]; [discriminate|]. simpl.
  destruct (Str.has_sep r) eqn:Hr.
  - intros _. specialize (IH eq_refl).
    destruct (0 <=? Str.rfind_sep r)%Z eqn:E; [lia|].
    apply Z.leb_gt in E. lia.
  - rewrite (rfind_sep_no_sep _ Hr). simpl. rewrite orb_false_r.
    now intros ->.
Qed.

Lemma head_tail_cons (c : ascii) (r : string) :
  (Str.has_sep r = true ->
   head_of (String c r) = String c (head_of r)
   /\ tail_of (String c r) = tail_of r)
  /\ (Str.has_sep r = false ->
      (Str.is_sep c = true ->
       head_of (String c r) = String c "" /\ tail_of (String c r) = r)
      /\ (Str.is_sep c = false ->
          head_of (String c r) = "" /\ tail_of (String c r) = String c r)).
Proof.
  unfold head_of, tail_of. simpl Str.rfind_sep. split.
  - intro H. apply rfind_sep_has_sep in H.
    assert (E : (0 <=? Str.rfind_sep r)%Z = true) by now apply Z.leb_le.
    rewrite E.
    replace (Z.to_nat (Str.rfind_sep r + 1 + 1))
      with (S (Z.to_nat (Str.rfind_sep r + 1))) by lia.
    split; reflexivity.
  - intro H. rewrite (rfind_sep_no_sep _ H). simpl. split; intros ->; now split.
Qed.

Lemma head_tail_no_sep (s : string) :
  Str.has_sep s = false -> head_of s = "" /\ tail_of s = s.
Proof.
  intro H. unfold head_of, tail_of. rewrite (rfind_sep_no_sep _ H). simpl.
  now destruct s.
Qed.

Lemma head_tail_spec (p : string) :
  p = head_of p ++ tail_of p
  /\ Str.has_sep (tail_of p) = false
  /\ (head_of p = "" \/ Str.endswith_sep (head_of p) = true).
Proof.
  induction p as [|c r (IH1 & IH2 & IH3)].
  - repeat split. now left.
  - destruct (head_tail_cons c r) as [Hs Hn].
    destruct (Str.has_sep r) eqn:Hr.
    + destruct (Hs eq_refl) as [-> ->]. repeat split.
      * simpl. now rewrite <- IH1.
      * exact IH2.
      * right. destruct IH3 as [E|E].
        -- exfalso. destruct (head_tail_no_sep (tail_of r) IH2) as [_ _].
           rewrite E in IH1. simpl in IH1. rewrite <- IH1 in IH2. congruence.
        -- simpl. destruct (head_of r); [discriminate|exact E].
    + destruct (Hn eq_refl) as [Hy Hz].
      destruct (Str.is_sep c) eqn:Ec.
      * destruct (Hy eq_refl) as [-> ->]. repeat split; [exact Hr|].
        right. simpl. exact Ec.
      * destruct (Hz eq_refl) as [-> ->]. repeat split.
        -- simpl. now rewrite Ec, Hr.
        -- now left.
Qed.

Lemma head_tail_trailing (p : string) :
  Str.endswith_sep p = true -> head_of p = p /\ tail_of p = "".
Proof.
  induction p as [|c r IH]; [discriminate|]. simpl. intro H.
  destruct (head_tail_cons c r) as [Hs Hn].
  destruct r as [|c' r'].
  - destruct (Hn eq_refl) as [Hy _]. now apply Hy.
  - assert (Hr : Str.has_sep (String c' r') = true).
    { destruct (Str.has_sep (String c' r')) eqn:E; [reflexivity|].
      apply endswith_no_sep in E. congruence. }
    destruct (Hs Hr) as [-> ->]. destruct (IH H) as [-> ->]. now split.
Qed.

Lemma split_one_no_sep (s : string) :
  length (Str.split_sep s) = 1 -> Str.has_sep s = false.
Proof.
  induction s as [|c r IH]; [reflexivity|]. simpl.
  pose proof (split_sep_not_nil r) as Hn.
  destruct (Str.is_sep c).
  - destruct (Str.split_sep r); [congruence|discriminate].
  - destruct (Str.split_sep r) as [|h t] eqn:E; [congruence|].
    simpl. intro H. apply IH. exact H.
Qed.

(** The base name is the last component. *)
Lemma last_split_tail (p : string) : last (Str.split_sep p) "" = tail_of p.
Proof.
  induction p as [|c r IH]; [reflexivity|].
  destruct (head_tail_cons c r) as [Hs Hn].
  pose proof (split_sep_not_nil r) as Hnn.
  destruct (Str.has_sep r) eqn:Hr.
  - destruct (Hs eq_refl) as [_ ->]. rewrite <- IH. simpl.
    destruct (Str.split_sep r) as [|h t] eqn:E; [congruence|].
    assert (Ht : t <> []).
    { intro Ht. subst t. assert (L : length (Str.split_sep r) = 1) by now rewrite E.
      apply split_one_no_sep in L. congruence. }
    destruct (Str.is_sep c); destruct t; try congruence; reflexivity.
  - destruct (Hn eq_refl) as [Hy Hz]. simpl.
    rewrite (has_sep_split _ Hr).
    destruct (Str.is_sep c) eqn:Ec.
    + destruct (Hy eq_refl) as [_ ->]. reflexivity.
    + destruct (Hz eq_refl) as [_ ->]. reflexivity.
Qed.

Lemma basename_tail (p : string) : posixpath.basename p = tail_of p.
Proof. reflexivity. Qed.

Lemma dirname_head (p : string) :
  posixpath.dirname p
  = if negb (Str.is_empty (head_of p)) && negb (Str.all_sep (head_of p))
    then Str.rstrip_sep (head_of p) else head_of p.
Proof. reflexivity. Qed.

(** ** [normpath] *)

Lemma norm_step_empty (k : nat) (acc : list string) :
  posixpath.norm_step k acc "" = acc.
Proof. reflexivity. Qed.

Lemma norm_step_name (k : nat) (acc : list string) (c : string) :
  is_name c = true -> posixpath.norm_step k acc c = (acc ++ [c])%list.
Proof.
  intro H. pose proof (is_name_not_empty_eqb c H) as He.
  apply is_name_inv in H. destruct H as (_ & _ & H3 & H4).
  unfold posixpath.norm_step. now rewrite He, H3, H4.
Qed.

Lemma norm_step_abs (k : nat) (acc : list string) (c : string) :
  k <> 0 -> posixpath.norm_step k acc c = posixpath.norm_step 1 acc c.
Proof.
  intro H. unfold posixpath.norm_step.
  destruct k as [|k]; [congruence|reflexivity].
Qed.

Lemma fold_norm_abs (k : nat) (l acc : list string) :
  k <> 0 ->
  fold_left (posixpath.norm_step k) l acc
  = fold_left (posixpath.norm_step 1) l acc.
Proof.
  intro H. revert acc. induction l as [|c r IH]; intro acc; simpl.
  - reflexivity.
  - now rewrite IH, norm_step_abs.
Qed.

Lemma fold_norm_names (k : nat) (r acc : list string) :
  names r -> fold_left (posixpath.norm_step k) r acc = (acc ++ r)%list.
Proof.
  intro H. revert acc. induction H as [|c r Hc Hr IH]; intro acc; simpl.
  - now rewrite app_nil_r.
  - rewrite norm_step_name by assumption. rewrite IH, <- app_assoc.
    reflexivity.
Qed.

Lemma fold_norm_empties (k n : nat) (acc : list string) :
  fold_left (posixpath.norm_step k) (repeat "" n) acc = acc.
Proof. induction n as [|n IH]; simpl; [reflexivity|exact IH]. Qed.

Lemma Forall_removelast {A : Type} (P : A -> Prop) (l : list A) :
  Forall P l -> Forall P (removelast l).
Proof.
  induction 1 as [|a l Ha Hl IH]; simpl; [constructor|].
  destruct l; [constructor|]. constructor; assumption.
Qed.

Lemma norm_step_clean (k : nat) (acc : list string) (c : string) :
  Forall clean acc -> no_sep c -> Forall clean (posixpath.norm_step k acc c).
Proof.
  intros Ha Hc. unfold posixpath.norm_step.
  destruct (String.eqb c "") eqn:Ee; [exact Ha|]. simpl orb.
  destruct (String.eqb c "."); [exact Ha|].
  match goal with |- Forall clean (if ?b then _ else _) => destruct b end.
  - apply Forall_app. split; [exact Ha|]. constructor; [|constructor].
    split; [|exact Hc]. destruct c; [discriminate|reflexivity].
  - destruct (negb _); [now apply Forall_removelast|exact Ha].
Qed.

Lemma fold_norm_clean (k : nat) (l acc : list string) :
  Forall no_sep l -> Forall clean acc ->
  Forall clean (fold_left (posixpath.norm_step k) l acc).
Proof.
  intro Hl. revert acc. induction Hl as [|c r Hc Hr IH]; intros acc Ha; simpl.
  - exact Ha.
  - apply IH. now apply norm_step_clean.
Qed.

Lemma kept_comps_clean (p : string) : Forall clean (kept_comps p).
Proof.
  unfold kept_comps. apply fold_norm_clean; [apply split_sep_no_sep|constructor].
Qed.

Lemma initial_slashes_abs (p : string) :
  Str.startswith_sep p = true -> posixpath.initial_slashes_of p <> 0.
Proof.
  unfold posixpath.initial_slashes_of. intros ->.
  destruct p as [|c [|c2 r]]; try discriminate.
  destruct (Str.is_sep c2 && negb (Str.startswith_sep r)); discriminate.
Qed.

Lemma nonempty_comps_seps (k : nat) (s : string) :
  posixpath.nonempty_comps (Str.seps k ++ s) = posixpath.nonempty_comps s.
Proof.
  induction k as [|k IH]; [reflexivity|].
  unfold posixpath.nonempty_comps in *. simpl. exact IH.
Qed.

Lemma filter_clean (l : list string) :
  Forall clean l -> filter (fun x => negb (Str.is_empty x)) l = l.
Proof.
  induction 1 as [|c l [Hc _] Hl IH]; simpl; [reflexivity|].
  now rewrite Hc, IH.
Qed.

Lemma clean_no_sep (l : list string) : Forall clean l -> Forall no_sep l.
Proof. apply Forall_impl. now intros c [_ H]. Qed.

Lemma nonempty_comps_join (l : list string) :
  Forall clean l -> posixpath.nonempty_comps (Str.join_sep l) = l.
Proof.
  intro H. unfold posixpath.nonempty_comps.
  destruct l as [|a r]; [reflexivity|].
  rewrite split_join; [now apply filter_clean|discriminate|].
  now apply clean_no_sep.
Qed.

(** For a path that begins with a separator, the components of its
    normal form are the components the loop of [normpath] keeps. *)
Lemma nonempty_comps_normpath (p : string) :
  Str.startswith_sep p = true ->
  posixpath.nonempty_comps (posixpath.normpath p) = kept_comps p.
Proof.
  intro H. unfold posixpath.normpath, posixpath.norm_comps.
  destruct p as [|c r]; [discriminate|]. cbn [Str.is_empty].
  pose proof (initial_slashes_abs (String c r) H) as Hk.
  rewrite fold_norm_abs by assumption. fold (kept_comps (String c r)).
  destruct (posixpath.initial_slashes_of (String c r)) as [|k]; [congruence|].
  cbn [Str.seps String.append Str.is_empty].
  change (String Str.sep (Str.seps k ++ Str.join_sep (kept_comps (String c r))))
    with (Str.seps (S k) ++ Str.join_sep (kept_comps (String c r))).
  rewrite nonempty_comps_seps. apply nonempty_comps_join, kept_comps_clean.
Qed.

(** ** [abspath] *)

Lemma abspath_abs_string (C p : string) :
  posixpath.abspath C p = posixpath.normpath (abs_string C p).
Proof.
  unfold posixpath.abspath, abs_string, posixpath.join. simpl fold_left.
  now destruct (posixpath.isabs p).
Qed.

Lemma join2_rel (p s : string) :
  Str.startswith_sep s = false ->
  posixpath.join2 p s
  = if Str.is_empty p || Str.endswith_sep p then p ++ s
    else p ++ String Str.sep s.
Proof. unfold posixpath.join2. now intros ->. Qed.

Lemma abs_string_abs (C p : string) :
  Str.startswith_sep C = true -> Str.startswith_sep (abs_string C p) = true.
Proof.
  intro HC. unfold abs_string, posixpath.isabs.
  destruct (Str.startswith_sep p) eqn:E; [exact E|].
  rewrite join2_rel by assumption.
  assert (Hne : Str.is_empty C = false) by (destruct C; [discriminate|reflexivity]).
  destruct (Str.is_empty C || Str.endswith_sep C);
    now rewrite startswith_app.
Qed.

Lemma abs_string_app (C a s : string) :
  Str.is_empty a = false -> abs_string C (a ++ s) = abs_string C a ++ s.
Proof.
  intro Ha. unfold abs_string, posixpath.isabs.
  rewrite startswith_app by assumption.
  destruct (Str.startswith_sep a) eqn:E; [reflexivity|].
  rewrite !join2_rel; [| assumption | now rewrite startswith_app].
  destruct (Str.is_empty C || Str.endswith_sep C).
  - now rewrite append_assoc.
  - rewrite append_assoc. reflexivity.
Qed.

Lemma endswith_cons (c : ascii) (a : string) :
  Str.is_empty a = false ->
  Str.endswith_sep (String c a) = Str.endswith_sep a.
Proof. destruct a; [discriminate|reflexivity]. Qed.

Lemma abs_string_endswith (C a : string) :
  Str.is_empty a = false ->
  Str.endswith_sep (abs_string C a) = Str.endswith_sep a.
Proof.
  intro Ha. unfold abs_string, posixpath.isabs.
  destruct (Str.startswith_sep a) eqn:E; [reflexivity|].
  rewrite join2_rel by assumption.
  destruct (Str.is_empty C || Str.endswith_sep C).
  - now apply endswith_app.
  - rewrite endswith_app by reflexivity. now apply endswith_cons.
Qed.

(** ** Paths under a directory *)

Lemma names_no_sep (r : list string) : names r -> Forall no_sep r.
Proof.
  apply Forall_impl. intros c H. apply is_name_inv in H. now destruct H as (_ & H & _).
Qed.

(** The kept components of a path under [A], a path that ends with a
    separator and is [S] followed by separators only. *)
Lemma kept_comps_under (A S : string) (k : nat) (r : list string) :
  A = S ++ Str.seps k -> Str.endswith_sep A = true ->
  names r -> r <> [] ->
  kept_comps (A ++ Str.join_sep r) = (kept_comps S ++ r)%list.
Proof.
  intros HA He Hr Hne.
  destruct (endswith_decomp A He) as [A' HA'].
  assert (H1 : kept_comps A = kept_comps S).
  { unfold kept_comps. rewrite HA, split_app_seps, fold_left_app.
    apply fold_norm_empties. }
  assert (H2 : kept_comps A
               = fold_left (posixpath.norm_step 1) (Str.split_sep A') []).
  { unfold kept_comps. rewrite HA', split_sep_app_sep, fold_left_app.
    reflexivity. }
  unfold kept_comps at 1.
  rewrite HA', append_assoc. cbn [String.append].
  rewrite split_sep_app_sep, fold_left_app.
  rewrite split_join by (assumption || now apply names_no_sep).
  rewrite fold_norm_names by assumption. now rewrite <- H2, H1.
Qed.

Lemma commonprefix_app (l r : list string) :
  posixpath.commonprefix l (l ++ r)%list = l.
Proof.
  induction l as [|a l IH]; simpl; [now destruct r|].
  now rewrite String.eqb_refl, IH.
Qed.

Lemma relpath_under (C path start a : string) (p : list string) :
  Str.startswith_sep C = true ->
  Str.is_empty path = false ->
  kept_comps (abs_string C path)
  = (kept_comps (abs_string C start) ++ a :: p)%list ->
  posixpath.relpath C path start = Some (posixpath.join a p).
Proof.
  intros HC Hp Hk. unfold posixpath.relpath. rewrite Hp.
  rewrite !abspath_abs_string.
  rewrite !nonempty_comps_normpath by now apply abs_string_abs.
  rewrite Hk, commonprefix_app, Nat.sub_diag. cbn [repeat app].
  rewrite skipn_app, skipn_all, Nat.sub_diag. reflexivity.
Qed.

(** ** [join] on names *)

Lemma join_sep_names (r : list string) :
  names r -> r <> [] ->
  Str.startswith_sep (Str.join_sep r) = false
  /\ Str.is_empty (Str.join_sep r) = false.
Proof.
  intros Hr Hne. destruct r as [|a r]; [congruence|].
  inversion Hr as [|? ? Ha _]; subst.
  apply is_name_inv in Ha. destruct Ha as (H1 & H2 & _).
  assert (Hs : Str.startswith_sep a = false) by now apply has_sep_startswith.
  destruct r as [|b r'].
  - now split.
  - rewrite join_sep_cons by discriminate.
    rewrite startswith_app, is_empty_app, H1 by assumption. now split.
Qed.

Lemma name_not_endswith (a : string) :
  is_name a = true -> Str.is_empty a || Str.endswith_sep a = false.
Proof.
  intro H. apply is_name_inv in H. destruct H as (H1 & H2 & _).
  now rewrite H1, endswith_no_sep.
Qed.

Lemma join2_name (p a s : string) :
  is_name a = true -> Str.startswith_sep s = false ->
  posixpath.join2 (posixpath.join2 p a) s
  = posixpath.join2 p (a ++ String Str.sep s).
Proof.
  intros Ha Hs. pose proof (name_not_endswith a Ha) as He.
  apply is_name_inv in Ha. destruct Ha as (H1 & H2 & _).
  assert (Hsa : Str.startswith_sep a = false) by now apply has_sep_startswith.
  apply orb_false_iff in He. destruct He as [_ He].
  rewrite (join2_rel p a Hsa).
  rewrite (join2_rel p (a ++ String Str.sep s))
    by now rewrite startswith_app.
  destruct (Str.is_empty p || Str.endswith_sep p).
  - rewrite join2_rel by assumption.
    rewrite is_empty_app, H1, andb_false_r, endswith_app, He by assumption.
    cbn [orb]. now rewrite append_assoc.
  - rewrite join2_rel by assumption.
    rewrite is_empty_app, andb_false_r, endswith_app by reflexivity.
    rewrite endswith_cons, He by assumption.
    cbn [orb]. now rewrite append_assoc.
Qed.

Lemma join_names (r : list string) (p : string) :
  names r -> r <> [] ->
  posixpath.join p r = posixpath.join2 p (Str.join_sep r).
Proof.
  intro Hr. revert p. induction Hr as [|a r Ha Hr IH]; [congruence|].
  intros p _. destruct r as [|b r']; [reflexivity|].
  change (posixpath.join p (a :: b :: r'))
    with (posixpath.join (posixpath.join2 p a) (b :: r')).
  rewrite IH by discriminate.
  rewrite (@join_sep_cons a (b :: r')) by discriminate.
  apply join2_name; [exact Ha|].
  now apply join_sep_names.
Qed.

Lemma join_trailing (item : string) (r : list string) :
  Str.endswith_sep item = true -> names r -> r <> [] ->
  posixpath.join item r = item ++ Str.join_sep r.
Proof.
  intros He Hr Hne. rewrite join_names by assumption.
  rewrite join2_rel by now apply join_sep_names.
  now rewrite He, orb_true_r.
Qed.

Lemma join_plain (item : string) (r : list string) :
  Str.is_empty item = false -> Str.endswith_sep item = false ->
  names r -> r <> [] ->
  posixpath.join item r = item ++ String Str.sep (Str.join_sep r).
Proof.
  intros H1 H2 Hr Hne. rewrite join_names by assumption.
  rewrite join2_rel by now apply join_sep_names.
  now rewrite H1, H2.
Qed.

Lemma join_names_sep (a : string) (p : list string) :
  names (a :: p) -> posixpath.join a p = Str.join_sep (a :: p).
Proof.
  intro H. inversion H as [|? ? Ha Hp]; subst.
  destruct p as [|b p']; [reflexivity|].
  pose proof (name_not_endswith a Ha) as He.
  apply orb_false_iff in He. destruct He as [H1 H2].
  rewrite join_plain by (assumption || discriminate).
  now rewrite (@join_sep_cons a (b :: p')) by discriminate.
Qed.

(** ** The names [zipfile] stores *)

Lemma lstrip_rel (s : string) :
  Str.startswith_sep s = false -> Str.lstrip_sep s = s.
Proof. destruct s as [|c r]; [reflexivity|]. simpl. now intros ->. Qed.

Lemma normpath_names (r : list string) :
  names r -> r <> [] -> posixpath.normpath (Str.join_sep r) = Str.join_sep r.
Proof.
  intros Hr Hne. destruct (join_sep_names Hr Hne) as [Hs He].
  unfold posixpath.normpath, posixpath.norm_comps, posixpath.initial_slashes_of.
  rewrite He, Hs.
  rewrite split_join by (assumption || now apply names_no_sep).
  rewrite fold_norm_names by assumption.
  cbn [Str.seps String.append app]. now rewrite He.
Qed.

Lemma zip_arcname_names (r : list string) :
  names r -> r <> [] -> zip_arcname (Str.join_sep r) = Some (Str.join_sep r).
Proof.
  intros Hr Hne. destruct (join_sep_names Hr Hne) as [Hs He].
  unfold zip_arcname. rewrite normpath_names by assumption.
  now rewrite lstrip_rel, He.
Qed.

(** ** [relpath] from a directory to a file under it *)

Lemma getcwd_abs (w : World) : Str.startswith_sep (getcwd w) = true.
Proof. reflexivity. Qed.

Lemma endswith_not_empty (s : string) :
  Str.endswith_sep s = true -> Str.is_empty s = false.
Proof. destruct s; [discriminate|reflexivity]. Qed.

(** The [dirname] of a path that ends with a separator is the path
    without its trailing separators, or the path itself when it has
    nothing else. *)
Lemma dirname_trailing (item : string) :
  Str.endswith_sep item = true ->
  posixpath.dirname item
  = if Str.all_sep item then item else Str.rstrip_sep item.
Proof.
  intro He. rewrite dirname_head.
  destruct (head_tail_trailing item He) as [-> _].
  rewrite (endswith_not_empty item He). cbn [negb andb].
  now destruct (Str.all_sep item).
Qed.

Lemma dirname_trailing_decomp (item : string) :
  Str.endswith_sep item = true ->
  exists k,
    item = posixpath.dirname item ++ Str.seps k
    /\ Str.is_empty (posixpath.dirname item) = false.
Proof.
  intro He. rewrite dirname_trailing by assumption.
  destruct (Str.all_sep item) eqn:Ea.
  - exists 0. cbn [Str.seps]. rewrite append_nil_r.
    split; [reflexivity|now apply endswith_not_empty].
  - destruct (rstrip_decomp item) as [k Hk]. exists k.
    split; [exact Hk|now apply rstrip_not_empty].
Qed.

Lemma relpath_trailing (C item : string) (r : list string) :
  Str.startswith_sep C = true -> Str.endswith_sep item = true ->
  names r -> r <> [] ->
  posixpath.relpath C (posixpath.join item r) (posixpath.dirname item)
  = Some (Str.join_sep r).
Proof.
  intros HC He Hr Hne. rewrite join_trailing by assumption.
  pose proof (endswith_not_empty item He) as Hi.
  destruct (dirname_trailing_decomp item He) as (k & Hk & Hd).
  destruct r as [|a p]; [congruence|].
  rewrite <- (join_names_sep Hr).
  apply relpath_under; [exact HC|now rewrite is_empty_app, Hi|].
  rewrite (join_names_sep Hr).
  rewrite abs_string_app by assumption.
  apply kept_comps_under with (k := k); try assumption.
  - rewrite Hk at 1. now apply abs_string_app.
  - now rewrite abs_string_endswith.
Qed.

Lemma abs_string_rel (C s : string) :
  Str.startswith_sep s = false -> abs_string C s = abs_string C "" ++ s.
Proof.
  intro Hs. unfold abs_string, posixpath.isabs. rewrite Hs. cbn [Str.startswith_sep].
  rewrite !join2_rel by (assumption || reflexivity).
  destruct (Str.is_empty C || Str.endswith_sep C).
  - now rewrite append_nil_r.
  - now rewrite append_assoc.
Qed.

Lemma abs_string_empty_endswith (C : string) :
  Str.startswith_sep C = true -> Str.endswith_sep (abs_string C "") = true.
Proof.
  intro HC. unfold abs_string, posixpath.isabs. cbn [Str.startswith_sep].
  rewrite join2_rel by reflexivity.
  assert (Hne : Str.is_empty C = false) by (destruct C; [discriminate|reflexivity]).
  rewrite Hne. cbn [orb]. destruct (Str.endswith_sep C) eqn:E.
  - now rewrite append_nil_r.
  - now rewrite endswith_app.
Qed.

Lemma dirname_of_head (item : string) :
  Str.endswith_sep (head_of item) = true ->
  posixpath.dirname item = posixpath.dirname (head_of item).
Proof.
  intro He. rewrite (dirname_head (head_of item)).
  destruct (head_tail_trailing (head_of item) He) as [-> _].
  apply dirname_head.
Qed.

Lemma relpath_plain (C item : string) (r : list string) :
  Str.startswith_sep C = true -> is_name (tail_of item) = true ->
  names r -> r <> [] ->
  posixpath.relpath C (posixpath.join item r) (posixpath.dirname item)
  = Some (Str.join_sep (tail_of item :: r)).
Proof.
  intros HC Ht Hr Hne.
  assert (Hn : names (tail_of item :: r)) by now constructor.
  destruct (head_tail_spec item) as (Hi & _ & Hh).
  pose proof (name_not_endswith _ Ht) as Hte.
  apply orb_false_iff in Hte. destruct Hte as [Ht1 Ht2].
  assert (Hie : Str.is_empty item = false).
  { rewrite Hi, is_empty_app, Ht1. apply andb_false_r. }
  assert (Hiw : Str.endswith_sep item = false).
  { rewrite Hi, endswith_app; assumption. }
  rewrite join_plain by assumption.
  assert (Hp : item ++ String Str.sep (Str.join_sep r)
               = head_of item ++ Str.join_sep (tail_of item :: r)).
  { rewrite Hi at 1. rewrite append_assoc.
    now rewrite (join_sep_cons (tail_of item) Hne). }
  rewrite Hp. destruct Hh as [Hh|Hh].
  - rewrite dirname_head, Hh. cbn [Str.is_empty negb andb String.append].
    rewrite <- (join_names_sep Hn).
    apply relpath_under; [exact HC| |].
    + rewrite (join_names_sep Hn). now apply join_sep_names.
    + rewrite (join_names_sep Hn).
      rewrite abs_string_rel by now apply join_sep_names.
      apply kept_comps_under with (k := 0);
        [cbn [Str.seps]; now rewrite append_nil_r
        |now apply abs_string_empty_endswith|exact Hn|discriminate].
  - rewrite dirname_of_head by assumption.
    rewrite <- join_trailing by (assumption || discriminate).
    apply relpath_trailing; (assumption || discriminate).
Qed.

(** ** Locations below a directory *)

Lemma get_app (n : node) (a b : list string) :
  get n (a ++ b)
  = match get n a with
    | Some m => get m b
    | None => None
    end.
Proof.
  revert n. induction a as [|c a IH]; intro n; [reflexivity|].
  cbn [app get]. destruct n as [rd d|es]; [reflexivity|].
  destruct (lookup c es) as [m|]; [apply IH|reflexivity].
Qed.

Lemma canon_app (root : node) (l1 l2 acc : list string) :
  canon root (l1 ++ l2) acc
  = match canon root l1 acc with
    | Some a => canon root l2 a
    | None => None
    end.
Proof.
  revert acc. induction l1 as [|c l1 IH]; intro acc; [reflexivity|].
  cbn [app canon]. destruct (is_dir (get root acc)); [|reflexivity].
  destruct (String.eqb c "" || String.eqb c "."); [apply IH|].
  destruct (String.eqb c ".."); [apply IH|].
  destruct (get root (acc ++ [c])); [apply IH|reflexivity].
Qed.

Lemma canon_name (root : node) (c : string) (acc : list string) :
  is_name c = true ->
  canon root [c] acc
  = if is_dir (get root acc) then
      match get root (acc ++ [c]) with
      | Some _ => Some (acc ++ [c])%list
      | None => None
      end
    else None.
Proof.
  intro H. pose proof (is_name_not_empty_eqb c H) as He.
  apply is_name_inv in H. destruct H as (_ & _ & H3 & H4).
  cbn [canon]. now rewrite He, H3, H4.
Qed.

(** Resolution goes on below a directory along names that exist. *)
Lemma canon_below (root n x : node) (r loc : list string) :
  get root loc = Some n -> names r -> get n r = Some x ->
  canon root r loc = Some (loc ++ r)%list
  /\ get root (loc ++ r) = Some x.
Proof.
  intros Hl Hr. revert n loc Hl.
  induction Hr as [|c r Hc Hr IH]; intros n loc Hl Hx.
  - cbn [get] in Hx. rewrite app_nil_r. split; [reflexivity|congruence].
  - cbn [get] in Hx. destruct n as [rd d|es]; [discriminate|].
    destruct (lookup c es) as [m|] eqn:El; [|discriminate].
    assert (Hm : get root (loc ++ [c]) = Some m).
    { rewrite get_app, Hl. cbn [get]. now rewrite El. }
    destruct (IH m (loc ++ [c])%list Hm Hx) as [H1 H2].
    rewrite <- app_assoc in H1, H2. cbn [app] in H1, H2.
    split; [|exact H2].
    change (c :: r) with ([c] ++ r)%list at 1.
    rewrite canon_app, canon_name by assumption.
    rewrite Hl, Hm. cbn [is_dir]. exact H1.
Qed.

Lemma stat_resolves (w : World) (path : string) (n : node) :
  stat w path = Some n <->
  exists loc, resolves w path loc /\ get (fs w) loc = Some n.
Proof.
  unfold stat, resolves. split.
  - destruct (Str.is_empty path); [discriminate|].
    destruct (canon _ _ _) as [loc|]; [|discriminate].
    intro H. now exists loc.
  - intros (loc & [-> ->] & H). exact H.
Qed.

Lemma start_of_app (w : World) (a b : string) :
  Str.is_empty a = false -> start_of w (a ++ b) = start_of w a.
Proof.
  intro H. unfold start_of, posixpath.isabs. now rewrite startswith_app.
Qed.

Lemma split_sep_empty : Str.split_sep "" = [""].
Proof. reflexivity. Qed.

(** A path that ends with a separator and names a directory: the
    components before the last, empty, one lead to the directory. *)
Lemma resolves_trailing (w : World) (item : string) (loc : list string) :
  Str.endswith_sep item = true -> resolves w item loc ->
  exists item',
    item = item' ++ String Str.sep ""
    /\ canon (fs w) (Str.split_sep item') (start_of w item) = Some loc.
Proof.
  intros He [_ Hc]. destruct (endswith_decomp item He) as [item' Hi].
  exists item'. split; [exact Hi|].
  rewrite Hi in Hc at 1. rewrite split_sep_app_sep, canon_app in Hc.
  destruct (canon (fs w) (Str.split_sep item') (start_of w item)) as [a|];
    [|discriminate].
  rewrite split_sep_empty in Hc. cbn [canon] in Hc.
  destruct (is_dir (get (fs w) a)); [|discriminate].
  cbn [String.eqb orb] in Hc. exact Hc.
Qed.

Lemma stat_join_trailing (w : World) (item : string) (n x : node)
    (r : list string) :
  Str.endswith_sep item = true -> stat w item = Some n ->
  names r -> r <> [] -> get n r = Some x ->
  stat w (posixpath.join item r) = Some x.
Proof.
  intros He Hs Hr Hne Hx.
  apply stat_resolves in Hs. destruct Hs as (loc & Hres & Hl).
  pose proof (endswith_not_empty item He) as Hi.
  destruct (resolves_trailing He Hres) as (item' & Hi' & Hc).
  destruct (@canon_below _ _ _ _ _ Hl Hr Hx) as [H1 H2].
  rewrite join_trailing by assumption.
  apply stat_resolves. exists (loc ++ r)%list. split; [|exact H2].
  split; [now rewrite is_empty_app, Hi|].
  rewrite start_of_app by assumption.
  rewrite Hi' at 1. rewrite append_assoc. cbn [String.append].
  rewrite split_sep_app_sep, canon_app, Hc.
  rewrite split_join by (assumption || now apply names_no_sep).
  exact H1.
Qed.

Lemma name_tail_path (item : string) :
  is_name (tail_of item) = true ->
  Str.is_empty item = false /\ Str.endswith_sep item = false.
Proof.
  intro Ht. destruct (head_tail_spec item) as (Hi & _ & _).
  pose proof (name_not_endswith _ Ht) as Hte.
  apply orb_false_iff in Hte. destruct Hte as [Ht1 Ht2].
  split.
  - rewrite Hi, is_empty_app, Ht1. apply andb_false_r.
  - rewrite Hi, endswith_app; assumption.
Qed.

Lemma stat_join_plain (w : World) (item : string) (n x : node)
    (r : list string) :
  is_name (tail_of item) = true -> stat w item = Some n ->
  names r -> r <> [] -> get n r = Some x ->
  stat w (posixpath.join item r) = Some x.
Proof.
  intros Ht Hs Hr Hne Hx.
  apply stat_resolves in Hs. destruct Hs as (loc & [_ Hc] & Hl).
  destruct (name_tail_path item Ht) as [Hi He].
  destruct (@canon_below _ _ _ _ _ Hl Hr Hx) as [H1 H2].
  rewrite join_plain by assumption.
  apply stat_resolves. exists (loc ++ r)%list. split; [|exact H2].
  split; [now rewrite is_empty_app, Hi|].
  rewrite start_of_app by assumption.
  rewrite split_sep_app_sep, canon_app, Hc.
  rewrite split_join by (assumption || now apply names_no_sep).
  exact H1.
Qed.

(** ** The last component of a path that is resolved *)

Lemma get_removelast_dir (root : node) (a : list string) :
  is_dir (get root a) = true -> is_dir (get root (removelast a)) = true.
Proof.
  destruct a as [|c a] using rev_ind; [trivial|].
  rewrite removelast_last, get_app.
  destruct (get root a) as [[rd d|es]|]; cbn [get is_dir]; trivial.
Qed.

Lemma split_last (p : string) :
  Str.split_sep p = (removelast (Str.split_sep p) ++ [tail_of p])%list.
Proof.
  rewrite <- last_split_tail.
  apply app_removelast_last, split_sep_not_nil.
Qed.

Lemma tail_no_sep (p : string) : Str.has_sep (tail_of p) = false.
Proof. now destruct (head_tail_spec p) as (_ & H & _). Qed.

Lemma is_name_intro (c : string) :
  Str.has_sep c = false -> String.eqb c "" = false ->
  String.eqb c "." = false -> String.eqb c ".." = false ->
  is_name c = true.
Proof.
  intros H1 H2 H3 H4. unfold is_name. rewrite H1, H3, H4.
  destruct c; [discriminate|reflexivity].
Qed.

(** The last component of a path that names a file is a name. *)
Lemma file_tail_is_name (w : World) (item : string) :
  is_file (stat w item) = true -> is_name (tail_of item) = true.
Proof.
  destruct (stat w item) as [[rd d|es]|] eqn:Hs; try discriminate.
  intros _. apply stat_resolves in Hs. destruct Hs as (loc & [_ Hc] & Hl).
  rewrite split_last, canon_app in Hc.
  destruct (canon (fs w) (removelast (Str.split_sep item)) (start_of w item))
    as [a|]; [|discriminate].
  cbn [canon] in Hc. destruct (is_dir (get (fs w) a)) eqn:Hd; [|discriminate].
  destruct (String.eqb (tail_of item) "") eqn:E1.
  { cbn [orb] in Hc. injection Hc as <-. rewrite Hl in Hd. discriminate. }
  destruct (String.eqb (tail_of item) ".") eqn:E2.
  { cbn [orb] in Hc. injection Hc as <-. rewrite Hl in Hd. discriminate. }
  destruct (String.eqb (tail_of item) "..") eqn:E3.
  { cbn [orb] in Hc. injection Hc as <-.
    apply get_removelast_dir in Hd. rewrite Hl in Hd. discriminate. }
  apply is_name_intro; [apply tail_no_sep|assumption..].
Qed.

(** A path whose last component is a name is resolved to a location
    that ends with this name. *)
Lemma own_name_tail (w : World) (item : string) (n : node) :
  is_name (tail_of item) = true -> stat w item = Some n ->
  own_name w item = tail_of item.
Proof.
  intros Ht Hs. apply stat_resolves in Hs. destruct Hs as (loc & [_ Hc] & _).
  unfold own_name. rewrite Hc.
  rewrite split_last, canon_app in Hc.
  destruct (canon (fs w) (removelast (Str.split_sep item)) (start_of w item))
    as [a|]; [|discriminate].
  rewrite canon_name in Hc by assumption.
  destruct (is_dir (get (fs w) a)); [|discriminate].
  destruct (get (fs w) (a ++ [tail_of item])); [|discriminate].
  injection Hc as <-. apply last_last.
Qed.

(** ** Loops *)

Lemma for_each_app {A : Type} (l1 l2 : list A) (body : A -> M unit)
    (w : World) :
  for_each (l1 ++ l2) body w = (for_each l1 body ;; for_each l2 body) w.
Proof.
  revert w. induction l1 as [|x l1 IH]; intro w; [reflexivity|].
  cbn [app for_each]. unfold bind.
  destruct (body x w) as [[[]|e] w1]; [|reflexivity].
  rewrite IH. reflexivity.
Qed.

Lemma for_each_map {A B : Type} (f : A -> B) (l : list A)
    (body : B -> M unit) (w : World) :
  for_each (map f l) body w = for_each l (fun x => body (f x)) w.
Proof.
  revert w. induction l as [|x l IH]; intro w; [reflexivity|].
  cbn [map for_each]. unfold bind.
  destruct (body (f x) w) as [[[]|e] w1]; [apply IH|reflexivity].
Qed.

Lemma for_each_ext {A : Type} (l : list A) (b1 b2 : A -> M unit) :
  (forall x w, In x l -> b1 x w = b2 x w) ->
  forall w, for_each l b1 w = for_each l b2 w.
Proof.
  induction l as [|x l IH]; intros H w; [reflexivity|].
  cbn [for_each]. unfold bind. rewrite (H x w) by now left.
  destruct (b2 x w) as [[[]|e] w1]; [|reflexivity].
  apply IH. intros y w' Hy. apply H. now right.
Qed.

(** ** Trees *)

Lemma node_induction (P : node -> Prop) :
  (forall rd d, P (File rd d)) ->
  (forall es, Forall (fun e => P (snd e)) es -> P (Dir es)) ->
  forall n, P n.
Proof.
  intros HF HD. fix IH 1. intros [rd d|es]; [apply HF|]. apply HD.
  induction es as [|[name child] r IHr]; constructor; [apply IH|exact IHr].
Qed.

(** The nested loops of the script over what [os.walk] yields are one
    loop over the files of the tree. *)
Lemma walk_files (body : string -> M unit) (n : node) :
  forall (top : string) (w : World),
    for_each (walk_node top n)
      (fun '(foldername, _, filenames) =>
         for_each filenames
           (fun filename => body (posixpath.join foldername [filename]))) w
    = for_each (tree_files n) (fun r => body (posixpath.join top r)) w.
Proof.
  induction n as [rd d|es IH] using node_induction; intros top w;
    [reflexivity|].
  cbn [walk_node tree_files for_each].
  rewrite for_each_app. unfold bind at 1 2.
  rewrite for_each_map.
  match goal with
  | |- match ?m w with _ => _ end = _ => destruct (m w) as [[[]|e] w1]
  end; [|reflexivity].
  clear w. revert w1.
  induction IH as [|[name child] r Hc Hr IHr]; intro w; [reflexivity|].
  cbn [snd] in Hc.
  rewrite !for_each_app. unfold bind.
  rewrite Hc, for_each_map.
  change (fun x : list string => body (posixpath.join top (name :: x)))
    with (fun r : list string =>
            body (posixpath.join (posixpath.join top [name]) r)).
  destruct (for_each (tree_files child) _ w) as [[[]|e] w1]; [|reflexivity].
  apply IHr.
Qed.

Lemma mem_In (s : string) (l : list string) : mem s l = true <-> In s l.
Proof.
  unfold mem. rewrite existsb_exists. split.
  - intros (x & Hx & E). apply String.eqb_eq in E. now subst.
  - intro H. exists s. split; [exact H|apply String.eqb_refl].
Qed.

(** In a well-formed directory every entry is named by a name, is
    well formed, and is the one its name is looked up to. *)
Lemma wf_entries (es : list (string * node)) (name : string) (child : node) :
  wf_node (Dir es) = true -> In (name, child) es ->
  is_name name = true /\ wf_node child = true
  /\ lookup name es = Some child.
Proof.
  induction es as [|[n0 c0] r IH]; [contradiction|].
  cbn [wf_node]. fold (wf_node (Dir r)).
  rewrite !andb_true_iff, negb_true_iff.
  intros [[[H1 H2] H3] H4] [E|Hin].
  - injection E as -> ->. cbn [lookup]. now rewrite String.eqb_refl.
  - destruct (IH H4 Hin) as (I1 & I2 & I3).
    split; [exact I1|]. split; [exact I2|]. cbn [lookup].
    destruct (String.eqb n0 name) eqn:E; [|exact I3].
    apply String.eqb_eq in E. subst n0.
    assert (Hm : mem name (map fst r) = true).
    { apply mem_In. apply (in_map fst) in Hin. exact Hin. }
    congruence.
Qed.

Lemma filenames_of_In (es : list (string * node)) (f : string) :
  In f (filenames_of es) ->
  exists rd d, In (f, File rd d) es.
Proof.
  unfold filenames_of. rewrite in_map_iff.
  intros ([n x] & <- & H). apply filter_In in H. destruct H as [H1 H2].
  destruct x as [rd d|es']; [|discriminate]. now exists rd, d.
Qed.

(** What [tree_files] lists in a well-formed tree are the locations
    of its files. *)
Lemma tree_files_spec (n : node) :
  wf_node n = true ->
  forall r, In r (tree_files n) ->
    names r /\ r <> [] /\ exists rd d, get n r = Some (File rd d).
Proof.
  induction n as [rd d|es IH] using node_induction; [contradiction|].
  intros Hwf r. cbn [tree_files]. rewrite in_app_iff, in_map_iff.
  intros [(f & <- & Hf)|Hr].
  - apply filenames_of_In in Hf. destruct Hf as (rd & d & Hin).
    destruct (wf_entries _ _ _ Hwf Hin) as (H1 & _ & H3).
    split; [now repeat constructor|]. split; [discriminate|].
    exists rd, d. cbn [get]. now rewrite H3.
  - assert (G : forall l, (forall e, In e l -> In e es) ->
                Forall (fun e => wf_node (snd e) = true ->
                          forall r, In r (tree_files (snd e)) ->
                            names r /\ r <> []
                            /\ exists rd d, get (snd e) r = Some (File rd d)) l ->
                In r ((fix below (l : list (string * node)) : list (list string) :=
                         match l with
                         | [] => []
                         | (name, child) :: r =>
                             (map (cons name) (tree_files child) ++ below r)%list
                         end) l) ->
                names r /\ r <> [] /\ exists rd d, get (Dir es) r = Some (File rd d)).
    { induction l as [|[name child] l IHl]; intros Hsub Hall Hin;
        [contradiction|].
      inversion Hall as [|? ? Hc Hl]; subst. cbn [snd] in Hc.
      apply in_app_iff in Hin. destruct Hin as [Hin|Hin].
      - apply in_map_iff in Hin. destruct Hin as (r' & <- & Hr').
        destruct (wf_entries _ _ _ Hwf (Hsub _ (or_introl eq_refl)))
          as (H1 & H2 & H3).
        destruct (Hc H2 r' Hr') as (N1 & _ & rd & d & N3).
        split; [now constructor|]. split; [discriminate|].
        exists rd, d. cbn [get]. now rewrite H3.
      - apply IHl; [|exact Hl|exact Hin].
        intros e He. apply Hsub. now right. }
    apply (G es); [trivial|exact IH|exact Hr].
Qed.

(** ** Writing entries *)

Lemma same_files_refl (w : World) : same_files w w.
Proof. now split. Qed.

Lemma same_files_trans (w0 w1 w2 : World) :
  same_files w0 w1 -> same_files w1 w2 -> same_files w0 w2.
Proof. intros [H1 H2] [H3 H4]. split; congruence. Qed.

Lemma same_files_stat (w0 w : World) (p : string) :
  same_files w0 w -> stat w p = stat w0 p.
Proof.
  intros [H1 H2]. unfold stat, start_of. now rewrite H1, H2.
Qed.

Lemma same_files_getcwd (w0 w : World) :
  same_files w0 w -> getcwd w = getcwd w0.
Proof. intros [_ H]. unfold getcwd. now rewrite H. Qed.

Lemma same_files_own_name (w0 w : World) (p : string) :
  same_files w0 w -> own_name w p = own_name w0 p.
Proof.
  intros [H1 H2]. unfold own_name, start_of. now rewrite H1, H2.
Qed.

Lemma zf_add_entries (a : string) (d : blob) (w w1 : World) :
  zf_add a d w = (Ok tt, w1) ->
  same_files w w1 /\ entries_of w1 = (entries_of w ++ [(a, d)])%list.
Proof.
  unfold zf_add, entries_of. destruct (zf w) as [z|]; [|discriminate].
  intros [= <-]. split; [now split|reflexivity].
Qed.

Lemma zf_write_file (f a a' : string) (rd : bool) (d : blob)
    (w w1 : World) :
  stat w f = Some (File rd d) -> zip_arcname a = Some a' ->
  zf_write f a w = (Ok tt, w1) ->
  same_files w w1 /\ entries_of w1 = (entries_of w ++ [(a', d)])%list.
Proof.
  intros Hs Ha. unfold zf_write. rewrite Hs, Ha.
  destruct rd; [apply zf_add_entries|discriminate].
Qed.

Lemma for_each_entries {A : Type} (l : list A) (body : A -> M unit)
    (g : A -> list (string * blob)) (w0 : World) :
  (forall x w w',
     In x l -> same_files w0 w -> body x w = (Ok tt, w') ->
     same_files w0 w' /\ entries_of w' = (entries_of w ++ g x)%list) ->
  forall w w',
    same_files w0 w -> for_each l body w = (Ok tt, w') ->
    same_files w0 w'
    /\ entries_of w' = (entries_of w ++ flat_map g l)%list.
Proof.
  induction l as [|x l IH]; intros H w w' Hw.
  - intros [= <-]. now rewrite app_nil_r.
  - cbn [for_each flat_map]. unfold bind.
    destruct (body x w) as [[[]|e] w1] eqn:E; [|discriminate].
    intro Hl. destruct (H x w w1 (or_introl eq_refl) Hw E) as [S1 E1].
    destruct (IH (fun y v v' Hy => H y v v' (or_intror Hy)) w1 w' S1 Hl)
      as [S2 E2].
    split; [exact S2|]. now rewrite E2, E1, <- app_assoc.
Qed.

(** ** The entries an item contributes *)

Lemma add_item_dir (item : string) (es : list (string * node)) (w : World) :
  stat w item = Some (Dir es) ->
  add_item item w
  = (for_each (tree_files (Dir es))
       (fun r =>
          arcname <- os_path_relpath (posixpath.join item r)
                       (posixpath.dirname item) ;;
          zf_write (posixpath.join item r) arcname) ;;
     print ("  - 已添加文件夹: " ++ item)) w.
Proof.
  intro Hs. unfold add_item, os_path_isfile, os_path_isdir.
  unfold bind at 1. rewrite Hs. cbn [is_file].
  unfold bind at 1. rewrite Hs. cbn [is_dir].
  unfold bind at 1. unfold os_walk at 1. rewrite Hs.
  unfold bind at 1.
  rewrite (walk_files
             (fun p =>
                arcname <- os_path_relpath p (posixpath.dirname item) ;;
                zf_write p arcname) (Dir es) item w).
  reflexivity.
Qed.

(** The entries of a directory item, given where [relpath] and [stat]
    lead for the files below it. *)
Lemma add_item_dir_entries (item : string) (pre : list string)
    (es : list (string * node)) (w w1 : World) :
  stat w item = Some (Dir es) -> wf_node (Dir es) = true ->
  (forall r, names r -> r <> [] ->
     posixpath.relpath (getcwd w) (posixpath.join item r)
       (posixpath.dirname item)
     = Some (Str.join_sep (pre ++ r))) ->
  (forall r x, names r -> r <> [] -> get (Dir es) r = Some x ->
     stat w (posixpath.join item r) = Some x) ->
  names pre ->
  add_item item w = (Ok tt, w1) ->
  same_files w w1
  /\ entries_of w1 = (entries_of w ++ dir_entries pre (Dir es))%list.
Proof.
  intros Hs Hwf Hrel Hstat Hpre. rewrite (@add_item_dir item es w Hs).
  unfold bind at 1.
  destruct (for_each (tree_files (Dir es)) _ w) as [[[]|e] w2] eqn:E;
    [|discriminate].
  unfold print. intros [= <-].
  assert (K : same_files w w2
              /\ entries_of w2
                 = (entries_of w
                    ++ flat_map
                         (fun r => [(Str.join_sep (pre ++ r),
                                     data_at (Dir es) r)])
                         (tree_files (Dir es)))%list).
  { eapply for_each_entries; [|apply same_files_refl|exact E].
    intros r v v' Hin Hv. cbv beta.
    destruct (@tree_files_spec (Dir es) Hwf r Hin) as (N1 & N2 & rd & d & N3).
    unfold bind, os_path_relpath.
    rewrite (@same_files_getcwd w v Hv), (Hrel r N1 N2).
    intro Hz.
    assert (Hsv : stat v (posixpath.join item r) = Some (File rd d)).
    { rewrite (@same_files_stat w v _ Hv). now apply Hstat. }
    assert (Hn : names (pre ++ r)) by now apply Forall_app.
    assert (Hne : (pre ++ r)%list <> []).
    { intro H. apply app_eq_nil in H. now destruct H. }
    destruct (@zf_write_file _ _ _ _ _ _ _ Hsv (@zip_arcname_names _ Hn Hne) Hz)
      as [S2 E2].
    split; [now apply same_files_trans with v|].
    unfold data_at. now rewrite N3. }
  destruct K as [S1 E1]. split; [exact S1|].
  unfold entries_of in E1 |- *. cbn [zf set_stdout].
  rewrite E1. unfold dir_entries. f_equal.
Qed.

Lemma add_item_file_entries (item : string) (rd : bool) (d : blob)
    (w w1 : World) :
  stat w item = Some (File rd d) ->
  add_item item w = (Ok tt, w1) ->
  same_files w w1
  /\ entries_of w1 = (entries_of w ++ [(posixpath.basename item, d)])%list.
Proof.
  intros Hs. unfold add_item, os_path_isfile.
  unfold bind at 1. rewrite Hs. cbn [is_file].
  unfold bind, print.
  destruct (zf_write item (posixpath.basename item) w) as [[[]|e] w2] eqn:E;
    [|discriminate].
  intros [= <-].
  assert (Ht : is_name (tail_of item) = true).
  { apply (@file_tail_is_name w item). now rewrite Hs. }
  assert (Hn : names [posixpath.basename item]).
  { rewrite basename_tail. now repeat constructor. }
  pose proof (@zip_arcname_names _ Hn) as Hz. cbn [Str.join_sep] in Hz.
  destruct (@zf_write_file _ _ _ _ _ _ _ Hs (Hz ltac:(discriminate)) E)
    as [S1 E1].
  split; [exact S1|exact E1].
Qed.

(** ** The archive of a successful run *)

Lemma archiving_world_name (name : string) (w : World) :
  is_name name = true ->
  is_dir (get (fs w) (cwd w)) = true ->
  is_dir (get (fs w) (cwd w ++ [name])) = false ->
  ZipFile_open name w
  = (Ok tt,
     set_zf (put w name (Some (File true (Bytes ""))))
       (Some {| zf_loc := (cwd w ++ [name])%list; zf_entries := [] |})).
Proof.
  intros Hn Hd Hf. unfold ZipFile_open.
  rewrite locate_name by assumption. now rewrite Hd, Hf.
Qed.

Lemma create_unencrypted_zip_entries (items : list string) (name : string)
    (w w1 : World) :
  is_name name = true ->
  create_unencrypted_zip items name w = (Ok true, w1) ->
  exists wo w2,
    same_files (archiving_world name w) wo
    /\ entries_of wo = []
    /\ for_each items add_item wo = (Ok tt, w2)
    /\ stat w1 name = Some (File true (ZipOf (entries_of w2))).
Proof.
  intros Hn. rewrite create_unencrypted_zip_loop. cbv zeta.
  set (w0 := set_stdout w _).
  unfold archiving_world, ZipFile_open.
  change (locate w0 name) with (locate w name).
  rewrite locate_name by assumption.
  change (fs w0) with (fs w).
  destruct (is_dir (get (fs w) (cwd w))) eqn:Hd; [|discriminate].
  destruct (is_dir (get (fs w) (cwd w ++ [name])%list)); [discriminate|].
  set (wo := set_zf (set_fs w0 _) _).
  pose proof (for_each_add_item_keeps fs items
                (fun _ _ => eq_refl) (fun _ _ _ _ => eq_refl) wo) as Kfs.
  pose proof (for_each_add_item_keeps cwd items
                (fun _ _ => eq_refl) (fun _ _ _ _ => eq_refl) wo) as Kcwd.
  assert (Kloc : exists z, zf (snd (for_each items add_item wo)) = Some z
                           /\ zf_loc z = (cwd w ++ [name])%list).
  { pose proof (for_each_add_item_keeps
                  (fun w => option_map zf_loc (zf w)) items
                  (fun _ _ => eq_refl)) as K.
    specialize (K (fun w z es E => eq_trans eq_refl
                     (eq_sym (f_equal (option_map zf_loc) E))) wo).
    simpl in K. destruct (zf (snd (for_each items add_item wo))) as [z|];
      [|discriminate].
    exists z. split; [reflexivity|]. now injection K. }
  destruct (for_each items add_item wo) as [r w2] eqn:El.
  simpl in Kfs, Kcwd, Kloc.
  destruct Kloc as (z & Ez & Eloc).
  unfold ZipFile_close. rewrite Ez, Eloc.
  destruct r as [[]|e]; [|discriminate].
  intros [= <-]. exists wo, w2.
  split; [now split|]. split; [reflexivity|]. split; [exact El|].
  unfold entries_of. rewrite Ez.
  rewrite stat_name by assumption. simpl. rewrite Kfs, Kcwd. simpl.
  rewrite is_dir_get_set_at.
  change (set_at (cwd w ++ [name]) (Some (File true (ZipOf (zf_entries z))))
            (set_at (cwd w ++ [name]) (Some (File true (Bytes ""))) (fs w)))
    with (fs (put (put w name (Some (File true (Bytes ""))))
                name (Some (File true (ZipOf (zf_entries z)))))).
  rewrite is_dir_get_set_at, Hd.
  simpl. apply get_set_at_same. now rewrite is_dir_get_set_at.
Qed.

Lemma lookup_In (name : string) (es : list (string * node)) (m : node) :
  lookup name es = Some m -> In (name, m) es.
Proof.
  induction es as [|[n0 c0] r IH]; [discriminate|]. cbn [lookup].
  destruct (String.eqb n0 name) eqn:E.
  - apply String.eqb_eq in E. intros [= ->]. left. now subst.
  - intro H. right. now apply IH.
Qed.

Lemma wf_get (n m : node) (loc : list string) :
  wf_node n = true -> get n loc = Some m -> wf_node m = true.
Proof.
  revert n. induction loc as [|c r IH]; intros n Hwf.
  - now intros [= <-].
  - cbn [get]. destruct n as [rd d|es]; [discriminate|].
    destruct (lookup c es) as [x|] eqn:El; [|discriminate].
    apply lookup_In in El.
    destruct (@wf_entries es c x Hwf El) as (_ & Hx & _).
    now apply IH.
Qed.

Lemma wf_stat (w : World) (path : string) (n : node) :
  wf_node (fs w) = true -> stat w path = Some n -> wf_node n = true.
Proof.
  intros Hwf Hs. apply stat_resolves in Hs. destruct Hs as (loc & _ & Hl).
  exact (@wf_get (fs w) n loc Hwf Hl).
Qed.

(** A directory item given by a path that ends with a separator. *)
Lemma add_item_trailing (item : string) (es : list (string * node))
    (w w1 : World) :
  Str.endswith_sep item = true ->
  stat w item = Some (Dir es) -> wf_node (Dir es) = true ->
  add_item item w = (Ok tt, w1) ->
  same_files w w1
  /\ entries_of w1 = (entries_of w ++ dir_entries [] (Dir es))%list.
Proof.
  intros He Hs Hwf. apply add_item_dir_entries; try assumption.
  - intros r Hr Hne. cbn [app].
    apply relpath_trailing; (assumption || apply getcwd_abs).
  - intros r x Hr Hne Hx.
    exact (@stat_join_trailing w item (Dir es) x r He Hs Hr Hne Hx).
  - constructor.
Qed.

(** A directory item given by a path whose last component is a name. *)
Lemma add_item_plain (item : string) (es : list (string * node))
    (w w1 : World) :
  is_name (tail_of item) = true ->
  stat w item = Some (Dir es) -> wf_node (Dir es) = true ->
  add_item item w = (Ok tt, w1) ->
  same_files w w1
  /\ entries_of w1
     = (entries_of w ++ dir_entries [tail_of item] (Dir es))%list.
Proof.
  intros Ht Hs Hwf. apply add_item_dir_entries; try assumption.
  - intros r Hr Hne. cbn [app].
    apply relpath_plain; (assumption || apply getcwd_abs).
  - intros r x Hr Hne Hx.
    exact (@stat_join_plain w item (Dir es) x r Ht Hs Hr Hne Hx).
  - now repeat constructor.
Qed.

Lemma add_item_claimed (w0 : World) (item : string) (w w' : World) :
  wf_node (fs w0) = true ->
  (is_dir (stat w0 item) = true -> is_name (posixpath.basename item) = true) ->
  same_files w0 w -> add_item item w = (Ok tt, w') ->
  same_files w0 w'
  /\ entries_of w' = (entries_of w ++ claimed_entries w0 item)%list.
Proof.
  intros Hwf Hdir Hw Ha. unfold claimed_entries.
  pose proof (@same_files_stat w0 w item Hw) as Hs.
  destruct (stat w0 item) as [[rd d|es]|] eqn:E0.
  - destruct (@add_item_file_entries item rd d w w' Hs Ha) as [S1 E1].
    split; [now apply same_files_trans with w|exact E1].
  - specialize (Hdir eq_refl). rewrite basename_tail in Hdir.
    assert (Hes : wf_node (Dir es) = true) by exact (@wf_stat w0 item _ Hwf E0).
    destruct (@add_item_plain item es w w' Hdir Hs Hes Ha) as [S1 E1].
    split; [now apply same_files_trans with w|].
    now rewrite (@own_name_tail w0 item (Dir es) Hdir E0).
  - rewrite add_item_missing in Ha by now rewrite Hs.
    injection Ha as <-. split; [exact Hw|now rewrite app_nil_r].
Qed.

(** C10.  A source item that is a directory and is given with a
    trailing separator: [dirname] only takes the trailing separators
    off, so that it names the directory itself and not its parent;
    the path [relpath] computes for a file below the directory is the
    location of the file in the directory; and the entries the item
    adds to the archive are the files of the tree, each under its
    location in the directory, without the name of the directory in
    front. *)
Theorem trailing_separator_drops_directory_name (item : string)
    (es : list (string * node)) (w w1 : World) :
  Str.endswith_sep item = true ->
  stat w item = Some (Dir es) ->
  wf_node (Dir es) = true ->
  add_item item w = (Ok tt, w1) ->
  posixpath.dirname item
  = (if Str.all_sep item then item else Str.rstrip_sep item)
  /\ (forall r, names r -> r <> [] ->
        posixpath.relpath (getcwd w) (posixpath.join item r)
          (posixpath.dirname item)
        = Some (Str.join_sep r))
  /\ entries_of w1 = (entries_of w ++ dir_entries [] (Dir es))%list.
Proof.
  intros He Hs Hwf Ha. split; [now apply dirname_trailing|]. split.
  - intros r Hr Hne. apply relpath_trailing; (assumption || apply getcwd_abs).
  - exact (proj2 (@add_item_trailing item es w w1 He Hs Hwf Ha)).
Qed.

(** The directory [data] of the example, given as [data/]: its two
    files are stored as [a.txt] and [sub/b.txt]. *)
Lemma trailing_separator_drops_directory_name_example :
  entries_of (snd (add_item "data/" (archiving_world "b.zip" example_world)))
  = [("a.txt", Bytes "hello"); ("sub/b.txt", Bytes "bye")].
Proof.
  destruct (@trailing_separator_drops_directory_name "data/"
              [("a.txt", File true (Bytes "hello"));
               ("sub", Dir [("b.txt", File true (Bytes "bye"))])]
              (archiving_world "b.zip" example_world)
              (snd (add_item "data/" (archiving_world "b.zip" example_world))))
    as (_ & _ & H).
  - reflexivity.
  - vm_compute. reflexivity.
  - reflexivity.
  - vm_compute. reflexivity.
  - rewrite H. vm_compute. reflexivity.
Defined.

(** C3 (amended).  On a well-formed file system, when the archive is
    named by a name and every source item that is a directory is given
    by a path whose last component is a name (no trailing separator,
    neither [.] nor [..]), the archive of a successful run holds, item
    by item and in this order: for a regular file one entry under its
    base name; for a directory one entry for every file of its tree,
    under the name of the directory followed by the location of the
    file in it; for an item that is neither, nothing. *)
Theorem archive_entries_by_name (items : list string) (archive_name : string)
    (w : World) :
  let wa := archiving_world archive_name w in
  is_name archive_name = true ->
  wf_node (fs wa) = true ->
  (forall item,
     In item items -> is_dir (stat wa item) = true ->
     is_name (posixpath.basename item) = true) ->
  stores_under_directory_name items archive_name w.
Proof.
  intros wa Hn Hwf Hdirs w1 Hc.
  destruct (@create_unencrypted_zip_entries items archive_name w w1 Hn Hc)
    as (wo & w2 & Hwo & Heo & Hl & Hs).
  rewrite Hs. do 3 f_equal.
  assert (K : same_files wa w2
              /\ entries_of w2
                 = (entries_of wo ++ flat_map (claimed_entries wa) items)%list).
  { eapply for_each_entries; [|exact Hwo|exact Hl].
    intros item v v' Hin Hv Ha.
    apply (@add_item_claimed wa item v v' Hwf (Hdirs item Hin) Hv Ha). }
  destruct K as [_ K]. now rewrite K, Heo.
Qed.

(** The example world with [data] and [notes.log] as items: three
    entries, those of the directory under [data/]. *)
Lemma archive_entries_by_name_example :
  stat (snd (create_unencrypted_zip ["data"; "notes.log"] "b.zip"
               example_world)) "b.zip"
  = Some (File true
            (ZipOf [("data/a.txt", Bytes "hello");
                    ("data/sub/b.txt", Bytes "bye");
                    ("notes.log", Bytes "log")])).
Proof.
  rewrite (@archive_entries_by_name ["data"; "notes.log"] "b.zip"
             example_world eq_refl eq_refl).
  - vm_compute. reflexivity.
  - intros item [<-|[<-|[]]] H; [reflexivity|].
    vm_compute in H. discriminate H.
  - vm_compute. reflexivity.
Defined.

(** C3 as stated fails: the directory [data] given as [data/] is
    stored without its name, as [a.txt] and [sub/b.txt]. *)
Lemma trailing_separator_item_not_under_name :
  ~ stores_under_directory_name ["data/"] "b.zip" example_world.
Proof.
  intro H.
  specialize (H (snd (create_unencrypted_zip ["data/"] "b.zip" example_world))).
  assert (E : create_unencrypted_zip ["data/"] "b.zip" example_world
              = (Ok true,
                 snd (create_unencrypted_zip ["data/"] "b.zip" example_world)))
    by (vm_compute; reflexivity).
  specialize (H E). vm_compute in H. discriminate H.
Qed.

(** ** What a successful archiving stage has stored *)

(** A file below a directory is found under the path that joins the
    path of the directory, however it is given, and the location of
    the file. *)
Lemma stat_join_below (w : World) (item : string) (n x : node)
    (r : list string) :
  stat w item = Some n ->
  names r -> r <> [] -> get n r = Some x ->
  stat w (posixpath.join item r) = Some x.
Proof.
  intros Hs Hr Hne Hx. destruct (Str.endswith_sep item) eqn:He.
  - exact (@stat_join_trailing w item n x r He Hs Hr Hne Hx).
  - apply stat_resolves in Hs. destruct Hs as (loc & [Hi Hc] & Hl).
    destruct (@canon_below _ _ _ _ _ Hl Hr Hx) as [H1 H2].
    rewrite join_plain by assumption.
    apply stat_resolves. exists (loc ++ r)%list. split; [|exact H2].
    split; [now rewrite is_empty_app, Hi|].
    rewrite start_of_app by assumption.
    rewrite split_sep_app_sep, canon_app, Hc.
    rewrite split_join by (assumption || now apply names_no_sep).
    exact H1.
Qed.

(** The entries a directory item has added when [add_item] returns
    normally: one for every file of its tree, with its content. *)
Lemma add_item_dir_added (item : string) (es : list (string * node))
    (w w1 : World) :
  stat w item = Some (Dir es) -> wf_node (Dir es) = true ->
  add_item item w = (Ok tt, w1) ->
  same_files w w1
  /\ entries_of w1
     = (entries_of w
        ++ map (fun r => (arcname_of w item r, data_at (Dir es) r))
             (tree_files (Dir es)))%list.
Proof.
  intros Hs Hwf. rewrite (@add_item_dir item es w Hs).
  unfold bind at 1.
  destruct (for_each (tree_files (Dir es)) _ w) as [[[]|e] w2] eqn:E;
    [|discriminate].
  unfold print. intros [= <-].
  assert (K : same_files w w2
              /\ entries_of w2
                 = (entries_of w
                    ++ flat_map
                         (fun r => [(arcname_of w item r,
                                     data_at (Dir es) r)])
                         (tree_files (Dir es)))%list).
  { eapply for_each_entries; [|apply same_files_refl|exact E].
    intros r v v' Hin Hv. cbv beta.
    destruct (@tree_files_spec (Dir es) Hwf r Hin) as (N1 & N2 & rd & d & N3).
    unfold bind, os_path_relpath, arcname_of.
    rewrite (@same_files_getcwd w v Hv).
    destruct (posixpath.relpath (getcwd w) (posixpath.join item r)
                (posixpath.dirname item)) as [p|]; [|discriminate].
    intro Hz.
    assert (Hsv : stat v (posixpath.join item r) = Some (File rd d)).
    { rewrite (@same_files_stat w v _ Hv).
      exact (@stat_join_below w item (Dir es) _ r Hs N1 N2 N3). }
    destruct (zip_arcname p) as [a|] eqn:Ea.
    - destruct (@zf_write_file _ _ _ _ _ _ _ Hsv Ea Hz) as [S2 E2].
      split; [now apply same_files_trans with v|].
      unfold data_at. now rewrite N3.
    - unfold zf_write in Hz. rewrite Hsv, Ea in Hz. discriminate. }
  destruct K as [S1 E1]. split; [exact S1|].
  unfold entries_of in E1 |- *. cbn [zf set_stdout].
  rewrite E1. f_equal.
Qed.

(** The entries an item has added when [add_item] returns normally. *)
Lemma add_item_added (w0 : World) (item : string) (w w' : World) :
  wf_node (fs w0) = true ->
  same_files w0 w -> add_item item w = (Ok tt, w') ->
  same_files w0 w'
  /\ entries_of w' = (entries_of w ++ added_entries w0 item)%list.
Proof.
  intros Hwf Hw Ha. unfold added_entries.
  pose proof (@same_files_stat w0 w item Hw) as Hs.
  destruct (stat w0 item) as [[rd d|es]|] eqn:E0.
  - destruct (@add_item_file_entries item rd d w w' Hs Ha) as [S1 E1].
    split; [now apply same_files_trans with w|exact E1].
  - assert (Hes : wf_node (Dir es) = true) by exact (@wf_stat w0 item _ Hwf E0).
    destruct (@add_item_dir_added item es w w' Hs Hes Ha) as [S1 E1].
    split; [now apply same_files_trans with w|].
    rewrite E1. f_equal.
    apply map_ext. intro r. unfold arcname_of.
    now rewrite (@same_files_getcwd w0 w Hw).
  - rewrite add_item_missing in Ha by now rewrite Hs.
    injection Ha as <-. split; [exact Hw|now rewrite app_nil_r].
Qed.

(** The archive of a successful stage holds what the items have
    added, item by item. *)
Lemma create_unencrypted_zip_added (items : list string) (name : string)
    (w w1 : World) :
  is_name name = true ->
  wf_node (fs (archiving_world name w)) = true ->
  create_unencrypted_zip items name w = (Ok true, w1) ->
  stat w1 name
  = Some (File true
            (ZipOf (flat_map (added_entries (archiving_world name w)) items))).
Proof.
  intros Hn Hwf Hc.
  destruct (@create_unencrypted_zip_entries items name w w1 Hn Hc)
    as (wo & w2 & Hwo & Heo & Hl & Hs).
  rewrite Hs. do 3 f_equal.
  assert (K : same_files (archiving_world name w) w2
              /\ entries_of w2
                 = (entries_of wo
                    ++ flat_map (added_entries (archiving_world name w))
                         items)%list).
  { eapply for_each_entries; [|exact Hwo|exact Hl].
    intros item v v' Hin Hv Ha.
    apply (@add_item_added _ item v v' Hwf Hv Ha). }
  destruct K as [_ K]. now rewrite K, Heo.
Qed.

(** C7 (amended).  When the archiving stage of [main] reports success,
    the archive file exists, is a container and so is not empty.  On
    a well-formed file system, when no source item is the archive or a
    directory the archive lies in, the archive holds, item by item and
    in this order, what the items that are a file or a directory while
    the stage runs have added, and nothing else: for a regular file
    one entry with its content under its base name, for a directory
    one entry for every file of its tree, with the content of the file,
    under its path relative to the directory part of the item, as the
    archive normalises it.  The
    stage has reported, in order, every such item; the others are
    passed over.  When the stage reports failure, [main] ends at once
    in the world the stage left: no later stage gets an archive
    file. *)
Theorem archive_complete_on_success (cfg : Config) (w : World) :
  let z := zip_filename_of (clock w) in
  let wa := archiving_world z w in
  let w1 := snd (archive_stage cfg w) in
  (fst (archive_stage cfg w) = Ok true ->
   (exists es,
      stat w1 z = Some (File true (ZipOf es))
      /\ blob_is_empty (ZipOf es) = false
      /\ (wf_node (fs wa) = true ->
          (forall item,
             In item (SOURCE_ITEMS cfg) -> holds_archive wa z item = false) ->
          es = flat_map (added_entries wa) (SOURCE_ITEMS cfg)))
   /\ stdout w1
      = (stdout w
         ++ step1_line z
            :: flat_map (report_line (archiving_world z w)) (SOURCE_ITEMS cfg)
         ++ ["标准ZIP压缩包创建成功。"])%list
   /\ (forall item,
         In item (SOURCE_ITEMS cfg) ->
         is_file (stat (archiving_world z w) item)
         || is_dir (stat (archiving_world z w) item) = true ->
         reported_added w w1 item))
  /\ (archive_failed cfg w -> main cfg w = (Ok tt, w1)).
Proof.
  intros z wa w1. split.
  - intro Ha. pose proof (archive_stage_true_report cfg w Ha) as Hout.
    fold z w1 in Hout. split; [|split; [exact Hout|]].
    + pose proof (zip_filename_is_name (clock w)) as Hn. fold z in Hn.
      unfold wa, w1, archive_stage in *. fold z in Ha |- *.
      clearbody z.
      destruct (create_unencrypted_zip _ z w) as [ra w'] eqn:E.
      cbn [fst snd] in *. subst ra.
      destruct (@create_unencrypted_zip_true _ _ _ _ Hn E) as (es & Es & _).
      exists es. split; [exact Es|]. split; [reflexivity|].
      intros Hwf _.
      pose proof (@create_unencrypted_zip_added _ _ _ _ Hn Hwf E) as Hc.
      rewrite Es in Hc. now injection Hc.
    + intros item Hin Hex. unfold reported_added. rewrite Hout.
      rewrite skipn_app, skipn_all, Nat.sub_diag. cbn [app skipn].
      assert (Hl : exists line,
                 report_line (archiving_world z w) item = [line]
                 /\ (line = "  - 已添加文件: " ++ item
                     \/ line = "  - 已添加文件夹: " ++ item)).
      { unfold report_line.
        destruct (is_file (stat (archiving_world z w) item)).
        - eexists. split; [reflexivity|now left].
        - destruct (is_dir (stat (archiving_world z w) item));
            [|discriminate].
          eexists. split; [reflexivity|now right]. }
      destruct Hl as (line & Hl & Hcase).
      assert (Hin' : In line
                       (step1_line z
                        :: flat_map (report_line (archiving_world z w))
                             (SOURCE_ITEMS cfg)
                        ++ ["标准ZIP压缩包创建成功。"])%list).
      { right. apply in_or_app. left. apply in_flat_map.
        exists item. split; [exact Hin|]. rewrite Hl. now left. }
      destruct Hcase as [<-|<-]; [now left|now right].
  - unfold archive_failed. intro Hf. rewrite main_stages. unfold w1.
    destruct (archive_stage cfg w) as [ra w']. cbn [fst snd] in *.
    now subst ra.
Qed.

(** The example world with the directory [data], a file and a name
    that does not exist as items: the archive holds the two files of
    the directory and the file. *)
Lemma archive_complete_on_success_example :
  let cfg := example_config ["data"; "notes.log"; "gone.txt"] in
  stat (snd (archive_stage cfg example_world))
    (zip_filename_of (clock example_world))
  = Some (File true
            (ZipOf [("data/a.txt", Bytes "hello");
                    ("data/sub/b.txt", Bytes "bye");
                    ("notes.log", Bytes "log")])).
Proof.
  intro cfg.
  destruct (archive_complete_on_success cfg example_world) as [H _].
  destruct H as [(es & Es & _ & Hc) _]; [reflexivity|].
  rewrite Es, Hc.
  - vm_compute. reflexivity.
  - reflexivity.
  - intros item [<-|[<-|[<-|[]]]]; vm_compute; reflexivity.
Defined.

(** C7 as stated fails: of two source items one does not exist; the
    stage succeeds and leaves an archive that is not empty, and the
    missing item was not added. *)
Lemma archive_exists_though_item_missing :
  ~ archive_only_if_complete (example_config ["notes.log"; "gone.txt"])
      example_world.
Proof.
  intros [H _].
  assert (Hex : exists rd data,
            stat (snd (archive_stage (example_config ["notes.log"; "gone.txt"])
                         example_world))
              (zip_filename_of (clock example_world))
            = Some (File rd data)
            /\ blob_is_empty data = false).
  { exists true, (ZipOf [("notes.log", Bytes "log")]).
    split; vm_compute; reflexivity. }
  specialize (H Hex "gone.txt" (or_intror (or_introl eq_refl))).
  unfold reported_added in H. vm_compute in H.
  destruct H as [H|H];
    repeat (destruct H as [H|H]; [discriminate H|]); exact H.
Qed.

(** * Further properties of the four functions *)

(** ** [create_unencrypted_zip] *)

Lemma ZipFile_close_closes (w : World) :
  fst (ZipFile_close w) = Ok tt
  /\ zf (snd (ZipFile_close w)) = None
  /\ stdout (snd (ZipFile_close w)) = stdout w.
Proof.
  unfold ZipFile_close. destruct (zf w) as [z|] eqn:E; cbn [fst snd].
  - repeat split.
  - repeat split. exact E.
Qed.

Lemma ZipFile_open_raises (name : string) (w : World) (e : exn) (wo : World) :
  ZipFile_open name w = (Raise e, wo) -> wo = w.
Proof.
  unfold ZipFile_open. destruct (locate w name) as [loc|].
  - destruct (is_dir (get (fs w) loc)); [now intros [= _ <-]|discriminate].
  - now intros [= _ <-].
Qed.

(** X1.  [create_unencrypted_zip] never raises: whatever the items,
    the name of the archive and the world, it returns a boolean, and
    the last line it has printed tells which: the success line for
    [True], the line that reports the error for [False].  An archive
    that was opened is closed when the function returns, also after an
    error. *)
Theorem create_unencrypted_zip_returns (items : list string) (name : string)
    (w : World) :
  let r := create_unencrypted_zip items name w in
  (fst r = Ok true /\ last (stdout (snd r)) "" = "标准ZIP压缩包创建成功。"
   \/ fst r = Ok false
      /\ exists e, last (stdout (snd r)) "" = archive_error_line e)
  /\ (zf w = None -> zf (snd r) = None).
Proof.
  cbv zeta. rewrite create_unencrypted_zip_loop. cbv zeta.
  set (w0 := set_stdout w _).
  destruct (ZipFile_open name w0) as [[[]|e] wo] eqn:Eo.
  - destruct (for_each items add_item wo) as [r w2].
    destruct (ZipFile_close_closes w2) as (Hc & Hz & _).
    destruct (ZipFile_close w2) as [[[]|e] w3]; [|discriminate Hc].
    cbn [snd] in Hz.
    destruct r as [[]|e]; cbn [fst snd stdout set_stdout zf]; rewrite last_last.
    + split; [now left|now intros _].
    + split; [right; split; [reflexivity|now exists e]|now intros _].
  - apply ZipFile_open_raises in Eo. subst wo.
    cbn [fst snd stdout set_stdout zf]. rewrite last_last.
    split; [right; split; [reflexivity|now exists e]|trivial].
Qed.

(** ** [encrypt_with_openssl] *)

Lemma encrypt_not_executable (i o pw : string) (w : World) :
  openssl w = ToolNotExecutable ->
  encrypt_with_openssl i o pw w
  = (Raise (PermissionError "openssl"),
     set_stdout w (stdout w ++ [step2_line o])%list).
Proof.
  intro Ht. pose proof (encrypt_with_openssl_cases i o pw w) as H.
  cbv zeta in H. unfold openssl_enc in H. rewrite Ht in H. exact H.
Qed.

(** X2.  [encrypt_with_openssl] catches [FileNotFoundError] and
    [CalledProcessError] only: it raises exactly when [openssl] is
    found but may not be executed, and what leaves it then is the
    [PermissionError] of [subprocess.run]. *)
Theorem encrypt_with_openssl_raises (input_file output_file password : string)
    (w : World) (e : exn) :
  fst (encrypt_with_openssl input_file output_file password w) = Raise e
  <-> openssl w = ToolNotExecutable /\ e = PermissionError "openssl".
Proof.
  pose proof (encrypt_with_openssl_cases input_file output_file password w) as H.
  cbv zeta in H. unfold openssl_enc in H.
  destruct (openssl w) as [| |rc err|] eqn:Et.
  - rewrite H. cbn [fst]. split; [discriminate|intros [? _]; discriminate].
  - rewrite (@encrypt_not_executable input_file output_file password w Et).
    cbn [fst]. split; [now intros [= <-]|now intros [_ ->]].
  - destruct (rc =? 0)%Z; rewrite H; cbn [fst];
      (split; [discriminate|intros [? _]; discriminate]).
  - destruct (stat w input_file) as [[[] d|es]|];
      try (cbn [Z.eqb] in H; rewrite H; cbn [fst];
           split; [discriminate|intros [? _]; discriminate]).
    destruct (locate w output_file) as [loc|];
      [destruct (is_dir (get (fs w) loc))|];
      cbn [Z.eqb] in H; rewrite H; cbn [fst];
      (split; [discriminate|intros [? _]; discriminate]).
Qed.

(** X3.  When the archive has been written and [openssl] is found but
    may not be executed, the [PermissionError] leaves [main]: the
    process ends with status 1, nothing is sent to any destination,
    and the archive, which no code path removes any more, stays in the
    working directory. *)
Theorem not_executable_openssl_leaves_archive (cfg : Config) (w : World) :
  fst (archive_stage cfg w) = Ok true ->
  openssl w = ToolNotExecutable ->
  fst (main cfg w) = Raise (PermissionError "openssl")
  /\ fst (script cfg w) = 1%Z
  /\ net_log (snd (main cfg w)) = net_log w
  /\ is_file (stat (snd (main cfg w)) (zip_filename_of (clock w))) = true.
Proof.
  intros Ha Ht.
  assert (Hz : is_file (stat (snd (encrypt_stage cfg w))
                          (zip_filename_of (clock w))) = true).
  { unfold encrypt_stage.
    rewrite stat_keeps_encrypt;
      [|apply encrypted_filename_is_name|apply zip_filename_is_name
       |apply zip_enc_differ].
    unfold archive_stage in *.
    destruct (create_unencrypted_zip _ _ w) as [ra w1] eqn:E.
    cbn [fst snd] in *. subst ra.
    apply create_unencrypted_zip_true in E; [|apply zip_filename_is_name].
    destruct E as (es & E & _). now rewrite E. }
  destruct (stages_keep net_log cfg w) as [_ Hlog]; try reflexivity.
  destruct (stages_keep openssl cfg w) as [Hto _]; try reflexivity.
  assert (He : fst (encrypt_stage cfg w) = Raise (PermissionError "openssl")).
  { unfold encrypt_stage. rewrite encrypt_not_executable; [reflexivity|].
    now rewrite Hto. }
  unfold script. rewrite main_stages.
  destruct (archive_stage cfg w) as [ra w1]. cbn [fst] in Ha. subst ra.
  destruct (encrypt_stage cfg w) as [re w2]. cbn [fst snd] in *. subst re.
  repeat split; assumption.
Qed.

(** The archive of [notes.log] is written, [openssl] may not be run:
    status 1, and the archive is still there. *)
Lemma not_executable_openssl_leaves_archive_example :
  let cfg := example_config ["notes.log"] in
  let w := faulty_world ToolNotExecutable [] in
  fst (script cfg w) = 1%Z
  /\ stat (snd (main cfg w)) (zip_filename_of (clock w))
     = Some (File true (ZipOf [("notes.log", Bytes "log")])).
Proof.
  intros cfg w.
  destruct (@not_executable_openssl_leaves_archive cfg w) as (_ & H1 & _ & _).
  - vm_compute. reflexivity.
  - reflexivity.
  - split; [exact H1|vm_compute; reflexivity].
Defined.

Lemma strings_eqb_eq (l1 l2 : list string) :
  strings_eqb l1 l2 = true -> l1 = l2.
Proof.
  revert l2. induction l1 as [|a l1 IH]; intros [|b l2]; try discriminate.
  - reflexivity.
  - cbn [strings_eqb]. rewrite andb_true_iff. intros [E H].
    apply String.eqb_eq in E. now rewrite E, (IH l2 H).
Qed.

Lemma location_of_name (w : World) (n : string) :
  is_name n = true ->
  location_of w n
  = if is_dir (get (fs w) (cwd w)) then
      match get (fs w) (cwd w ++ [n])%list with
      | Some _ => Some (cwd w ++ [n])%list
      | None => None
      end
    else None.
Proof.
  intro Hn. pose proof (is_name_not_empty_eqb n Hn) as He.
  apply is_name_inv in Hn. destruct Hn as (H1 & H2 & H3 & H4).
  unfold location_of, start_of, posixpath.isabs.
  rewrite H1, (has_sep_split _ H2), (has_sep_startswith _ H2).
  simpl. destruct (is_dir (get (fs w) (cwd w))); [|reflexivity].
  rewrite He, H3, H4. simpl.
  now destruct (get (fs w) (cwd w ++ [n])%list).
Qed.

Lemma encrypt_with_openssl_run (i o pw : string) (data : blob) (w : World) :
  openssl w = ToolWorking ->
  stat w i = Some (File true data) ->
  is_name o = true ->
  is_dir (get (fs w) (cwd w)) = true ->
  is_dir (stat w o) = false ->
  location_of w i <> Some (cwd w ++ [o])%list ->
  encrypt_with_openssl i o pw w
  = (Ok true,
     set_stdout (put w o (Some (File true (Enc pw data))))
       (stdout w ++ [step2_line o; "文件已成功通过OpenSSL加密。"])%list).
Proof.
  intros Ht Hs Ho Hd Hod Hloc.
  pose proof (encrypt_with_openssl_cases i o pw w) as H.
  cbv zeta in H. unfold openssl_enc in H.
  rewrite Ht, Hs, locate_name in H by assumption.
  rewrite stat_name in Hod by assumption.
  rewrite Hd in H, Hod. rewrite Hod in H.
  destruct (location_of w i) as [l|]; [|exact H].
  destruct (strings_eqb l (cwd w ++ [o])%list) eqn:E; [|exact H].
  apply strings_eqb_eq in E. now subst l.
Qed.

(** X4.  With an [openssl] that works, an input file that can be read
    and an output name in the working directory that is neither the
    name of a directory nor that of the input file itself,
    [encrypt_with_openssl] returns [True] and prints its two lines; the
    output file then holds the input encrypted under the password
    given, and every other entry of the working directory, the input
    file among them when it lies there, is left as it is. *)
Theorem encrypt_with_openssl_success (input_file output_file password : string)
    (data : blob) (w : World) :
  openssl w = ToolWorking ->
  stat w input_file = Some (File true data) ->
  is_name output_file = true ->
  is_dir (get (fs w) (cwd w)) = true ->
  is_dir (stat w output_file) = false ->
  location_of w input_file <> Some (cwd w ++ [output_file])%list ->
  let r := encrypt_with_openssl input_file output_file password w in
  fst r = Ok true
  /\ stdout (snd r)
     = (stdout w ++ [step2_line output_file; "文件已成功通过OpenSSL加密。"])%list
  /\ stat (snd r) output_file = Some (File true (Enc password data))
  /\ (forall p, is_name p = true -> p <> output_file ->
      stat (snd r) p = stat w p).
Proof.
  intros Ht Hs Ho Hd Hod Hloc r. subst r.
  rewrite (@encrypt_with_openssl_run input_file output_file password data w)
    by assumption.
  cbn [fst snd stdout set_stdout].
  split; [reflexivity|]. split; [reflexivity|]. split.
  - rewrite stat_set_stdout. now apply stat_put_same.
  - intros p Hp Hne. rewrite stat_set_stdout.
    apply stat_put_other; [exact Hp|congruence].
Qed.

(** [notes.log] of the example encrypted into [notes.enc]. *)
Lemma encrypt_with_openssl_success_example :
  stat (snd (encrypt_with_openssl "notes.log" "notes.enc" "pw" example_world))
    "notes.enc"
  = Some (File true (Enc "pw" (Bytes "log"))).
Proof.
  destruct (@encrypt_with_openssl_success "notes.log" "notes.enc" "pw"
              (Bytes "log") example_world) as (_ & _ & H & _);
    [reflexivity|reflexivity|reflexivity|reflexivity|reflexivity|
     discriminate|exact H].
Defined.

(** ** [upload_to_webdav] *)

Lemma head_of_app (a b : string) :
  Str.endswith_sep a = true -> Str.has_sep b = false ->
  head_of (a ++ b) = a /\ tail_of (a ++ b) = b.
Proof.
  intros Ha Hb. induction a as [|c a IH]; [discriminate|].
  destruct a as [|c' a'].
  - cbn [String.append]. cbn [Str.endswith_sep] in Ha.
    destruct (head_tail_cons c b) as [_ H]. destruct (H Hb) as [H1 _].
    exact (H1 Ha).
  - assert (Ha' : Str.endswith_sep (String c' a') = true) by exact Ha.
    destruct (IH Ha') as [I1 I2].
    destruct (head_tail_cons c (String c' a' ++ b)) as [H _].
    assert (Hs : Str.has_sep (String c' a' ++ b) = true).
    { rewrite has_sep_app. clear -Ha'.
      assert (G : forall s, Str.endswith_sep s = true -> Str.has_sep s = true).
      { induction s as [|x s IHs]; [discriminate|]. cbn [Str.has_sep].
        destruct s as [|y s']; [cbn; now intros ->|].
        intro E. rewrite (IHs E). apply orb_true_r. }
      now rewrite (G _ Ha'). }
    destruct (H Hs) as [H1 H2].
    change (String c (String c' a') ++ b) with (String c (String c' a' ++ b)).
    rewrite H1, H2, I1, I2. now split.
Qed.

Lemma full_remote_dir_shape (remote_dir : string) :
  Str.startswith_sep (full_remote_dir_of remote_dir) = true
  /\ Str.endswith_sep (full_remote_dir_of remote_dir) = true.
Proof.
  unfold full_remote_dir_of. split; [reflexivity|].
  change ("/" ++ Str.strip_sep remote_dir ++ "/")
    with (String "/" (Str.strip_sep remote_dir ++ "/")).
  rewrite endswith_cons by (rewrite is_empty_app; apply andb_false_r).
  now rewrite endswith_app.
Qed.

(** The remote path is the remote directory followed by the base name
    of the local file, and the directory is its parent. *)
Lemma remote_path_parent (local_file remote_dir : string) :
  remote_path_of local_file remote_dir
  = full_remote_dir_of remote_dir ++ posixpath.basename local_file
  /\ dav_parent (remote_path_of local_file remote_dir)
     = full_remote_dir_of remote_dir.
Proof.
  destruct (full_remote_dir_shape remote_dir) as [_ He].
  pose proof (tail_no_sep local_file) as Hb. rewrite <- basename_tail in Hb.
  assert (E : remote_path_of local_file remote_dir
              = full_remote_dir_of remote_dir ++ posixpath.basename local_file).
  { unfold remote_path_of, posixpath.join. cbn [fold_left].
    rewrite join2_rel by now apply has_sep_startswith.
    now rewrite He, orb_true_r. }
  split; [exact E|]. rewrite E.
  exact (proj1 (head_of_app _ _ He Hb)).
Qed.

(** ** The remote directory *)

Lemma lstrip_seps_app (k : nat) (x : string) :
  Str.lstrip_sep (Str.seps k ++ x) = Str.lstrip_sep x.
Proof. induction k as [|k IH]; [reflexivity|exact IH]. Qed.

Lemma rstrip_seps (k : nat) : Str.rstrip_sep (Str.seps k) = "".
Proof.
  induction k as [|k IH]; [reflexivity|].
  cbn [Str.seps Str.rstrip_sep]. now rewrite IH.
Qed.

Lemma rstrip_app_seps (x : string) (k : nat) :
  Str.rstrip_sep (x ++ Str.seps k) = Str.rstrip_sep x.
Proof.
  induction x as [|c x IH]; [apply rstrip_seps|].
  cbn [String.append Str.rstrip_sep]. now rewrite IH.
Qed.

Lemma lstrip_all_sep (d x : string) :
  Str.all_sep d = true -> Str.lstrip_sep (d ++ x) = Str.lstrip_sep x.
Proof.
  induction d as [|c d IH]; [reflexivity|].
  cbn [Str.all_sep String.append Str.lstrip_sep].
  destruct (Str.is_sep c); [exact IH|discriminate].
Qed.

Lemma lstrip_app (d x : string) :
  Str.all_sep d = false -> Str.lstrip_sep (d ++ x) = Str.lstrip_sep d ++ x.
Proof.
  induction d as [|c d IH]; [discriminate|].
  cbn [Str.all_sep String.append Str.lstrip_sep].
  destruct (Str.is_sep c); [exact IH|reflexivity].
Qed.

Lemma rstrip_no_sep (d : string) :
  Str.has_sep d = false -> Str.rstrip_sep d = d.
Proof.
  induction d as [|c d IH]; [reflexivity|].
  cbn [Str.has_sep Str.rstrip_sep]. intro H.
  apply orb_false_iff in H. destruct H as [Hc Hd].
  rewrite (IH Hd), Hc. now destruct d.
Qed.

Lemma strip_seps_around (a b : nat) (d : string) :
  Str.strip_sep (Str.seps a ++ d ++ Str.seps b) = Str.strip_sep d.
Proof.
  unfold Str.strip_sep. rewrite lstrip_seps_app.
  destruct (Str.all_sep d) eqn:E.
  - rewrite lstrip_all_sep by assumption.
    rewrite <- (append_nil_r (Str.seps b)), lstrip_all_sep
      by apply all_sep_seps.
    rewrite <- (append_nil_r d), lstrip_all_sep by assumption.
    reflexivity.
  - rewrite lstrip_app by assumption. apply rstrip_app_seps.
Qed.

Lemma full_remote_dir_plain (remote_dir : string) :
  Str.has_sep remote_dir = false ->
  full_remote_dir_of remote_dir = "/" ++ remote_dir ++ "/".
Proof.
  intro H. unfold full_remote_dir_of, Str.strip_sep.
  rewrite lstrip_rel by now apply has_sep_startswith.
  now rewrite rstrip_no_sep.
Qed.

(** X8.  The remote directory [upload_to_webdav] works with is the
    one given, between exactly one leading and one trailing separator:
    separators around it are ignored, a name without separator is
    taken as it is, and a remote directory that is empty or made of
    separators only gives [//]. *)
Theorem full_remote_dir_strips_separators (remote_dir : string) :
  (forall a b,
     full_remote_dir_of (Str.seps a ++ remote_dir ++ Str.seps b)
     = full_remote_dir_of remote_dir)
  /\ (Str.has_sep remote_dir = false ->
      full_remote_dir_of remote_dir = "/" ++ remote_dir ++ "/")
  /\ (Str.all_sep remote_dir = true -> full_remote_dir_of remote_dir = "//").
Proof.
  unfold full_remote_dir_of. split; [|split].
  - intros a b. now rewrite strip_seps_around.
  - fold (full_remote_dir_of remote_dir). apply full_remote_dir_plain.
  - intro H. unfold Str.strip_sep.
    rewrite <- (append_nil_r remote_dir), lstrip_all_sep by assumption.
    reflexivity.
Qed.

Lemma upload_to_webdav_unfold (sc : ServerConfig) (local_file remote_dir : string)
    (w : World) :
  let client :=
    {| webdav_hostname := url sc; webdav_login := username sc;
       webdav_password := password sc |} in
  let d := full_remote_dir_of remote_dir in
  let p := remote_path_of local_file remote_dir in
  let w0 := set_stdout w (stdout w ++ [step3_line sc local_file])%list in
  upload_to_webdav sc local_file remote_dir w
  = match (ensure_remote_dir client d ;;
           client_upload client p local_file ;;
           print (uploaded_line p)) w0 with
    | (Ok _, w1) => (Ok tt, w1)
    | (Raise e, w1) =>
        (Ok tt, set_stdout w1 (stdout w1 ++ [upload_failed_line e])%list)
    end.
Proof.
  cbv zeta. unfold upload_to_webdav. unfold bind at 1. unfold print at 1.
  unfold try_except.
  fold (full_remote_dir_of remote_dir).
  fold (remote_path_of local_file remote_dir).
  fold (step3_line sc local_file). unfold uploaded_line.
  match goal with
  | |- match ?m ?x with _ => _ end = _ => destruct (m x) as [[[]|e] w1]
  end; reflexivity.
Qed.

(** X5.  When the existence check of the remote directory fails (no
    connection, rejected credentials), [upload_to_webdav] returns
    normally and all it has done is to send this one request and to
    print two lines, the announcement and the error: nothing is
    created and nothing is uploaded. *)
Theorem upload_check_failure (sc : ServerConfig)
    (local_file remote_dir : string) (w : World) (e : exn) :
  dav_fault (dav w (url sc)) OpExists = Some e ->
  upload_to_webdav sc local_file remote_dir w
  = (Ok tt,
     set_stdout
       (set_net_log w
          (net_log w
           ++ [(url sc, DavExists (full_remote_dir_of remote_dir))])%list)
       (stdout w ++ [step3_line sc local_file; upload_failed_line e])%list).
Proof.
  intro Hf. rewrite upload_to_webdav_unfold. cbv zeta.
  unfold ensure_remote_dir, client_check, dav_call, bind.
  cbn [webdav_hostname dav set_net_log set_stdout]. rewrite Hf.
  unfold set_stdout, set_net_log.
  cbn [stdout net_log fs cwd clock openssl remove_fault dav zf].
  rewrite <- app_assoc. reflexivity.
Qed.

(** No connection: one request, for the directory [/2024-05/]. *)
Lemma upload_check_failure_example :
  net_log (snd (upload_to_webdav example_server "notes.log" "2024-05"
                  offline_world))
  = [("https://dav.example.org/dav/", DavExists "/2024-05/")].
Proof.
  rewrite (@upload_check_failure example_server "notes.log" "2024-05"
             offline_world (WebDavException "No connection") eq_refl).
  reflexivity.
Defined.

(** ** Running the calls of the client *)

Lemma bind_run {A B : Type} (m : M A) (k : A -> M B) (w w1 : World) (a : A) :
  m w = (Ok a, w1) -> bind m k w = k a w1.
Proof. unfold bind. now intros ->. Qed.

Lemma bind_raised {A B : Type} (m : M A) (k : A -> M B) (w w1 : World)
    (e : exn) :
  m w = (Raise e, w1) -> bind m k w = (Raise e, w1).
Proof. unfold bind. now intros ->. Qed.

Lemma dav_has_root (s : dav_server) : dav_has s "/" = true.
Proof. reflexivity. Qed.

Lemma all_dots_nonempty (s : string) :
  all_dots s = false -> Str.is_empty s = false.
Proof. now destruct s. Qed.

(** The directory of a one-component remote directory lies in the
    root. *)
Lemma dir_parent_plain (remote_dir : string) :
  plain_component remote_dir = true ->
  dir_parent (full_remote_dir_of remote_dir) = "/".
Proof.
  unfold plain_component. intro H. apply andb_true_iff in H.
  destruct H as [Hs Hd]. apply negb_true_iff in Hs, Hd.
  rewrite (full_remote_dir_plain _ Hs). unfold dir_parent.
  change ("/" ++ remote_dir ++ "/") with (String "/" (remote_dir ++ Str.seps 1)).
  cbn [Str.rstrip_sep]. rewrite rstrip_app_seps, (rstrip_no_sep _ Hs).
  destruct remote_dir as [|c r]; [discriminate|].
  exact (proj1 (@head_of_app "/" (String c r) eq_refl Hs)).
Qed.

(** What a successful [ensure_remote_dir] leaves for a directory that
    lies in the root: the requests it has sent, the directory on the
    server, and everything else as it was. *)
Lemma ensure_remote_dir_run (c : Client) (d : string) (w : World) :
  let h := webdav_hostname c in
  let s := dav w h in
  dav_fault s OpExists = None -> dav_fault s OpMkcol = None ->
  dav_mkcol_existing s = None ->
  dir_parent d = "/" ->
  exists w2,
    ensure_remote_dir c d w = (Ok tt, w2)
    /\ net_log w2
       = (net_log w
          ++ (h, DavExists d)
             :: (if mem d (dav_dirs s) then [] else [(h, DavMkcol d)]))%list
    /\ mem d (dav_dirs (dav w2 h)) = true
    /\ dav_files (dav w2 h) = dav_files s
    /\ dav_fault (dav w2 h) = dav_fault s
    /\ fs w2 = fs w /\ cwd w2 = cwd w
    /\ stdout w2
       = (stdout w ++ (if mem d (dav_dirs s) then [] else [created_line d]))%list.
Proof.
  intros h s H1 H2 H3 Hpar. unfold ensure_remote_dir, client_check, dav_call.
  unfold bind at 1 2. cbn [dav set_net_log]. fold h s. rewrite H1.
  destruct (mem d (dav_dirs s)) eqn:Em; cbn [negb].
  - eexists. split; [reflexivity|]. cbn [net_log set_dav set_net_log dav].
    unfold h. rewrite String.eqb_refl. cbn [dav_dirs dav_files dav_fault].
    rewrite mem_app. fold h s. rewrite Em, app_nil_r. repeat split.
  - unfold client_mkdir, dav_call, bind, print.
    cbn [dav set_dav set_net_log]. unfold h. rewrite String.eqb_refl.
    cbn [dav_fault dav_dirs dav_mkcol_existing]. fold h s.
    rewrite H1, Hpar, dav_has_root. cbn [negb]. rewrite H2, H3.
    destruct (mem d (dav_dirs s ++ dav_incoming s)) eqn:Ei.
    + eexists. split; [reflexivity|].
      cbn [net_log set_stdout set_dav set_net_log dav stdout fs cwd].
      unfold h. rewrite String.eqb_refl.
      cbn [dav_dirs dav_files dav_fault]. fold h s.
      rewrite Ei, <- app_assoc. repeat split.
    + eexists. split; [reflexivity|].
      cbn [net_log set_stdout set_dav set_net_log dav stdout fs cwd].
      unfold h. rewrite String.eqb_refl.
      cbn [dav_dirs dav_files dav_fault]. fold h s.
      rewrite mem_last, <- app_assoc. repeat split.
Qed.

(** An upload on a server that accepts every request, in terms of the
    world [w2] that [ensure_remote_dir] leaves. *)
Lemma upload_to_webdav_run (sc : ServerConfig)
    (local_file remote_dir : string) (data : blob) (w : World) :
  let s := dav w (url sc) in
  let d := full_remote_dir_of remote_dir in
  let p := (d ++ posixpath.basename local_file)%string in
  plain_component remote_dir = true ->
  (forall op, dav_fault s op = None) ->
  dav_mkcol_existing s = None ->
  stat w local_file = Some (File true data) ->
  exists w2,
    net_log w2
    = (net_log w
       ++ (url sc, DavExists d)
          :: (if mem d (dav_dirs s) then [] else [(url sc, DavMkcol d)]))%list
    /\ mem d (dav_dirs (dav w2 (url sc))) = true
    /\ dav_files (dav w2 (url sc)) = dav_files s
    /\ fs w2 = fs w
    /\ upload_to_webdav sc local_file remote_dir w
       = (Ok tt,
          set_stdout
            (set_dav
               (set_net_log w2
                  (net_log w2 ++ [(url sc, DavPut p local_file)])%list)
               (url sc)
               {| dav_fault := dav_fault (dav w2 (url sc));
                  dav_dirs := dav_dirs (dav w2 (url sc));
                  dav_files := (dav_files (dav w2 (url sc)) ++ [(p, data)])%list;
                  dav_incoming := dav_incoming (dav w2 (url sc));
                  dav_mkcol_existing := dav_mkcol_existing (dav w2 (url sc)) |})
            (stdout w2 ++ [uploaded_line p])%list).
Proof.
  intros s d p Hc Hf Hm Hs.
  rewrite upload_to_webdav_unfold. cbv zeta.
  destruct (remote_path_parent local_file remote_dir) as [Ep Epar].
  fold d in Ep, Epar. fold p in Ep. rewrite Ep in Epar. rewrite Ep. fold d.
  set (c := {| webdav_hostname := url sc; webdav_login := username sc;
               webdav_password := password sc |}).
  set (w0 := set_stdout w _).
  destruct (@ensure_remote_dir_run c d w0 (Hf OpExists) (Hf OpMkcol) Hm
              (dir_parent_plain _ Hc))
    as (w2 & Er & Hlog & Hdir & Hfiles & Hfault & Hfs & Hcwd & _).
  cbn [webdav_hostname c] in Hlog, Hdir, Hfiles, Hfault.
  change (dav w0 (url sc)) with s in Hlog, Hfiles, Hfault.
  change (net_log w0) with (net_log w) in Hlog.
  exists w2. split; [exact Hlog|]. split; [exact Hdir|].
  split; [exact Hfiles|]. split; [exact Hfs|].
  rewrite (@bind_run _ _ _ _ _ _ _ Er).
  assert (Hs2 : stat w2 local_file = Some (File true data)).
  { rewrite <- Hs. unfold stat, start_of. now rewrite Hfs, Hcwd. }
  unfold client_upload, dav_call, bind, print.
  cbn [webdav_hostname c dav set_net_log]. rewrite Hfault, (Hf OpPut).
  change (stat (set_net_log w2 _) local_file) with (stat w2 local_file).
  rewrite Hs2, Epar, (dav_has_listed _ _ Hdir). rewrite <- Hfault. reflexivity.
Qed.

(** X6.  On a server that accepts every request, [upload_to_webdav]
    puts a local file that can be read under a remote directory of one
    component, by its base name.  The remote directory is a name
    without separator that is not made of dots, so that it lies in the
    root of the server, and the server lists it when it has it.  The
    calls are the existence check, the creation of the directory when
    the check did not find it, and the upload; afterwards the directory
    exists and the file is the last of the server's files; the local
    files are not touched. *)
Theorem upload_to_webdav_success (sc : ServerConfig)
    (local_file remote_dir : string) (data : blob) (w : World) :
  let s := dav w (url sc) in
  let d := full_remote_dir_of remote_dir in
  let p := (d ++ posixpath.basename local_file)%string in
  plain_component remote_dir = true ->
  dav_has s d = mem d (dav_dirs s) ->
  (forall op, dav_fault s op = None) ->
  dav_mkcol_existing s = None ->
  stat w local_file = Some (File true data) ->
  let w1 := snd (upload_to_webdav sc local_file remote_dir w) in
  net_log w1
  = (net_log w
     ++ (url sc, DavExists d)
        :: (if mem d (dav_dirs s) then [] else [(url sc, DavMkcol d)])
     ++ [(url sc, DavPut p local_file)])%list
  /\ mem d (dav_dirs (dav w1 (url sc))) = true
  /\ dav_files (dav w1 (url sc)) = (dav_files s ++ [(p, data)])%list
  /\ last (stdout w1) "" = uploaded_line p
  /\ fs w1 = fs w.
Proof.
  intros s d p Hc _ Hf Hm Hs w1. subst w1.
  destruct (@upload_to_webdav_run sc local_file remote_dir data w Hc Hf Hm Hs)
    as (w2 & Hlog & Hdir & Hfiles & Hfs & ->).
  fold s d p in Hlog, Hdir, Hfiles |- *.
  cbn [snd net_log set_stdout set_dav set_net_log dav stdout fs].
  rewrite String.eqb_refl. cbn [dav_dirs dav_files].
  rewrite Hlog, Hfiles, last_last, <- app_assoc. repeat split; assumption.
Qed.

(** [notes.log] of the example sent to the example server, which has
    no directory yet. *)
Lemma upload_to_webdav_success_example :
  let w1 := snd (upload_to_webdav example_server "notes.log" "2024-05"
                   example_world) in
  dav_files (dav w1 (url example_server))
  = [("/2024-05/notes.log", Bytes "log")].
Proof.
  intro w1.
  destruct (@upload_to_webdav_success example_server "notes.log" "2024-05"
              (Bytes "log") example_world) as (_ & _ & H & _);
    [reflexivity|reflexivity|reflexivity|reflexivity|reflexivity|exact H].
Defined.

(** X7.  The remote directory is created before the local file is
    looked at: on a server that accepts every request and has no
    directory of that name, an upload of a local file that does not
    exist to a remote directory of one component (a name without
    separator that is not made of dots) returns normally, reports the
    error, stores no file, and leaves the new directory on the
    server. *)
Theorem upload_missing_file_leaves_directory (sc : ServerConfig)
    (local_file remote_dir : string) (w : World) :
  let s := dav w (url sc) in
  let d := full_remote_dir_of remote_dir in
  plain_component remote_dir = true ->
  (forall op, dav_fault s op = None) ->
  dav_mkcol_existing s = None ->
  dav_has s d = false ->
  stat w local_file = None ->
  let r := upload_to_webdav sc local_file remote_dir w in
  fst r = Ok tt
  /\ mem d (dav_dirs (dav (snd r) (url sc))) = true
  /\ dav_files (dav (snd r) (url sc)) = dav_files s
  /\ In (url sc, DavMkcol d) (net_log (snd r))
  /\ last (stdout (snd r)) ""
     = upload_failed_line
         (WebDavException ("Local file: " ++ local_file ++ " not found")).
Proof.
  intros s d Hc Hf Hm Hh Hs r. subst r.
  assert (Hd : mem d (dav_dirs s) = false).
  { destruct (mem d (dav_dirs s)) eqn:E; [|reflexivity].
    now rewrite (dav_has_listed _ _ E) in Hh. }
  rewrite upload_to_webdav_unfold. cbv zeta. fold d.
  set (p := remote_path_of local_file remote_dir).
  set (c := {| webdav_hostname := url sc; webdav_login := username sc;
               webdav_password := password sc |}).
  set (w0 := set_stdout w _).
  destruct (@ensure_remote_dir_run c d w0 (Hf OpExists) (Hf OpMkcol) Hm
              (dir_parent_plain _ Hc))
    as (w2 & Er & Hlog & Hdir & Hfiles & Hfault & Hfs & Hcwd & _).
  cbn [webdav_hostname c] in Hlog, Hdir, Hfiles, Hfault.
  change (dav w0 (url sc)) with s in Hlog, Hfiles, Hfault.
  change (net_log w0) with (net_log w) in Hlog.
  rewrite Hd in Hlog.
  rewrite (@bind_run _ _ _ _ _ _ _ Er).
  assert (Hs2 : stat w2 local_file = None).
  { rewrite <- Hs. unfold stat, start_of. now rewrite Hfs, Hcwd. }
  unfold client_upload, dav_call, bind.
  cbn [webdav_hostname c dav set_net_log]. rewrite Hfault, (Hf OpPut).
  change (stat (set_net_log w2 _) local_file) with (stat w2 local_file).
  rewrite Hs2.
  cbn [fst snd net_log set_stdout set_net_log dav stdout].
  rewrite last_last, Hlog. repeat split; try assumption.
  rewrite !in_app_iff. left. right. right. now left.
Qed.

(** An upload of a file that does not exist to the example server: the
    directory [/2024-05/] is there afterwards. *)
Lemma upload_missing_file_leaves_directory_example :
  dav_dirs (dav (snd (upload_to_webdav example_server "gone.enc" "2024-05"
                        example_world)) (url example_server))
  = ["/2024-05/"].
Proof.
  destruct (@upload_missing_file_leaves_directory example_server "gone.enc"
              "2024-05" example_world) as (_ & H & _);
    [reflexivity|reflexivity|reflexivity|reflexivity|reflexivity|].
  vm_compute. reflexivity.
Defined.

(** ** Writing and removing entries of the tree *)

Lemma set_entry_absent (n : string) (es : list (string * node)) :
  lookup n es = None -> set_entry n None es = es.
Proof.
  induction es as [|[m x] r IH]; [reflexivity|]. cbn [lookup set_entry].
  destruct (String.eqb m n); [discriminate|]. intro H. now rewrite IH.
Qed.

Lemma set_entry_remove_set (n : string) (v : option node)
    (es : list (string * node)) :
  set_entry n None (set_entry n v es) = set_entry n None es.
Proof.
  induction es as [|[m x] r IH].
  - destruct v; cbn [set_entry]; [now rewrite String.eqb_refl|reflexivity].
  - cbn [set_entry]. destruct (String.eqb m n) eqn:E.
    + destruct v as [y|]; [|exact IH]. cbn [set_entry]. now rewrite E.
    + cbn [set_entry]. now rewrite E, IH.
Qed.

Lemma set_entry_set_set (n : string) (x y : node)
    (es : list (string * node)) :
  set_entry n (Some y) (set_entry n (Some x) es) = set_entry n (Some y) es.
Proof.
  induction es as [|[m z] r IH].
  - cbn [set_entry]. now rewrite String.eqb_refl.
  - cbn [set_entry]. destruct (String.eqb m n) eqn:E.
    + cbn [set_entry]. now rewrite E.
    + cbn [set_entry]. now rewrite E, IH.
Qed.

Lemma set_entry_remove_comm (n m : string) (v : option node)
    (es : list (string * node)) :
  n <> m ->
  set_entry n None (set_entry m v es) = set_entry m v (set_entry n None es).
Proof.
  intro Hne. assert (Hmn : String.eqb m n = false).
  { apply String.eqb_neq. congruence. }
  induction es as [|[k x] r IH].
  - destruct v; cbn [set_entry]; [now rewrite Hmn|reflexivity].
  - cbn [set_entry]. destruct (String.eqb k m) eqn:Em.
    + apply String.eqb_eq in Em. subst k. rewrite Hmn.
      destruct v as [y|].
      * cbn [set_entry]. now rewrite Hmn, String.eqb_refl.
      * cbn [set_entry]. now rewrite String.eqb_refl.
    + destruct (String.eqb k n) eqn:En.
      * cbn [set_entry]. now rewrite En.
      * cbn [set_entry]. now rewrite En, Em, IH.
Qed.

Lemma map_entry_same (c : string) (f : node -> node)
    (es : list (string * node)) :
  (forall x, lookup c es = Some x -> f x = x) -> map_entry c f es = es.
Proof.
  induction es as [|[m x] r IH]; [reflexivity|]. cbn [lookup map_entry].
  destruct (String.eqb m c).
  - intro H. now rewrite H.
  - intro H. now rewrite IH.
Qed.

Lemma map_entry_ext (c : string) (f g : node -> node)
    (es : list (string * node)) :
  (forall x, f x = g x) -> map_entry c f es = map_entry c g es.
Proof.
  intro H. induction es as [|[m x] r IH]; [reflexivity|]. cbn [map_entry].
  destruct (String.eqb m c); [now rewrite H|now rewrite IH].
Qed.

Lemma map_entry_map_entry (c : string) (f g : node -> node)
    (es : list (string * node)) :
  map_entry c f (map_entry c g es) = map_entry c (fun x => f (g x)) es.
Proof.
  induction es as [|[m x] r IH]; [reflexivity|]. cbn [map_entry].
  destruct (String.eqb m c) eqn:E; cbn [map_entry]; rewrite E;
    [reflexivity|now rewrite IH].
Qed.

Lemma set_at_file (loc : list string) (v : option node) (rd : bool)
    (d : blob) :
  set_at loc v (File rd d) = File rd d.
Proof. now destruct loc as [|a [|b l]]. Qed.

Lemma set_at_below (c : string) (p : list string) (n : string)
    (v : option node) (es : list (string * node)) :
  set_at (c :: p ++ [n]) v (Dir es)
  = Dir (map_entry c (set_at (p ++ [n]) v) es).
Proof. apply set_at_cons, app_one_not_nil. Qed.

Lemma set_at_remove_absent (p : list string) (n : string) (root : node) :
  get root (p ++ [n]) = None -> set_at (p ++ [n]) None root = root.
Proof.
  revert root. induction p as [|c p IH]; intros [rd d|es];
    try (intros _; apply set_at_file).
  - cbn [app get set_at]. intro H. f_equal. apply set_entry_absent.
    now destruct (lookup n es).
  - cbn [app]. rewrite set_at_below. cbn [get]. intro H. f_equal.
    apply map_entry_same. intros x Hx. rewrite Hx in H. now apply IH.
Qed.

Lemma set_at_remove_set (p : list string) (n : string) (v : option node)
    (root : node) :
  set_at (p ++ [n]) None (set_at (p ++ [n]) v root)
  = set_at (p ++ [n]) None root.
Proof.
  revert root. induction p as [|c p IH]; intros [rd d|es];
    try (now rewrite !set_at_file).
  - cbn [app set_at]. f_equal. apply set_entry_remove_set.
  - cbn [app]. rewrite !set_at_below. f_equal.
    rewrite map_entry_map_entry. now apply map_entry_ext.
Qed.

Lemma set_at_set_set (p : list string) (n : string) (x y : node)
    (root : node) :
  set_at (p ++ [n]) (Some y) (set_at (p ++ [n]) (Some x) root)
  = set_at (p ++ [n]) (Some y) root.
Proof.
  revert root. induction p as [|c p IH]; intros [rd d|es];
    try (now rewrite !set_at_file).
  - cbn [app set_at]. f_equal. apply set_entry_set_set.
  - cbn [app]. rewrite !set_at_below. f_equal.
    rewrite map_entry_map_entry. now apply map_entry_ext.
Qed.

Lemma set_at_remove_comm (p : list string) (n m : string) (v : option node)
    (root : node) :
  n <> m ->
  set_at (p ++ [n]) None (set_at (p ++ [m]) v root)
  = set_at (p ++ [m]) v (set_at (p ++ [n]) None root).
Proof.
  intro Hne. revert root. induction p as [|c p IH]; intros [rd d|es];
    try (now rewrite !set_at_file).
  - cbn [app set_at]. f_equal. now apply set_entry_remove_comm.
  - cbn [app]. rewrite !set_at_below. f_equal.
    rewrite !map_entry_map_entry. now apply map_entry_ext.
Qed.

(** Two files written to a directory and removed again, in the order
    of [main]: the tree is as it was, provided it had neither. *)
Lemma write_two_remove_two (p : list string) (z e : string) (x y : node)
    (root : node) :
  z <> e ->
  get root (p ++ [z]) = None -> get root (p ++ [e]) = None ->
  set_at (p ++ [e]) None
    (set_at (p ++ [z]) None
       (set_at (p ++ [e]) (Some y) (set_at (p ++ [z]) (Some x) root)))
  = root.
Proof.
  intros Hne Hz He.
  rewrite (@set_at_remove_comm p z e (Some y)) by assumption.
  rewrite set_at_remove_set, set_at_remove_set.
  rewrite (@set_at_remove_absent p z root Hz).
  now apply set_at_remove_absent.
Qed.

(** ** The archive file, whatever the outcome *)

(** Once the archive could be opened, the stage ends with the archive
    file closed over the entries written, and its result tells whether
    the loop over the items raised. *)
Lemma create_unencrypted_zip_file (items : list string) (name : string)
    (w : World) :
  is_name name = true ->
  is_dir (get (fs w) (cwd w)) = true ->
  is_dir (stat w name) = false ->
  exists wo r w2,
    same_files (archiving_world name w) wo
    /\ zf wo <> None /\ entries_of wo = []
    /\ for_each items add_item wo = (r, w2)
    /\ fst (create_unencrypted_zip items name w)
       = Ok (match r with Ok _ => true | Raise _ => false end)
    /\ stat (snd (create_unencrypted_zip items name w)) name
       = Some (File true (ZipOf (entries_of w2)))
    /\ fs (snd (create_unencrypted_zip items name w))
       = fs (put w name (Some (File true (ZipOf (entries_of w2)))))
    /\ cwd (snd (create_unencrypted_zip items name w)) = cwd w.
Proof.
  intros Hn Hd Hnd. rewrite stat_name, Hd in Hnd by assumption.
  rewrite create_unencrypted_zip_loop. cbv zeta.
  set (w0 := set_stdout w _).
  unfold archiving_world, ZipFile_open.
  change (locate w0 name) with (locate w name).
  rewrite locate_name by assumption.
  change (fs w0) with (fs w). rewrite Hd, Hnd.
  set (wo := set_zf (set_fs w0 _) _).
  pose proof (for_each_add_item_keeps fs items
                (fun _ _ => eq_refl) (fun _ _ _ _ => eq_refl) wo) as Kfs.
  pose proof (for_each_add_item_keeps cwd items
                (fun _ _ => eq_refl) (fun _ _ _ _ => eq_refl) wo) as Kcwd.
  assert (Kloc : exists z, zf (snd (for_each items add_item wo)) = Some z
                           /\ zf_loc z = (cwd w ++ [name])%list).
  { pose proof (for_each_add_item_keeps
                  (fun w => option_map zf_loc (zf w)) items
                  (fun _ _ => eq_refl)) as K.
    specialize (K (fun w z es E => eq_trans eq_refl
                     (eq_sym (f_equal (option_map zf_loc) E))) wo).
    simpl in K. destruct (zf (snd (for_each items add_item wo))) as [z|];
      [|discriminate].
    exists z. split; [reflexivity|]. now injection K. }
  destruct (for_each items add_item wo) as [r w2] eqn:El.
  simpl in Kfs, Kcwd, Kloc.
  destruct Kloc as (z & Ez & Eloc).
  exists wo, r, w2.
  split; [now split|]. split; [discriminate|]. split; [reflexivity|].
  split; [exact El|].
  unfold ZipFile_close. rewrite Ez, Eloc.
  assert (Hst : forall l,
            stat (set_stdout
                    (set_zf
                       (set_fs w2
                          (set_at (cwd w ++ [name])
                             (Some (File true (ZipOf (zf_entries z)))) (fs w2)))
                       None) l) name
            = Some (File true (ZipOf (entries_of w2)))).
  { intro l. unfold entries_of. rewrite Ez.
    rewrite stat_name by assumption. simpl. rewrite Kfs, Kcwd. simpl.
    rewrite is_dir_get_set_at.
    change (set_at (cwd w ++ [name]) (Some (File true (ZipOf (zf_entries z))))
              (set_at (cwd w ++ [name]) (Some (File true (Bytes ""))) (fs w)))
      with (fs (put (put w name (Some (File true (Bytes ""))))
                  name (Some (File true (ZipOf (zf_entries z)))))).
    rewrite is_dir_get_set_at, Hd.
    simpl. apply get_set_at_same. now rewrite is_dir_get_set_at. }
  assert (Hfs : set_at (cwd w ++ [name])
                  (Some (File true (ZipOf (zf_entries z)))) (fs w2)
                = fs (put w name (Some (File true (ZipOf (entries_of w2)))))).
  { unfold entries_of, put. rewrite Ez, Kfs. cbn [fs set_fs].
    apply set_at_set_set. }
  destruct r as [[]|e]; cbn [fst snd];
    (split; [reflexivity|]; split; [apply Hst|];
     cbn [fs cwd set_stdout set_zf set_fs]; split; [exact Hfs|exact Kcwd]).
Qed.

(** X9.  A failed archiving stage leaves its file behind: when the
    archive could be created in the working directory and the stage
    reports failure, [main] returns at once, the process ends with
    status 0, and the archive file is still there, closed over the
    entries written before the error. *)
Theorem failed_archive_is_left (cfg : Config) (w : World) :
  archive_failed cfg w ->
  is_dir (get (fs w) (cwd w)) = true ->
  is_dir (stat w (zip_filename_of (clock w))) = false ->
  fst (script cfg w) = 0%Z
  /\ net_log (snd (main cfg w)) = net_log w
  /\ exists es,
       stat (snd (main cfg w)) (zip_filename_of (clock w))
       = Some (File true (ZipOf es)).
Proof.
  intros Hf Hd Hnd.
  destruct (@create_unencrypted_zip_file (SOURCE_ITEMS cfg)
              (zip_filename_of (clock w)) w
              (zip_filename_is_name (clock w)) Hd Hnd)
    as (wo & r & w2 & _ & _ & _ & _ & _ & Hs & _).
  fold (archive_stage cfg w) in Hs.
  destruct (stages_keep net_log cfg w) as [Hlog _]; try reflexivity.
  unfold archive_failed in Hf. unfold script. rewrite main_stages.
  destruct (archive_stage cfg w) as [ra w1]. cbn [fst snd] in *. subst ra.
  cbn [fst snd]. split; [reflexivity|]. split; [exact Hlog|].
  now exists (entries_of w2).
Qed.

(** [notes.log] and then a file that cannot be read: the stage fails,
    and the archive with [notes.log] stays. *)
Lemma failed_archive_is_left_example :
  let cfg := example_config ["notes.log"; "secret.key"] in
  fst (script cfg example_world) = 0%Z
  /\ stat (snd (main cfg example_world)) (zip_filename_of example_clock)
     = Some (File true (ZipOf [("notes.log", Bytes "log")])).
Proof.
  intro cfg.
  destruct (@failed_archive_is_left cfg example_world) as (H & _ & _).
  - vm_compute. reflexivity.
  - reflexivity.
  - vm_compute. reflexivity.
  - split; [exact H|vm_compute; reflexivity].
Defined.

(** ** When the archiving stage succeeds *)

Lemma readable_entries (es : list (string * node)) (name : string)
    (child : node) :
  readable_tree (Dir es) = true -> In (name, child) es ->
  readable_tree child = true.
Proof.
  induction es as [|[n0 c0] r IH]; [contradiction|].
  cbn [readable_tree]. fold (readable_tree (Dir r)).
  rewrite andb_true_iff. intros [H1 H2] [E|Hin].
  - now injection E as _ <-.
  - now apply IH.
Qed.

Lemma readable_get (n : node) (loc : list string) (rd : bool) (d : blob) :
  readable_tree n = true -> get n loc = Some (File rd d) -> rd = true.
Proof.
  revert n. induction loc as [|c r IH]; intros n Hn.
  - intros [= ->]. exact Hn.
  - cbn [get]. destruct n as [rd' d'|es]; [discriminate|].
    destruct (lookup c es) as [m|] eqn:El; [|discriminate].
    apply lookup_In in El. apply IH.
    exact (@readable_entries es c m Hn El).
Qed.

Lemma zf_write_run (f a a' : string) (d : blob) (w : World) :
  zf w <> None -> stat w f = Some (File true d) ->
  zip_arcname a = Some a' ->
  exists w',
    zf_write f a w = (Ok tt, w')
    /\ same_files w w' /\ zf w' <> None
    /\ entries_of w' = (entries_of w ++ [(a', d)])%list.
Proof.
  intros Hz Hs Ha. unfold zf_write, zf_add, entries_of. rewrite Hs, Ha.
  destruct (zf w) as [z|]; [|congruence].
  eexists. split; [reflexivity|]. cbn [zf set_zf zf_entries].
  split; [now split|]. split; [discriminate|reflexivity].
Qed.

Lemma for_each_runs {A : Type} (l : list A) (body : A -> M unit)
    (g : A -> list (string * blob)) (w0 : World) :
  (forall x w,
     In x l -> same_files w0 w -> zf w <> None ->
     exists w',
       body x w = (Ok tt, w')
       /\ same_files w0 w' /\ zf w' <> None
       /\ entries_of w' = (entries_of w ++ g x)%list) ->
  forall w,
    same_files w0 w -> zf w <> None ->
    exists w',
      for_each l body w = (Ok tt, w')
      /\ same_files w0 w' /\ zf w' <> None
      /\ entries_of w' = (entries_of w ++ flat_map g l)%list.
Proof.
  induction l as [|x l IH]; intros H w Hw Hz.
  - exists w. rewrite app_nil_r. split; [reflexivity|].
    split; [exact Hw|]. split; [exact Hz|reflexivity].
  - destruct (H x w (or_introl eq_refl) Hw Hz) as (w1 & E1 & S1 & Z1 & N1).
    destruct (IH (fun y v Hy => H y v (or_intror Hy)) w1 S1 Z1)
      as (w2 & E2 & S2 & Z2 & N2).
    exists w2. cbn [for_each flat_map]. unfold bind. rewrite E1.
    split; [exact E2|]. split; [exact S2|]. split; [exact Z2|].
    now rewrite N2, N1, <- app_assoc.
Qed.

Lemma add_item_dir_runs (item : string) (pre : list string)
    (es : list (string * node)) (w : World) :
  stat w item = Some (Dir es) -> wf_node (Dir es) = true ->
  readable_tree (Dir es) = true ->
  (forall r, names r -> r <> [] ->
     posixpath.relpath (getcwd w) (posixpath.join item r)
       (posixpath.dirname item)
     = Some (Str.join_sep (pre ++ r))) ->
  (forall r x, names r -> r <> [] -> get (Dir es) r = Some x ->
     stat w (posixpath.join item r) = Some x) ->
  names pre -> zf w <> None ->
  exists w1,
    add_item item w = (Ok tt, w1)
    /\ same_files w w1 /\ zf w1 <> None
    /\ entries_of w1 = (entries_of w ++ dir_entries pre (Dir es))%list.
Proof.
  intros Hs Hwf Hrd Hrel Hstat Hpre Hz. rewrite (@add_item_dir item es w Hs).
  assert (K : exists w2,
            for_each (tree_files (Dir es))
              (fun r =>
                 arcname <- os_path_relpath (posixpath.join item r)
                              (posixpath.dirname item) ;;
                 zf_write (posixpath.join item r) arcname) w
            = (Ok tt, w2)
            /\ same_files w w2 /\ zf w2 <> None
            /\ entries_of w2
               = (entries_of w
                  ++ flat_map
                       (fun r => [(Str.join_sep (pre ++ r),
                                   data_at (Dir es) r)])
                       (tree_files (Dir es)))%list).
  { apply for_each_runs; [|apply same_files_refl|exact Hz].
    intros r v Hin Hv Hzv.
    destruct (@tree_files_spec (Dir es) Hwf r Hin) as (N1 & N2 & rd & d & N3).
    pose proof (@readable_get (Dir es) r rd d Hrd N3) as ->.
    unfold bind, os_path_relpath.
    rewrite (@same_files_getcwd w v Hv), (Hrel r N1 N2).
    assert (Hsv : stat v (posixpath.join item r) = Some (File true d)).
    { rewrite (@same_files_stat w v _ Hv). now apply Hstat. }
    assert (Hn : names (pre ++ r)) by now apply Forall_app.
    assert (Hne : (pre ++ r)%list <> []).
    { intro H. apply app_eq_nil in H. now destruct H. }
    destruct (@zf_write_run _ _ _ _ v Hzv Hsv (@zip_arcname_names _ Hn Hne))
      as (v' & E & S2 & Z2 & N).
    exists v'. split; [exact E|].
    split; [now apply same_files_trans with v|]. split; [exact Z2|].
    unfold data_at. now rewrite N3. }
  destruct K as (w2 & E & S1 & Z1 & N1).
  unfold bind at 1. rewrite E. unfold print.
  eexists. split; [reflexivity|].
  split; [exact S1|]. split; [exact Z1|].
  unfold entries_of in N1 |- *. cbn [zf set_stdout].
  rewrite N1. unfold dir_entries. f_equal.
Qed.

Lemma add_item_file_runs (item : string) (d : blob) (w : World) :
  stat w item = Some (File true d) -> zf w <> None ->
  exists w1,
    add_item item w = (Ok tt, w1)
    /\ same_files w w1 /\ zf w1 <> None
    /\ entries_of w1 = (entries_of w ++ [(posixpath.basename item, d)])%list.
Proof.
  intros Hs Hz.
  assert (Ht : is_name (tail_of item) = true).
  { apply (@file_tail_is_name w item). now rewrite Hs. }
  assert (Hn : names [posixpath.basename item]).
  { rewrite basename_tail. now repeat constructor. }
  pose proof (@zip_arcname_names _ Hn ltac:(discriminate)) as Ha.
  cbn [Str.join_sep] in Ha.
  destruct (@zf_write_run item _ _ d w Hz Hs Ha) as (w1 & E & S1 & Z1 & N1).
  unfold add_item, os_path_isfile. unfold bind at 1. rewrite Hs.
  cbn [is_file]. unfold bind, print. rewrite E.
  eexists. split; [reflexivity|]. split; [exact S1|]. split; [exact Z1|].
  exact N1.
Qed.

(** An item that can be archived is added without an error, as the
    entries it is stored as. *)
Lemma add_item_archivable (w0 : World) (item : string) (w : World) :
  wf_node (fs w0) = true -> archivable w0 item ->
  same_files w0 w -> zf w <> None ->
  exists w',
    add_item item w = (Ok tt, w')
    /\ same_files w0 w' /\ zf w' <> None
    /\ entries_of w' = (entries_of w ++ stored_entries w0 item)%list.
Proof.
  intros Hwf Ha Hw Hz. unfold archivable, stored_entries in *.
  pose proof (@same_files_stat w0 w item Hw) as Hs.
  destruct (stat w0 item) as [[rd d|es]|] eqn:E0.
  - subst rd.
    destruct (@add_item_file_runs item d w Hs Hz) as (w' & E & S1 & Z1 & N1).
    exists w'. split; [exact E|].
    split; [now apply same_files_trans with w|]. now split.
  - destruct Ha as [Hrd Hform].
    assert (Hes : wf_node (Dir es) = true) by exact (@wf_stat w0 item _ Hwf E0).
    destruct (Str.endswith_sep item) eqn:Ee.
    + destruct (@add_item_dir_runs item [] es w Hs Hes Hrd)
        as (w' & E & S1 & Z1 & N1).
      * intros r Hr Hne. cbn [app].
        apply relpath_trailing; (assumption || apply getcwd_abs).
      * intros r x Hr Hne Hx.
        exact (@stat_join_trailing w item (Dir es) x r Ee Hs Hr Hne Hx).
      * constructor.
      * exact Hz.
      * exists w'. split; [exact E|].
        split; [now apply same_files_trans with w|]. now split.
    + destruct Hform as [Hf|Hf]; [discriminate|].
      rewrite basename_tail in Hf |- *.
      destruct (@add_item_dir_runs item [tail_of item] es w Hs Hes Hrd)
        as (w' & E & S1 & Z1 & N1).
      * intros r Hr Hne. cbn [app].
        apply relpath_plain; (assumption || apply getcwd_abs).
      * intros r x Hr Hne Hx.
        exact (@stat_join_plain w item (Dir es) x r Hf Hs Hr Hne Hx).
      * now repeat constructor.
      * exact Hz.
      * exists w'. split; [exact E|].
        split; [now apply same_files_trans with w|]. now split.
  - exists w. rewrite add_item_missing by now rewrite Hs.
    rewrite app_nil_r. split; [reflexivity|].
    split; [exact Hw|]. split; [exact Hz|reflexivity].
Qed.

(** X10.  The archiving stage succeeds on every list of items that
    can be archived: on a well-formed file system, with an archive
    name that can be created in the working directory, when no item
    is the archive or a directory the archive lies in, and every item
    is a readable file, a directory of readable files (given with a
    trailing separator or with a name as last component) or names
    nothing, [create_unencrypted_zip] returns [True] and the archive
    holds, in the order of the items, a file under its base name and
    the files of a directory under their location in it, after the
    name of the directory unless the item has a trailing separator. *)
Theorem create_unencrypted_zip_succeeds (items : list string) (name : string)
    (w : World) :
  let wa := archiving_world name w in
  is_name name = true ->
  is_dir (get (fs w) (cwd w)) = true ->
  is_dir (stat w name) = false ->
  wf_node (fs wa) = true ->
  (forall item, In item items -> holds_archive wa name item = false) ->
  (forall item, In item items -> archivable wa item) ->
  fst (create_unencrypted_zip items name w) = Ok true
  /\ stat (snd (create_unencrypted_zip items name w)) name
     = Some (File true (ZipOf (flat_map (stored_entries wa) items))).
Proof.
  intros wa Hn Hd Hnd Hwf _ Hall. subst wa.
  destruct (@create_unencrypted_zip_file items name w Hn Hd Hnd)
    as (wo & r & w2 & Hwo & Hz & He & Hl & Hr & Hs & _).
  destruct (@for_each_runs _ items add_item
              (stored_entries (archiving_world name w))
              (archiving_world name w)) with (w := wo)
    as (w' & E & _ & _ & N); [|exact Hwo|exact Hz|].
  - intros item v Hin Hv Hzv.
    exact (@add_item_archivable _ item v Hwf (Hall item Hin) Hv Hzv).
  - rewrite Hl in E. injection E as -> ->.
    rewrite Hr, Hs, N, He. now split.
Qed.

(** The directory [data], once plain and once with a separator, a
    file and a name that does not exist. *)
Lemma create_unencrypted_zip_succeeds_example :
  stat (snd (create_unencrypted_zip ["data"; "data/"; "notes.log"; "gone"]
               "b.zip" example_world)) "b.zip"
  = Some (File true
            (ZipOf [("data/a.txt", Bytes "hello");
                    ("data/sub/b.txt", Bytes "bye");
                    ("a.txt", Bytes "hello");
                    ("sub/b.txt", Bytes "bye");
                    ("notes.log", Bytes "log")])).
Proof.
  destruct (@create_unencrypted_zip_succeeds
              ["data"; "data/"; "notes.log"; "gone"] "b.zip" example_world)
    as [_ H]; [reflexivity|reflexivity|reflexivity|reflexivity| | |].
  - intros item [<-|[<-|[<-|[<-|[]]]]]; vm_compute; reflexivity.
  - intros item [<-|[<-|[<-|[<-|[]]]]]; vm_compute; auto.
  - rewrite H. vm_compute. reflexivity.
Defined.

(** ** A run in which the first two stages succeed *)

Lemma stat_same (w w' : World) (p : string) :
  fs w' = fs w -> cwd w' = cwd w -> stat w' p = stat w p.
Proof. intros H1 H2. unfold stat, start_of. now rewrite H1, H2. Qed.

(** A successful archiving stage could open its archive. *)
Lemma create_true_opened (items : list string) (name : string) (w : World) :
  is_name name = true ->
  fst (create_unencrypted_zip items name w) = Ok true ->
  is_dir (get (fs w) (cwd w)) = true /\ is_dir (stat w name) = false.
Proof.
  intros Hn. rewrite create_unencrypted_zip_loop. cbv zeta.
  set (w0 := set_stdout w _).
  unfold ZipFile_open. change (locate w0 name) with (locate w name).
  rewrite locate_name, stat_name by assumption.
  change (fs w0) with (fs w).
  destruct (is_dir (get (fs w) (cwd w))); [|discriminate].
  destruct (is_dir (get (fs w) (cwd w ++ [name])%list)); [discriminate|].
  now split.
Qed.

Lemma uploads_keep {X : Type} (proj : World -> X) (cfg : Config) (w : World) :
  (forall w l, proj (set_stdout w l) = proj w) ->
  (forall w l, proj (set_net_log w l) = proj w) ->
  (forall w u s, proj (set_dav w u s) = proj w) ->
  proj (snd (upload_stage cfg w)) = proj (snd (encrypt_stage cfg w)).
Proof.
  intros H1 H2 H3. unfold upload_stage.
  apply (@keeps_for_each _ _ proj (WEBDAV_SERVERS cfg)).
  intro sc. now apply upload_to_webdav_keeps.
Qed.

(** The two stages in a world where [openssl] works: the archive and
    its encryption are the two new entries of the working directory. *)
Lemma two_stages_run (cfg : Config) (w : World) :
  fst (archive_stage cfg w) = Ok true ->
  openssl w = ToolWorking ->
  is_dir (stat w (encrypted_filename_of (clock w))) = false ->
  exists es,
    let Z := File true (ZipOf es) in
    let E := File true (Enc (ENCRYPTION_PASSWORD cfg) (ZipOf es)) in
    stat (snd (archive_stage cfg w)) (zip_filename_of (clock w)) = Some Z
    /\ fst (encrypt_stage cfg w) = Ok true
    /\ fs (snd (encrypt_stage cfg w))
       = fs (put (put w (zip_filename_of (clock w)) (Some Z))
               (encrypted_filename_of (clock w)) (Some E))
    /\ cwd (snd (encrypt_stage cfg w)) = cwd w
    /\ is_dir (get (fs w) (cwd w)) = true.
Proof.
  intros Ha Ht Hed.
  pose proof (zip_filename_is_name (clock w)) as Hz.
  pose proof (encrypted_filename_is_name (clock w)) as He.
  pose proof (@zip_enc_differ (clock w)) as Hne.
  destruct (stages_keep openssl cfg w) as [Hto _]; try reflexivity.
  unfold encrypt_stage. unfold archive_stage in *.
  revert Ha Hto Hed Hz He Hne.
  generalize (zip_filename_of (clock w)) as z.
  generalize (encrypted_filename_of (clock w)) as e.
  intros e z Ha Hto Hed Hz He Hne.
  destruct (@create_true_opened _ _ _ Hz Ha) as [Hd Hnd].
  destruct (@create_unencrypted_zip_file (SOURCE_ITEMS cfg) z w Hz Hd Hnd)
    as (wo & r & w2 & _ & _ & _ & _ & _ & Hs & Hfs & Hcwd).
  set (w1 := snd (create_unencrypted_zip (SOURCE_ITEMS cfg) z w)) in *.
  exists (entries_of w2). cbv zeta.
  set (Z := File true (ZipOf (entries_of w2))) in *.
  assert (Hd1 : is_dir (get (fs w1) (cwd w1)) = true).
  { rewrite Hfs, Hcwd. unfold put. cbn [fs set_fs].
    now rewrite is_dir_get_set_at. }
  assert (He1 : is_dir (stat w1 e) = false).
  { rewrite (@stat_same (put w z (Some Z)) w1 e Hfs Hcwd).
    rewrite stat_put_other by congruence. exact Hed. }
  assert (Hl1 : location_of w1 z <> Some (cwd w1 ++ [e])%list).
  { rewrite location_of_name, Hd1 by assumption.
    destruct (get (fs w1) (cwd w1 ++ [z])%list); [|discriminate].
    intros [= H]. apply app_inj_tail in H. destruct H as [_ H]. congruence. }
  rewrite (@encrypt_with_openssl_run z e (ENCRYPTION_PASSWORD cfg)
             (ZipOf (entries_of w2)) w1)
    by (assumption || congruence).
  cbn [fst snd fs cwd set_stdout].
  split; [exact Hs|]. split; [reflexivity|].
  split; [|split; [exact Hcwd|exact Hd]].
  unfold put. cbn [fs cwd set_fs]. now rewrite Hfs, Hcwd.
Qed.

(** The last step when both files are there and may be removed. *)
Lemma cleanup_run (z e : string) (w : World) (rz re : bool) (dz de : blob) :
  is_name z = true -> is_name e = true -> z <> e ->
  stat w z = Some (File rz dz) -> stat w e = Some (File re de) ->
  remove_fault w z = None -> remove_fault w e = None ->
  let r := cleanup z e w in
  fst r = Ok tt
  /\ fs (snd r) = fs (put (put w z None) e None)
  /\ cwd (snd r) = cwd w
  /\ net_log (snd r) = net_log w
  /\ (forall u, dav (snd r) u = dav w u)
  /\ last (stdout (snd r)) "" = "清理完成。".
Proof.
  intros Hz He Hne Hsz Hse Hfz Hfe. cbv zeta.
  rewrite cleanup_halves.
  rewrite (@remove_if_exists_name z _ w Hz), Hsz, Hfz.
  set (w1 := set_stdout (put w z None) _).
  assert (Hse1 : stat w1 e = Some (File re de)).
  { unfold w1. rewrite stat_set_stdout, stat_put_other by assumption.
    exact Hse. }
  rewrite (@remove_if_exists_name e _ w1 He), Hse1.
  change (remove_fault w1 e) with (remove_fault w e). rewrite Hfe.
  cbn [fst snd stdout set_stdout]. rewrite last_last.
  repeat split.
Qed.

(** What [main] comes to when the first two stages succeed: the last
    step, in the world the uploads leave. *)
Lemma main_reaches_cleanup (cfg : Config) (w : World) :
  fst (archive_stage cfg w) = Ok true ->
  fst (encrypt_stage cfg w) = Ok true ->
  main cfg w
  = cleanup (zip_filename_of (clock w)) (encrypted_filename_of (clock w))
      (set_stdout (snd (upload_stage cfg w))
         (stdout (snd (upload_stage cfg w)) ++ [step4_line])%list).
Proof.
  intros Ha He.
  destruct (uploads_attempt_all (WEBDAV_SERVERS cfg)
              (encrypted_filename_of (clock w)) (strftime_month (clock w))
              (snd (encrypt_stage cfg w))) as [Hu _].
  fold (upload_stage cfg w) in Hu.
  rewrite main_stages.
  destruct (archive_stage cfg w) as [ra w1]. cbn [fst] in Ha. subst ra.
  destruct (encrypt_stage cfg w) as [re w2]. cbn [fst] in He. subst re.
  destruct (upload_stage cfg w) as [ru w3]. cbn [fst] in Hu. subst ru.
  reflexivity.
Qed.

(** X11.  A run in which the archive is written, [openssl] works and
    the system refuses no removal ends normally whatever happens at
    the destinations, and leaves no trace in the working directory:
    both temporary files are gone, and if neither name was in use
    before, the file system is exactly as it was. *)
Theorem successful_run_leaves_no_trace (cfg : Config) (w : World) :
  let z := zip_filename_of (clock w) in
  let e := encrypted_filename_of (clock w) in
  fst (archive_stage cfg w) = Ok true ->
  openssl w = ToolWorking ->
  is_dir (stat w e) = false ->
  remove_fault w z = None -> remove_fault w e = None ->
  fst (main cfg w) = Ok tt
  /\ stat (snd (main cfg w)) z = None
  /\ stat (snd (main cfg w)) e = None
  /\ last (stdout (snd (main cfg w))) "" = "清理完成。"
  /\ (stat w z = None -> stat w e = None -> fs (snd (main cfg w)) = fs w).
Proof.
  intros z e Ha Ht Hed Hfz Hfe.
  destruct (@two_stages_run cfg w Ha Ht Hed) as (es & _ & He & Hfs & Hcwd & Hd).
  cbv zeta in Hfs.
  rewrite (@main_reaches_cleanup cfg w Ha He).
  pose proof (uploads_keep fs cfg w (fun _ _ => eq_refl) (fun _ _ => eq_refl)
                (fun _ _ _ => eq_refl)) as Kfs.
  pose proof (uploads_keep cwd cfg w (fun _ _ => eq_refl) (fun _ _ => eq_refl)
                (fun _ _ _ => eq_refl)) as Kcwd.
  pose proof (uploads_keep remove_fault cfg w (fun _ _ => eq_refl)
                (fun _ _ => eq_refl) (fun _ _ _ => eq_refl)) as Krf.
  destruct (stages_keep remove_fault cfg w) as [_ Hrf]; try reflexivity.
  rewrite Hfs in Kfs. rewrite Hcwd in Kcwd. rewrite Hrf in Krf.
  pose proof (zip_filename_is_name (clock w)) as Hz.
  pose proof (encrypted_filename_is_name (clock w)) as Hen.
  pose proof (@zip_enc_differ (clock w)) as Hne.
  fold z in Hz, Kfs, Hne |- *. fold e in Hen, Kfs, Hne |- *.
  revert Kfs Kcwd Krf. generalize (snd (upload_stage cfg w)) as w3.
  clearbody z e. intros w3 Kfs Kcwd Krf.
  set (Z := File true (ZipOf es)) in *.
  set (E := File true (Enc (ENCRYPTION_PASSWORD cfg) (ZipOf es))) in *.
  set (w4 := set_stdout w3 _).
  assert (Hdz : is_dir (get (fs (put w z (Some Z))) (cwd (put w z (Some Z))))
                = true).
  { unfold put. cbn [fs cwd set_fs]. now rewrite is_dir_get_set_at. }
  assert (Hs4 : forall p,
            stat w4 p = stat (put (put w z (Some Z)) e (Some E)) p).
  { intro p. apply stat_same; [exact Kfs|exact Kcwd]. }
  destruct (@cleanup_run z e w4 true true (ZipOf es)
              (Enc (ENCRYPTION_PASSWORD cfg) (ZipOf es)))
    as (Hok & Hfs5 & Hcwd5 & _ & _ & Hlast); try assumption.
  - congruence.
  - rewrite Hs4, stat_put_other by assumption. now apply stat_put_same.
  - rewrite Hs4. now apply stat_put_same.
  - change (remove_fault w4 z) with (remove_fault w3 z). now rewrite Krf.
  - change (remove_fault w4 e) with (remove_fault w3 e). now rewrite Krf.
  - cbv zeta in Hok, Hfs5, Hcwd5, Hlast.
    set (w5 := snd (cleanup z e w4)) in *.
    assert (Hs5 : forall p, stat w5 p = stat (put (put w4 z None) e None) p).
    { intro p. apply stat_same; [exact Hfs5|exact Hcwd5]. }
    split; [exact Hok|]. split; [|split; [|split; [exact Hlast|]]].
    + rewrite Hs5, stat_put_other by assumption. now apply stat_put_none.
    + rewrite Hs5. now apply stat_put_none.
    + intros Hnz Hnn. rewrite Hfs5. unfold put. cbn [fs cwd set_fs].
      change (fs w4) with (fs w3). change (cwd w4) with (cwd w3).
      rewrite Kfs, Kcwd. unfold put. cbn [fs cwd set_fs].
      rewrite stat_name, Hd in Hnz, Hnn by assumption.
      apply write_two_remove_two; (assumption || congruence).
Qed.

(** The example run on [notes.log]: the tree is as it was. *)
Lemma successful_run_leaves_no_trace_example :
  fst (main (example_config ["notes.log"]) example_world) = Ok tt
  /\ fs (snd (main (example_config ["notes.log"]) example_world))
     = example_root.
Proof.
  destruct (@successful_run_leaves_no_trace (example_config ["notes.log"])
              example_world) as (H1 & _ & _ & _ & H2);
    [vm_compute; reflexivity|reflexivity|reflexivity|reflexivity|reflexivity|].
  split; [exact H1|]. apply H2; reflexivity.
Defined.

Lemma cleanup_keeps {X : Type} (proj : World -> X) (z e : string) :
  (forall w l, proj (set_stdout w l) = proj w) ->
  (forall w x, proj (set_fs w x) = proj w) ->
  keeps proj (cleanup z e).
Proof.
  intros Hout Hfs.
  assert (Hprint : forall s, keeps proj (print s)).
  { intros s w. apply Hout. }
  assert (Hrm : forall p, keeps proj (os_remove p)).
  { intros p w. unfold os_remove.
    destruct (remove_fault w p); [reflexivity|].
    destruct (locate w p) as [loc|]; [|reflexivity].
    destruct (get (fs w) loc) as [[rd d|es]|]; cbn [snd];
      rewrite ?Hfs; reflexivity. }
  unfold cleanup.
  repeat keeps_step; try apply Hprint; try apply Hrm; intro w; reflexivity.
Qed.

(** X12.  With an empty list of destinations [main] goes from the
    encryption straight to the last step, which deletes the two
    files: no call is made on any client and no server changes, so
    the backup is made and deleted without having been sent anywhere,
    and [main] returns normally. *)
Theorem no_destination_nothing_sent (cfg : Config) (w : World) :
  WEBDAV_SERVERS cfg = [] ->
  fst (archive_stage cfg w) = Ok true ->
  fst (encrypt_stage cfg w) = Ok true ->
  let w2 := snd (encrypt_stage cfg w) in
  main cfg w
  = cleanup (zip_filename_of (clock w)) (encrypted_filename_of (clock w))
      (set_stdout w2 (stdout w2 ++ [step4_line])%list)
  /\ fst (main cfg w) = Ok tt
  /\ net_log (snd (main cfg w)) = net_log w
  /\ (forall u, dav (snd (main cfg w)) u = dav w u).
Proof.
  intros Hs Ha He. cbv zeta.
  pose proof (@main_reaches_cleanup cfg w Ha He) as Hm.
  assert (Hu : snd (upload_stage cfg w) = snd (encrypt_stage cfg w)).
  { unfold upload_stage. rewrite Hs.
    generalize (snd (encrypt_stage cfg w)). reflexivity. }
  rewrite Hu in Hm.
  destruct (stages_keep net_log cfg w) as [_ Hlog]; try reflexivity.
  assert (Hdav : forall u, dav (snd (encrypt_stage cfg w)) u = dav w u).
  { intro u.
    destruct (stages_keep (fun w => dav w u) cfg w) as [_ H];
      try reflexivity.
    exact H. }
  pose proof (zip_filename_is_name (clock w)) as Hz.
  pose proof (encrypted_filename_is_name (clock w)) as Hen.
  pose proof (@zip_enc_differ (clock w)) as Hne.
  revert Hm Hlog Hdav Hz Hen Hne.
  generalize (snd (encrypt_stage cfg w)) as w2.
  generalize (zip_filename_of (clock w)) as z.
  generalize (encrypted_filename_of (clock w)) as e.
  intros e z w2 Hm Hlog Hdav Hz Hen Hne.
  split; [exact Hm|]. rewrite Hm.
  destruct (@cleanup_names z e
              (set_stdout w2 (stdout w2 ++ [step4_line])%list)
              Hz Hen (fun H => Hne (eq_sym H))) as (Hok & _).
  split; [exact Hok|]. split.
  - rewrite (@cleanup_keeps _ net_log) by reflexivity. exact Hlog.
  - intro u. rewrite (@cleanup_keeps _ (fun w => dav w u)) by reflexivity.
    apply Hdav.
Qed.

(** The example without destination. *)
Lemma no_destination_nothing_sent_example :
  let cfg := {| SOURCE_ITEMS := ["notes.log"]; WEBDAV_SERVERS := [];
                ENCRYPTION_PASSWORD := "secret" |} in
  fst (main cfg example_world) = Ok tt
  /\ net_log (snd (main cfg example_world)) = [].
Proof.
  intro cfg.
  destruct (@no_destination_nothing_sent cfg example_world)
    as (_ & H1 & H2 & _);
    [reflexivity|vm_compute; reflexivity|vm_compute; reflexivity|].
  split; [exact H1|exact H2].
Defined.

(** ** What the destinations hold *)

Lemma server_grows_refl (s : dav_server) : server_grows s s.
Proof. split; [reflexivity|]. split; [reflexivity|]. exists []. now rewrite app_nil_r. Qed.

Lemma server_grows_trans (s1 s2 s3 : dav_server) :
  server_grows s1 s2 -> server_grows s2 s3 -> server_grows s1 s3.
Proof.
  intros (F1 & M1 & l1 & E1) (F2 & M2 & l2 & E2).
  split; [congruence|]. split; [congruence|].
  exists (l1 ++ l2)%list. now rewrite E2, E1, app_assoc.
Qed.

Lemma grows_ret {A : Type} (a : A) : grows (ret a).
Proof. intros w u. apply server_grows_refl. Qed.

Lemma grows_print (line : string) : grows (print line).
Proof. intros w u. apply server_grows_refl. Qed.

Lemma grows_bind {A B : Type} (m : M A) (k : A -> M B) :
  grows m -> (forall a, grows (k a)) -> grows (bind m k).
Proof.
  intros Hm Hk w u. unfold bind. specialize (Hm w u).
  destruct (m w) as [[a|e] w1]; cbn [snd] in *; [|exact Hm].
  exact (server_grows_trans Hm (Hk a w1 u)).
Qed.

Lemma grows_try_except {A : Type} (m : M A) (clauses : list (clause A)) :
  grows m -> (forall c e, In c clauses -> grows (snd c e)) ->
  grows (try_except m clauses).
Proof.
  intros Hm Hc w u. unfold try_except. specialize (Hm w u).
  destruct (m w) as [[a|e] w1]; cbn [snd] in *; [exact Hm|].
  destruct (select_clause e clauses) as [h|] eqn:E; [|exact Hm].
  assert (Hh : grows (h e)).
  { clear -E Hc. induction clauses as [|[c h'] r IH]; [discriminate|].
    cbn [select_clause] in E. destruct (c e).
    - injection E as <-. exact (Hc (c, h') e (or_introl eq_refl)).
    - apply IH; [|exact E]. intros c0 e0 H0. apply Hc. now right. }
  exact (server_grows_trans Hm (Hh w1 u)).
Qed.

Lemma grows_set_dav (w : World) (h u : string) (s' : dav_server) :
  server_grows (dav w h) s' ->
  server_grows (dav w u) (dav (set_dav w h s') u).
Proof.
  intro H. cbn [dav set_dav]. destruct (String.eqb u h) eqn:E.
  - apply String.eqb_eq in E. now subst u.
  - apply server_grows_refl.
Qed.

Lemma grows_client_check (c : Client) (d : string) : grows (client_check c d).
Proof.
  intros w u. unfold client_check, dav_call, bind.
  set (w1 := set_net_log w _). change (dav w u) with (dav w1 u).
  destruct (dav_fault (dav w1 (webdav_hostname c)) OpExists); cbn [snd];
    [apply server_grows_refl|].
  apply grows_set_dav. split; [reflexivity|]. split; [reflexivity|].
  exists []. cbn [dav_files]. now rewrite app_nil_r.
Qed.

Lemma grows_client_mkdir (c : Client) (d : string) : grows (client_mkdir c d).
Proof.
  intros w u. unfold client_mkdir, dav_call, bind.
  set (w1 := set_net_log w _). change (dav w u) with (dav w1 u).
  destruct (dav_fault (dav w1 (webdav_hostname c)) OpExists); cbn [snd];
    [apply server_grows_refl|].
  destruct (negb (dav_has _ _)); cbn [snd]; [apply server_grows_refl|].
  destruct (dav_fault (dav w1 (webdav_hostname c)) OpMkcol); cbn [snd];
    [apply server_grows_refl|].
  destruct (mem d _).
  - destruct (dav_mkcol_existing _); apply server_grows_refl.
  - cbn [snd]. apply grows_set_dav. split; [reflexivity|].
    split; [reflexivity|]. exists []. cbn [dav_files]. now rewrite app_nil_r.
Qed.

Lemma grows_client_upload (c : Client) (p f : string) :
  grows (client_upload c p f).
Proof.
  intros w u. unfold client_upload, dav_call, bind.
  set (w1 := set_net_log w _). change (dav w u) with (dav w1 u).
  destruct (dav_fault (dav w1 (webdav_hostname c)) OpPut); cbn [snd];
    [apply server_grows_refl|].
  destruct (stat w1 f) as [[[|] data|es]|]; try apply server_grows_refl.
  destruct (dav_has _ _); [|apply server_grows_refl].
  cbn [snd]. apply grows_set_dav. split; [reflexivity|].
  split; [reflexivity|]. now exists [(p, data)].
Qed.

(** Whatever happens, an upload leaves every server grown. *)
Lemma upload_grows (sc : ServerConfig) (f d : string) :
  grows (upload_to_webdav sc f d).
Proof.
  unfold upload_to_webdav, ensure_remote_dir.
  apply grows_bind; [apply grows_print|]. intros _.
  apply grows_try_except.
  - apply grows_bind.
    + apply grows_bind; [apply grows_client_check|].
      intros [|]; cbn [negb]; [apply grows_ret|].
      apply grows_bind; [apply grows_client_mkdir|].
      intros _. apply grows_print.
    + intros _. apply grows_bind; [apply grows_client_upload|].
      intros _. apply grows_print.
  - intros c e [<-|[]]. cbn [snd]. apply grows_print.
Qed.

Lemma uploads_grow (servers : list ServerConfig) (f d : string) :
  grows (for_each servers (fun server => upload_to_webdav server f d)).
Proof.
  induction servers as [|sc r IH]; [apply grows_ret|].
  cbn [for_each]. apply grows_bind; [apply upload_grows|]. intros _. exact IH.
Qed.

Lemma strftime_month_no_sep (t : datetime) :
  Str.has_sep (strftime_month t) = false.
Proof.
  unfold strftime_month. rewrite !has_sep_app, pad4_no_sep, pad2_no_sep.
  reflexivity.
Qed.

Lemma all_dots_app (a b : string) :
  all_dots (a ++ b) = all_dots a && all_dots b.
Proof.
  induction a as [|c a IH]; [reflexivity|].
  cbn [String.append all_dots]. now rewrite IH, andb_assoc.
Qed.

(** The month of the run is a remote directory of one component. *)
Lemma strftime_month_plain (t : datetime) :
  plain_component (strftime_month t) = true.
Proof.
  unfold plain_component. rewrite strftime_month_no_sep.
  unfold strftime_month. rewrite !all_dots_app.
  cbn [all_dots Ascii.eqb Bool.eqb andb negb]. now rewrite andb_false_r.
Qed.

(** X13.  Every destination that can be reached holds the backup
    after a run: when the archive is written and [openssl] works, a
    configured server that accepts every request has, when [main]
    returns, the encryption of the archive under the configured
    password among its files, under the month of the run and the name
    of the encrypted file, whatever happened at the other
    destinations. *)
Theorem reachable_destination_holds_backup (cfg : Config) (w : World)
    (sc : ServerConfig) :
  let z := zip_filename_of (clock w) in
  let e := encrypted_filename_of (clock w) in
  fst (archive_stage cfg w) = Ok true ->
  openssl w = ToolWorking ->
  is_dir (stat w e) = false ->
  In sc (WEBDAV_SERVERS cfg) ->
  (forall op, dav_fault (dav w (url sc)) op = None) ->
  dav_mkcol_existing (dav w (url sc)) = None ->
  exists es,
    stat (snd (archive_stage cfg w)) z = Some (File true (ZipOf es))
    /\ In ("/" ++ strftime_month (clock w) ++ "/" ++ e,
           Enc (ENCRYPTION_PASSWORD cfg) (ZipOf es))
         (dav_files (dav (snd (main cfg w)) (url sc))).
Proof.
  intros z e Ha Ht Hed Hin Hf Hm.
  destruct (@two_stages_run cfg w Ha Ht Hed)
    as (es & Hz & He & Hfs & Hcwd & Hd).
  cbv zeta in Hz, Hfs. exists es. split; [exact Hz|].
  rewrite (@main_reaches_cleanup cfg w Ha He).
  rewrite (@cleanup_keeps _ (fun w => dav w (url sc))) by reflexivity.
  cbn [dav set_stdout].
  pose proof (encrypted_filename_is_name (clock w)) as Hen.
  fold e in Hen, Hfs.
  set (E := File true (Enc (ENCRYPTION_PASSWORD cfg) (ZipOf es))) in *.
  set (Z := File true (ZipOf es)) in *.
  assert (Hse : stat (snd (encrypt_stage cfg w)) e = Some E).
  { rewrite (@stat_same _ _ e Hfs Hcwd). apply stat_put_same; [exact Hen|].
    unfold put. cbn [fs cwd set_fs]. now rewrite is_dir_get_set_at. }
  destruct (stages_keep (fun w => dav w (url sc)) cfg w) as [_ Hdav];
    try reflexivity.
  unfold upload_stage. fold e.
  revert Hse Hdav. generalize (snd (encrypt_stage cfg w)) as w2.
  intros w2 Hse Hdav.
  set (body := fun server : ServerConfig =>
                 upload_to_webdav server e (strftime_month (clock w))).
  apply in_split in Hin. destruct Hin as (l1 & l2 & ->).
  rewrite for_each_app. unfold bind.
  pose proof (uploads_attempt_all l1 e (strftime_month (clock w)) w2) as [H1 _].
  pose proof (@uploads_grow l1 e (strftime_month (clock w)) w2 (url sc)) as G1.
  pose proof (@uploads_keep_stat l1 e (strftime_month (clock w)) e w2) as S1.
  fold body in H1, G1, S1.
  destruct (for_each l1 body w2) as [r1 wa]. cbn [fst snd] in H1, G1, S1.
  subst r1. cbn [for_each]. unfold bind.
  destruct G1 as (F1 & M1 & _). rewrite Hdav in F1, M1.
  assert (Hfa : forall op, dav_fault (dav wa (url sc)) op = None).
  { intro op. now rewrite F1. }
  assert (Hma : dav_mkcol_existing (dav wa (url sc)) = None) by congruence.
  assert (Hsa : stat wa e = Some (File true
                  (Enc (ENCRYPTION_PASSWORD cfg) (ZipOf es)))).
  { now rewrite S1. }
  destruct (@upload_to_webdav_run sc e (strftime_month (clock w)) _ wa
              (strftime_month_plain _) Hfa Hma Hsa) as (wx & _ & _ & _ & _ & Hup).
  unfold body at 1. rewrite Hup.
  match goal with
  | |- In _ (dav_files (dav (snd (for_each l2 body ?wb)) _)) =>
      pose proof (@uploads_grow l2 e (strftime_month (clock w)) wb (url sc))
        as (_ & _ & l & G2);
      fold body in G2; rewrite G2
  end.
  cbn [dav set_stdout set_dav]. rewrite String.eqb_refl. cbn [dav_files].
  rewrite !in_app_iff. left. right. left. f_equal.
  rewrite full_remote_dir_plain by apply strftime_month_no_sep.
  rewrite basename_tail.
  destruct (head_tail_no_sep e) as [_ ->].
  - apply is_name_inv in Hen. now destruct Hen as (_ & H & _).
  - now rewrite !append_assoc.
Qed.

(** Two destinations, the first of which cannot be reached: the second
    holds the backup of [notes.log]. *)
Lemma reachable_destination_holds_backup_example :
  let cfg := {| SOURCE_ITEMS := ["notes.log"];
                WEBDAV_SERVERS :=
                  [{| url := "https://down.example.org/"; username := "u";
                      password := "p" |}; example_server];
                ENCRYPTION_PASSWORD := "secret" |} in
  let w := {| fs := example_root; cwd := ["home"; "u"]; stdout := [];
              clock := example_clock; openssl := ToolWorking;
              remove_fault := fun _ => None;
              dav := fun u =>
                if String.eqb u "https://down.example.org/"
                then down_server else quiet_server;
              net_log := []; zf := None |} in
  dav_files (dav (snd (main cfg w)) (url example_server))
  = [("/2024-05/backup_20240507_090359.zip.enc",
      Enc "secret" (ZipOf [("notes.log", Bytes "log")]))].
Proof.
  intros cfg w.
  destruct (@reachable_destination_holds_backup cfg w example_server)
    as (es & _ & H);
    [vm_compute; reflexivity|reflexivity|reflexivity|
     right; left; reflexivity|reflexivity|reflexivity|].
  vm_compute. reflexivity.
Defined.

(** ** Edge cases of the archive *)

(** X14.  With an empty list of source items the archiving stage
    succeeds all the same: it prints its two lines, returns [True] and
    leaves an archive without entries, which [main] then encrypts and
    uploads like any other. *)
Theorem empty_source_list_gives_empty_archive (name : string) (w : World) :
  is_name name = true ->
  is_dir (get (fs w) (cwd w)) = true ->
  is_dir (stat w name) = false ->
  let r := create_unencrypted_zip [] name w in
  fst r = Ok true
  /\ stat (snd r) name = Some (File true (ZipOf []))
  /\ stdout (snd r)
     = (stdout w ++ [step1_line name; "标准ZIP压缩包创建成功。"])%list.
Proof.
  intros Hn Hd Hnd r. subst r.
  destruct (@create_unencrypted_zip_file [] name w Hn Hd Hnd)
    as (wo & r & w2 & _ & _ & He & Hl & Hr & Hs & _).
  cbn [for_each] in Hl. unfold ret in Hl. injection Hl as <- <-.
  rewrite Hr, Hs, He. split; [reflexivity|]. split; [reflexivity|].
  rewrite create_unencrypted_zip_loop. cbv zeta.
  rewrite archiving_world_name;
    [|exact Hn|exact Hd|now rewrite stat_name, Hd in Hnd].
  cbn [for_each]. unfold ret, ZipFile_close.
  cbn [zf set_zf snd stdout set_stdout set_fs put].
  now rewrite <- app_assoc.
Qed.

(** No item in the example world. *)
Lemma empty_source_list_gives_empty_archive_example :
  stat (snd (create_unencrypted_zip [] "b.zip" example_world)) "b.zip"
  = Some (File true (ZipOf [])).
Proof.
  destruct (@empty_source_list_gives_empty_archive "b.zip" example_world)
    as (_ & H & _); [reflexivity|reflexivity|reflexivity|exact H].
Defined.


